(** * Sahayak backend: response reconciliation and admission control

    A shallow embedding of the analysis backend of the Sahayak Word add-in:

    - [lib/llmService.js], processing version 1.0 (offset-form locations):
      [levenshteinDistance], [fuzzyMatch], [validateAndProcessResults],
      [analyzeDocument];
    - the processing version 2.0 of the same service (paragraph-form
      locations): [validateAndProcessResults], [analyzeDocument];
    - [lib/rateLimit.js]: [rateLimit], [cleanupOldEntries],
      [rateLimitAdvanced];
    - the request utilities ([validateRequest]) and the analyze endpoint
      ([handler]).

    JavaScript strings are sequences of code units; they are embedded as
    [string], one [ascii] per code unit.  Integers that the code reads from
    JSON or from the clock are embedded as [Z].

    The reply of the model is embedded twice.  [V1] and [V2] read it with
    the types of the documented response format.  [V1_dynamic] and
    [V2_dynamic] take it as [JSON.parse] returns it, a value of any shape
    ([Dyn.Value]), with the conversions and the [TypeError]s of the
    operations the code applies to it.  The two agree on replies of the
    documented format ([typed_offset_reading], [typed_paragraph_reading]). *)

From Stdlib Require Import String Ascii List ZArith QArith Lia Bool DecimalString.
From stdpp Require Import gmap strings.
Import ListNotations.

Local Open Scope nat_scope.

(** ** JavaScript string primitives *)

Module Js.

(** [s.length] as a number. *)
Definition len (s : string) : Z := Z.of_nat (String.length s).

(** [Math.min(Math.max(i, 0), n)]: the clamping [substring] applies to each
    of its arguments. *)
Definition clamp (i n : Z) : Z := Z.min (Z.max i 0) n.

(** [s.substring(i, j)]: both indices are clamped to [0, s.length] and
    swapped when the first exceeds the second. *)
Definition substring (s : string) (i j : Z) : string :=
  let a := clamp i (len s) in
  let b := clamp j (len s) in
  let lo := Z.min a b in
  let hi := Z.max a b in
  String.substring (Z.to_nat lo) (Z.to_nat (hi - lo)) s.

(** [s.includes(t)]. *)
Fixpoint includes (s t : string) : bool :=
  String.prefix t s ||
  match s with
  | EmptyString => false
  | String _ s' => includes s' t
  end.

End Js.

(** ** Approximate matcher ([levenshteinDistance], [fuzzyMatch]) *)

Module Levenshtein.

Section Matrix.

Context {A : Type} `{EqDecision A}.

(** Row 0 of the matrix: [matrix[0][j] = j] for [j = 0 .. str1.length]. *)
Definition first_row (str1 : list A) : list nat := seq 0 (S (length str1)).

(** The inner loop [for j = 1 .. str1.length] on row [i], whose character is
    [c = str2.charAt(i - 1)].  [rest] holds the characters
    [str1.charAt(j - 1)] still to come, [up] the cells [matrix[i-1][j..]],
    [diag] is [matrix[i-1][j-1]] and [left] is [matrix[i][j-1]]. *)
Fixpoint fill_row (c : A) (rest : list A) (up : list nat) (diag left : nat)
  : list nat :=
  match rest, up with
  | ch :: rest', u :: up' =>
      let cell :=
        if decide (c = ch) then diag
        else Nat.min (diag + 1) (Nat.min (left + 1) (u + 1)) in
      cell :: fill_row c rest' up' u cell
  | _, _ => []
  end.

(** Row [i]: it starts as [[i]] and the inner loop appends to it. *)
Definition next_row (str1 : list A) (c : A) (i : nat) (prev : list nat)
  : list nat :=
  i :: fill_row c str1 (tl prev) (hd 0 prev) i.

(** The outer loop [for i = 1 .. str2.length]; the result is the list of the
    rows [i ..]. *)
Fixpoint fill_rows (str1 rest2 : list A) (i : nat) (prev : list nat)
  : list (list nat) :=
  match rest2 with
  | [] => []
  | c :: rest2' =>
      let row := next_row str1 c i prev in
      row :: fill_rows str1 rest2' (S i) row
  end.

Definition matrix (str1 str2 : list A) : list (list nat) :=
  first_row str1 :: fill_rows str1 str2 1 (first_row str1).

(** [return matrix[str2.length][str1.length]]. *)
Definition distance (str1 str2 : list A) : nat :=
  nth (length str1) (nth (length str2) (matrix str1 str2) []) 0.

End Matrix.

End Levenshtein.

Definition levenshteinDistance (str1 str2 : string) : nat :=
  Levenshtein.distance (list_ascii_of_string str1) (list_ascii_of_string str2).

(** The default [threshold = 0.8]. *)
Definition default_threshold : Q := 8 # 10.

(** The pair [(longer, shorter)] chosen by [fuzzyMatch]: [str1] is the longer
    one only when it is strictly longer. *)
Definition longer (str1 str2 : string) : string :=
  if (String.length str2 <? String.length str1)%nat then str1 else str2.

Definition shorter (str1 str2 : string) : string :=
  if (String.length str2 <? String.length str1)%nat then str2 else str1.

(** The local [similarity] of [fuzzyMatch]:
    [(longer.length - levenshteinDistance(longer, shorter)) / longer.length].
    The quotient is taken exactly; on strings a JavaScript engine can hold the
    double-precision quotient compares with [0.8] and with [1] the same way. *)
Definition ratio (lng shrt : string) : Q :=
  (Js.len lng - Z.of_nat (levenshteinDistance lng shrt))
    # Pos.of_nat (String.length lng).

Definition fuzzyMatch (str1 str2 : string) (threshold : Q) : bool :=
  if (String.length str1 =? 0)%nat || (String.length str2 =? 0)%nat then false
  else
    let lng := longer str1 str2 in
    let shrt := shorter str1 str2 in
    if (String.length lng =? 0)%nat then true
    else Qle_bool threshold (ratio lng shrt).

(** The score behind [fuzzyMatch]: the value of its local [similarity], and
    [0] where the guard answers "no match" before computing one. *)
Definition similarity (a b : string) : Q :=
  if (String.length a =? 0)%nat || (String.length b =? 0)%nat then 0%Q
  else ratio (longer a b) (shorter a b).

Example lev_kitten : levenshteinDistance "kitten" "sitting" = 3.
Proof. reflexivity. Qed.

(** ** Response parser and analysis engine ([analyzeDocument]) *)

(** The fields of a JavaScript error object the code looks at.  [new Error(m)]
    has a message and neither [type] nor [code]. *)
Record JsError := {
  type : option string;
  message : string;
  code : option string
}.

Definition new_Error (m : string) : JsError :=
  {| type := None; message := m; code := None |}.

(** The request sent to [anthropic.messages.create]: the system prompt and
    the content of the single user message. *)
Record Request := {
  system : string;
  content : string
}.

(** The collaborators of the service: the model call, which yields the text
    of the first content block or throws, the built-in [JSON.parse] ([None]
    when it throws), and the prompt text.  [Reply] is the type of what
    [JSON.parse] returns: the values of [Dyn] for the code as it is; for the
    typed reading of [V1] and [V2] a typed reply, [JSON.parse] being followed
    there by the reading of the value with the types of the response format,
    which is [None] as well on a value of another shape. *)
Record Service (Reply : Type) := {
  complete : Request -> JsError + string;
  JSON_parse : string -> option Reply;
  buildValidationPrompt : string
}.
Arguments complete {Reply}.
Arguments JSON_parse {Reply}.
Arguments buildValidationPrompt {Reply}.

Module Parser.

Definition open_brace : ascii := "{"%char.
Definition close_brace : ascii := "}"%char.

(** The longest prefix of [s] that ends with a closing brace, if [s] holds
    one: what the greedy [[\s\S]*\}] consumes. *)
Fixpoint through_last_close (s : string) : option string :=
  match s with
  | EmptyString => None
  | String c s' =>
      match through_last_close s' with
      | Some m => Some (String c m)
      | None => if Ascii.eqb c close_brace then Some (String c EmptyString) else None
      end
  end.

(** An attempt to match [/\{[\s\S]*\}/] at the start of [s]. *)
Definition match_here (s : string) : option string :=
  match s with
  | String c s' =>
      if Ascii.eqb c open_brace then
        match through_last_close s' with
        | Some m => Some (String c m)
        | None => None
        end
      else None
  | EmptyString => None
  end.

(** [content.match(/\{[\s\S]*\}/)]: the leftmost position where the pattern
    matches, with its greedy match. *)
Fixpoint jsonMatch (content : string) : option string :=
  match match_here content with
  | Some m => Some m
  | None =>
      match content with
      | EmptyString => None
      | String _ rest => jsonMatch rest
      end
  end.

(** [jsonMatch ? jsonMatch[0] : content]. *)
Definition jsonText (content : string) : string :=
  match jsonMatch content with
  | Some m => m
  | None => content
  end.

End Parser.

(** Computations of the engine: they may throw, and they record the requests
    made to the model. *)
Definition Eff (X : Type) : Type := (JsError + X) * list Request.

Definition ret {X} (x : X) : Eff X := (inr x, []).
Definition throw {X} (e : JsError) : Eff X := (inl e, []).
Definition bind {X Y} (m : Eff X) (k : X -> Eff Y) : Eff Y :=
  match m with
  | (inl e, log) => (inl e, log)
  | (inr x, log) => let '(r, log') := k x in (r, log ++ log')
  end.
Definition try_catch {X} (m : Eff X) (h : JsError -> Eff X) : Eff X :=
  match m with
  | (inl e, log) => let '(r, log') := h e in (r, log ++ log')
  | (inr x, log) => (inr x, log)
  end.
Definition invoke {Reply} (svc : Service Reply) (rq : Request) : Eff string :=
  (complete svc rq, [rq]).

Declare Scope eff_scope.
Delimit Scope eff_scope with eff.
Notation "x <- m ;; k" := (bind m (fun x => k))
  (at level 100, m at next level, right associativity) : eff_scope.
Notation "m ;;; k" := (bind m (fun _ => k))
  (at level 100, right associativity) : eff_scope.

Definition too_large_message : string :=
  "Document too large. Maximum size is 200,000 characters.".

Definition invalid_json_message : string :=
  "Invalid JSON response from Claude".

(** The inner [try { ... JSON.parse(jsonText) } catch (parseError)]. *)
Definition parseReply {Reply} (svc : Service Reply) (content : string)
  : Eff Reply :=
  match JSON_parse svc (Parser.jsonText content) with
  | Some r => ret r
  | None => throw (new_Error invalid_json_message)
  end.

(** The outer [catch (error)] of [analyzeDocument]. *)
Definition on_failure {X} (error : JsError) : Eff X :=
  if decide (type error = Some "rate_limit_error") then
    throw (new_Error "Rate limit exceeded. Please wait and try again.")
  else if decide (type error = Some "authentication_error") then
    throw (new_Error "Invalid API key. Please check your Anthropic API key.")
  else if decide (type error = Some "overloaded_error") then
    throw (new_Error "Claude is overloaded. Please try again in a moment.")
  else if Js.includes (message error) "timeout" then
    throw (new_Error "Analysis timeout. Document may be too complex.")
  else
    throw (new_Error ("Analysis failed: " ++ message error)).

(** ** Findings and results (both processing versions) *)

(** The summary block of a result. *)
Record Summary := {
  totalIssues : nat;
  critical : nat;
  warnings : nat;
  suggestions : nat;
  documentLength : Z
}.

(** What the environment supplies while a reply is processed: the configured
    model name, the clock reading used in [meta], and the identifier
    [`issue_${Date.now()}_${Math.random()...}`] produced while the issue at a
    given position of the reply is processed. *)
Record Env := {
  model : string;
  timestamp : string;
  genId : nat -> string
}.

Record Meta := {
  meta_model : string;
  meta_timestamp : string;
  processingVersion : string
}.

(** [issue.id || fresh]: an absent or empty id is replaced. *)
Definition id_or (id : option string) (fresh : string) : string :=
  match id with
  | Some (String c s) => String c s
  | _ => fresh
  end.

(** [issue.autoFixable !== undefined ? issue.autoFixable : false]. *)
Definition autoFixable_or_false (a : option bool) : bool :=
  match a with
  | Some b => b
  | None => false
  end.

(** *** Processing version 1.0: offset-form locations *)

Module V1.

(** An offset-form location, typed as the response format gives it: two
    integers and the quoted text.  On such a location no statement of the
    loop body throws, so the [catch] of the iteration is not reached.  The
    loop on a finding of any shape is [V1_dynamic.validateIssue];
    [typed_offset_reading] shows that on a finding of these types it does
    what [validateIssue] below says. *)
Record Location := {
  startIndex : Z;
  endIndex : Z;
  exactText : string;
  context : string
}.

Record Issue := {
  id : option string;
  category : string;
  severity : string;
  location : Location;
  autoFixable : option bool
}.

(** The decoded reply: [summary] and [issues] may be missing. *)
Record Reply := {
  reply_summary : option Summary;
  reply_issues : option (list Issue)
}.

Record Stats := {
  original : nat;
  validated : nat;
  indexErrors : nat;
  textMismatches : nat
}.

Record Result := {
  summary : Summary;
  issues : list Issue;
  validationStats : Stats;
  meta : Meta
}.

(** How one iteration of the loop over [analysisResult.issues] ends: the
    issue is pushed (after the updates made to it), or the iteration is left
    by one of the two [continue] statements. *)
Inductive Verdict :=
| Accepted (issue : Issue)
| IndexError
| TextMismatch.

Definition set_exactText (l : Location) (t : string) : Location :=
  {| startIndex := startIndex l; endIndex := endIndex l;
     exactText := t; context := context l |}.

Definition set_location (i : Issue) (l : Location) : Issue :=
  {| id := id i; category := category i; severity := severity i;
     location := l; autoFixable := autoFixable i |}.

(** "Ensure required fields exist". *)
Definition ensure_fields (i : Issue) (fresh : string) : Issue :=
  {| id := Some (id_or (id i) fresh); category := category i;
     severity := severity i; location := location i;
     autoFixable := Some (autoFixable_or_false (autoFixable i)) |}.

(** The body of the loop for one issue. *)
Definition validateIssue (originalText : string) (fresh : string)
    (issue : Issue) : Verdict :=
  let loc := location issue in
  if (startIndex loc <? 0)%Z
     || (Js.len originalText <? endIndex loc)%Z
     || (endIndex loc <=? startIndex loc)%Z
  then IndexError
  else
    let actualText :=
      Js.substring originalText (startIndex loc) (endIndex loc) in
    if String.eqb actualText (exactText loc) then
      Accepted (ensure_fields issue fresh)
    else if fuzzyMatch actualText (exactText loc) default_threshold then
      Accepted (ensure_fields (set_location issue (set_exactText loc actualText)) fresh)
    else TextMismatch.

(** The state threaded through the loop. *)
Record Loop := {
  validatedIssues : list Issue;
  stats : Stats
}.

Definition count (st : Stats) (v : Verdict) : Stats :=
  match v with
  | Accepted _ =>
      {| original := original st; validated := S (validated st);
         indexErrors := indexErrors st; textMismatches := textMismatches st |}
  | IndexError =>
      {| original := original st; validated := validated st;
         indexErrors := S (indexErrors st); textMismatches := textMismatches st |}
  | TextMismatch =>
      {| original := original st; validated := validated st;
         indexErrors := indexErrors st; textMismatches := S (textMismatches st) |}
  end.

Definition step (env : Env) (originalText : string) (st : Loop)
    (k : nat) (issue : Issue) : Loop :=
  let v := validateIssue originalText (genId env k) issue in
  {| validatedIssues :=
       match v with
       | Accepted i => validatedIssues st ++ [i]
       | _ => validatedIssues st
       end;
     stats := count (stats st) v |}.

Fixpoint loop (env : Env) (originalText : string) (st : Loop)
    (k : nat) (todo : list Issue) : Loop :=
  match todo with
  | [] => st
  | issue :: todo' => loop env originalText (step env originalText st k issue) (S k) todo'
  end.

(** [validatedIssues.filter(i => i.severity === s).length]. *)
Definition count_severity (s : string) (l : list Issue) : nat :=
  length (List.filter (fun i => String.eqb (severity i) s) l).

(** The default [summary] the function stores in a reply that has none is
    not read again; the summary returned is built from [validatedIssues]. *)
Definition validateAndProcessResults (env : Env) (analysisResult : Reply)
    (originalText : string) : Result :=
  let todo :=
    match reply_issues analysisResult with
    | Some l => l
    | None => []
    end in
  let start :=
    {| validatedIssues := [];
       stats := {| original := length todo; validated := 0;
                   indexErrors := 0; textMismatches := 0 |} |} in
  let final := loop env originalText start 0 todo in
  {| summary :=
       {| totalIssues := length (validatedIssues final);
          critical := count_severity "Critical" (validatedIssues final);
          warnings := count_severity "Warning" (validatedIssues final);
          suggestions := count_severity "Suggestion" (validatedIssues final);
          documentLength := Js.len originalText |};
     issues := validatedIssues final;
     validationStats := stats final;
     meta := {| meta_model := model env; meta_timestamp := timestamp env;
                processingVersion := "1.0" |} |}.

(** The request [analyzeDocument] sends to the model. *)
Definition request (svc : Service Reply) (documentText : string) : Request :=
  {| system := buildValidationPrompt svc;
     content :=
       "Analyze this audit report for compliance violations and return valid JSON only:"
       ++ String "010" (String "010" documentText) |}.

Definition analyzeDocument (env : Env) (svc : Service Reply)
    (documentText : string) : Eff Result :=
  (try_catch
     ((if (200000 <? Js.len documentText)%Z
       then throw (new_Error too_large_message) else ret tt) ;;;
      content <- invoke svc (request svc documentText) ;;
      analysisResult <- parseReply svc content ;;
      ret (validateAndProcessResults env analysisResult documentText))
     on_failure)%eff.

End V1.

(** *** Processing version 2.0: paragraph-form locations *)

Module V2.

Record Paragraph := {
  index : Z;
  text : string;
  style : string
}.

(** The document the service receives.  The endpoint passes either the
    structure of the request or [{ fullText: documentText }], which has no
    [paragraphs]. *)
Record DocumentStructure := {
  fullText : option string;
  paragraphs : option (list Paragraph)
}.

(** A paragraph-form location, typed as the response format gives it; each
    field may be missing from the reply.  The loop on a finding of any shape
    is [V2_dynamic.validateIssue]; [typed_paragraph_reading] shows that on a
    finding of these types it does what [validateIssue] below says. *)
Record Location := {
  paragraphIndex : option Z;
  searchableText : option string;
  context : option string
}.

Record Issue := {
  id : option string;
  category : string;
  severity : string;
  location : option Location;
  autoFixable : option bool
}.

Record Reply := {
  reply_summary : option Summary;
  reply_issues : option (list Issue)
}.

Record Stats := {
  original : nat;
  validated : nat;
  invalidParagraphIndex : nat;
  missingSearchableText : nat
}.

Record Result := {
  summary : Summary;
  issues : list Issue;
  validationStats : Stats;
  meta : Meta
}.

(** How one iteration ends: pushed, left by one of the two [continue]
    statements, or left through the [catch] of the iteration, which logs and
    counts nothing. *)
Inductive Verdict :=
| Accepted (issue : Issue)
| InvalidParagraphIndex
| MissingSearchableText
| Threw.

(** [issue.location?.paragraphIndex]. *)
Definition get_paragraphIndex (issue : Issue) : option Z :=
  match location issue with
  | Some l => paragraphIndex l
  | None => None
  end.

(** [issue.location?.searchableText]. *)
Definition get_searchableText (issue : Issue) : option string :=
  match location issue with
  | Some l => searchableText l
  | None => None
  end.

(** Truthiness of an optional string: absent and empty are both falsy. *)
Definition truthy_text (t : option string) : bool :=
  match t with
  | Some (String _ _) => true
  | _ => false
  end.

Definition ensure_fields (i : Issue) (fresh : string) : Issue :=
  {| id := Some (id_or (id i) fresh); category := category i;
     severity := severity i; location := location i;
     autoFixable := Some (autoFixable_or_false (autoFixable i)) |}.

(** The body of the loop for one issue.  The comparison with
    [documentStructure.paragraphs.length] is only reached for a defined,
    non-negative index, and throws when the document has no [paragraphs]. *)
Definition validateIssue (documentStructure : DocumentStructure)
    (fresh : string) (issue : Issue) : Verdict :=
  match get_paragraphIndex issue with
  | None => InvalidParagraphIndex
  | Some paragraphIndex =>
      if (paragraphIndex <? 0)%Z then InvalidParagraphIndex
      else
        match paragraphs documentStructure with
        | None => Threw
        | Some ps =>
            if (Z.of_nat (length ps) <=? paragraphIndex)%Z
            then InvalidParagraphIndex
            else if negb (truthy_text (get_searchableText issue))
            then MissingSearchableText
            else Accepted (ensure_fields issue fresh)
        end
  end.

Record Loop := {
  validatedIssues : list Issue;
  stats : Stats
}.

Definition count (st : Stats) (v : Verdict) : Stats :=
  match v with
  | Accepted _ =>
      {| original := original st; validated := S (validated st);
         invalidParagraphIndex := invalidParagraphIndex st;
         missingSearchableText := missingSearchableText st |}
  | InvalidParagraphIndex =>
      {| original := original st; validated := validated st;
         invalidParagraphIndex := S (invalidParagraphIndex st);
         missingSearchableText := missingSearchableText st |}
  | MissingSearchableText =>
      {| original := original st; validated := validated st;
         invalidParagraphIndex := invalidParagraphIndex st;
         missingSearchableText := S (missingSearchableText st) |}
  | Threw => st
  end.

Definition step (env : Env) (documentStructure : DocumentStructure)
    (st : Loop) (k : nat) (issue : Issue) : Loop :=
  let v := validateIssue documentStructure (genId env k) issue in
  {| validatedIssues :=
       match v with
       | Accepted i => validatedIssues st ++ [i]
       | _ => validatedIssues st
       end;
     stats := count (stats st) v |}.

Fixpoint loop (env : Env) (documentStructure : DocumentStructure)
    (st : Loop) (k : nat) (todo : list Issue) : Loop :=
  match todo with
  | [] => st
  | issue :: todo' =>
      loop env documentStructure (step env documentStructure st k issue) (S k) todo'
  end.

Definition count_severity (s : string) (l : list Issue) : nat :=
  length (List.filter (fun i => String.eqb (severity i) s) l).

(** [documentStructure.fullText?.length || 0]. *)
Definition fullText_length (documentStructure : DocumentStructure) : Z :=
  match fullText documentStructure with
  | Some s => Js.len s
  | None => 0%Z
  end.

Definition validateAndProcessResults (env : Env) (analysisResult : Reply)
    (documentStructure : DocumentStructure) : Result :=
  let todo :=
    match reply_issues analysisResult with
    | Some l => l
    | None => []
    end in
  let start :=
    {| validatedIssues := [];
       stats := {| original := length todo; validated := 0;
                   invalidParagraphIndex := 0; missingSearchableText := 0 |} |} in
  let final := loop env documentStructure start 0 todo in
  {| summary :=
       {| totalIssues := length (validatedIssues final);
          critical := count_severity "Critical" (validatedIssues final);
          warnings := count_severity "Warning" (validatedIssues final);
          suggestions := count_severity "Suggestion" (validatedIssues final);
          documentLength := fullText_length documentStructure |};
     issues := validatedIssues final;
     validationStats := stats final;
     meta := {| meta_model := model env; meta_timestamp := timestamp env;
                processingVersion := "2.0" |} |}.

(** [documentStructure.fullText?.length > 200000]: false when there is no
    [fullText]. *)
Definition too_large (documentStructure : DocumentStructure) : bool :=
  match fullText documentStructure with
  | Some s => (200000 <? Js.len s)%Z
  | None => false
  end.

(** The request [analyzeDocument] sends to the model; [stringify] stands for
    [JSON.stringify(documentStructure, null, 2)]. *)
Definition request (svc : Service Reply)
    (stringify : DocumentStructure -> string)
    (documentStructure : DocumentStructure) : Request :=
  {| system := buildValidationPrompt svc;
     content :=
       "Analyze this audit report structure for compliance violations and return valid JSON only:"
       ++ String "010" (String "010" (stringify documentStructure)) |}.

Definition analyzeDocument (env : Env) (svc : Service Reply)
    (stringify : DocumentStructure -> string)
    (documentStructure : DocumentStructure) : Eff Result :=
  (try_catch
     ((if too_large documentStructure
       then throw (new_Error too_large_message) else ret tt) ;;;
      content <- invoke svc (request svc stringify documentStructure) ;;
      analysisResult <- parseReply svc content ;;
      ret (validateAndProcessResults env analysisResult documentStructure))
     on_failure)%eff.

End V2.

(** ** Request validation and the analyze endpoint *)

(** Values of a decoded JSON request body.  An object is given by its own
    properties. *)
#[local] Set Warnings "-register-all".
Inductive JsValue :=
| JUndefined
| JNull
| JBool (b : bool)
| JNum (n : Z)
| JStr (s : string)
| JArr (items : list JsValue)
| JObj (fields : list (string * JsValue)).
#[local] Set Warnings "register-all".

Module Api.

(** Truthiness, as [!v] and [v && ...] see it. *)
Definition truthy (v : JsValue) : bool :=
  match v with
  | JUndefined | JNull => false
  | JBool b => b
  | JNum n => negb (n =? 0)%Z
  | JStr s => negb (String.eqb s "")
  | JArr _ | JObj _ => true
  end.

Definition is_string (v : JsValue) : bool :=
  match v with JStr _ => true | _ => false end.

(** [typeof v === 'object'], for a truthy [v]. *)
Definition is_object (v : JsValue) : bool :=
  match v with JArr _ | JObj _ | JNull => true | _ => false end.

Definition isArray (v : JsValue) : bool :=
  match v with JArr _ => true | _ => false end.

Fixpoint lookup_field (k : string) (fields : list (string * JsValue)) : JsValue :=
  match fields with
  | [] => JUndefined
  | (k', v) :: rest => if String.eqb k k' then v else lookup_field k rest
  end.

(** [v.k] for one of the property names read by the code
    ([documentText], [documentStructure], [analysisMode], [userId],
    [fullText], [paragraphs]); only objects have such properties. *)
Definition get (v : JsValue) (k : string) : JsValue :=
  match v with
  | JObj fields => lookup_field k fields
  | _ => JUndefined
  end.

(** [v.length] as a number, for a truthy [v]: the length of a string or of
    an array; an object's own [length] is read when it is a number; every
    other value has none.  The comparisons of the code convert an own
    [length] that is no number before they compare; that conversion is not
    part of this embedding.  So [validateRequest] below is the code on every
    request whose [documentStructure.fullText] is a string, an array, a
    number, a boolean, or an object with a numeric or no [length]; on another
    object it reports no length error where the code may report one, or
    throw when the conversion throws. *)
Definition length_of (v : JsValue) : option Z :=
  match v with
  | JStr s => Some (Js.len s)
  | JArr l => Some (Z.of_nat (length l))
  | JObj fields =>
      match lookup_field "length" fields with
      | JNum n => Some n
      | _ => None
      end
  | _ => None
  end.

(** [x < n] and [x > n] where [x] may be [undefined]: both are false then. *)
Definition lt_num (x : option Z) (n : Z) : bool :=
  match x with Some a => (a <? n)%Z | None => false end.
Definition gt_num (x : option Z) (n : Z) : bool :=
  match x with Some a => (n <? a)%Z | None => false end.

Record Validation := {
  valid : bool;
  errors : list string
}.

(** The checks on the document: at most one message is pushed. *)
Definition document_errors (documentText documentStructure : JsValue)
  : list string :=
  if negb (truthy documentText) && negb (truthy documentStructure) then
    ["Either documentText or documentStructure is required"]
  else if truthy documentText then
    if negb (is_string documentText) then
      ["documentText must be a string"]
    else if lt_num (length_of documentText) 100 then
      ["documentText is too short (minimum 100 characters)"]
    else if gt_num (length_of documentText) 200000 then
      ["documentText is too long (maximum 200,000 characters)"]
    else []
  else if truthy documentStructure then
    if negb (is_object documentStructure) then
      ["documentStructure must be an object"]
    else if negb (truthy (get documentStructure "fullText")) then
      ["documentStructure.fullText is required"]
    else if negb (truthy (get documentStructure "paragraphs"))
            || negb (isArray (get documentStructure "paragraphs")) then
      ["documentStructure.paragraphs must be an array"]
    else if lt_num (length_of (get documentStructure "fullText")) 100 then
      ["documentStructure.fullText is too short (minimum 100 characters)"]
    else if gt_num (length_of (get documentStructure "fullText")) 200000 then
      ["documentStructure.fullText is too long (maximum 200,000 characters)"]
    else []
  else [].

(** [['llm', 'rules', 'hybrid'].includes(analysisMode)]. *)
Definition known_mode (analysisMode : JsValue) : bool :=
  match analysisMode with
  | JStr s => String.eqb s "llm" || String.eqb s "rules" || String.eqb s "hybrid"
  | _ => false
  end.

Definition mode_errors (analysisMode : JsValue) : list string :=
  if truthy analysisMode && negb (known_mode analysisMode) then
    ["analysisMode must be one of: llm, rules, hybrid"]
  else [].

Definition user_errors (userId : JsValue) : list string :=
  if truthy userId
     && (negb (is_string userId) || gt_num (length_of userId) 100) then
    ["userId must be a string with maximum 100 characters"]
  else [].

Definition validateRequest (body : JsValue) : Validation :=
  if negb (truthy body) then
    {| valid := false; errors := ["Request body is required"] |}
  else
    let documentText := get body "documentText" in
    let documentStructure := get body "documentStructure" in
    let analysisMode := get body "analysisMode" in
    let userId := get body "userId" in
    let errors :=
      document_errors documentText documentStructure
      ++ mode_errors analysisMode ++ user_errors userId in
    {| valid := (length errors =? 0)%nat; errors := errors |}.

(** The response of the endpoint: the status sent, and the document handed
    to [llmService.analyzeDocument] when the request got that far. *)
Record Response := {
  status : Z;
  analyzed : option JsValue
}.

(** The status chosen by the [catch] of the endpoint. *)
Definition statusCode (error : JsError) : Z :=
  if decide (code error = Some "RATE_LIMIT_EXCEEDED") then 429%Z
  else if decide (code error = Some "INVALID_API_KEY") then 401%Z
  else if decide (code error = Some "DOCUMENT_TOO_LARGE") then 413%Z
  else 500%Z.

(** [documentText.length] throws a [TypeError] on [undefined] and [null]. *)
Definition has_properties (v : JsValue) : bool :=
  match v with JUndefined | JNull => false | _ => true end.

Definition type_error : JsError :=
  new_Error "Cannot read properties of undefined (reading 'length')".

(** The endpoint, for a service whose [analyzeDocument] either returns a
    result or throws. *)
Definition handler {R : Type} (analyzeDocument : JsValue -> JsError + R)
    (method : string) (body : JsValue) : Response :=
  if String.eqb method "OPTIONS" then {| status := 200; analyzed := None |}
  else if negb (String.eqb method "POST") then {| status := 405; analyzed := None |}
  else if negb (valid (validateRequest body)) then
    {| status := 400; analyzed := None |}
  else
    let documentText := get body "documentText" in
    let documentStructure := get body "documentStructure" in
    let doc :=
      if truthy documentStructure then documentStructure
      else JObj [("fullText", documentText)] in
    match analyzeDocument doc with
    | inl error => {| status := statusCode error; analyzed := Some doc |}
    | inr _ =>
        if has_properties documentText
        then {| status := 200; analyzed := Some doc |}
        else {| status := statusCode type_error; analyzed := Some doc |}
    end.

End Api.

(** ** Admission control ([rateLimit], [cleanupOldEntries]) *)

Module RateLimit.

(** The record kept for a key: the instants of the admitted requests, in the
    order they were pushed, and the reset time. *)
Record Data := {
  requests : list Z;
  resetTime : Z
}.

(** [rateLimitStore]: the process-wide [Map] from keys to records. *)
Abbreviation Store := (gmap string Data).

(** The options of a call, after the defaults are applied. *)
Record Options := {
  windowMs : Z;
  max : Z
}.

(** One call of [rateLimit]: [key] is [keyGenerator(req)], [now] the reading
    of [Date.now()] at its start, and [cleanup] tells whether
    [Math.random() < 0.01] held, with the reading of [Date.now()] inside
    [cleanupOldEntries] when it did. *)
Record Call := {
  key : string;
  now : Z;
  options : Options;
  cleanup : option Z
}.

(** [Infinity] is what [Math.min(...[])] returns. *)
Inductive Num :=
| Fin (n : Z)
| Infinity.

Record Outcome := {
  success : bool;
  limit : Z;
  remaining : Z;
  retryAfter : Num;
  decision_resetTime : Z
}.

(** [requests.filter(time => time > cutoff)]. *)
Definition recent (cutoff : Z) (requests : list Z) : list Z :=
  List.filter (fun time => (cutoff <? time)%Z) requests.

(** What [cleanupOldEntries] does to one entry: its requests are filtered,
    and the entry is deleted when none is left and its reset time is past. *)
Definition cleanup_entry (cutoffTime dateNow : Z) (data : Data) : option Data :=
  let requests' := recent cutoffTime (requests data) in
  if (length requests' =? 0)%nat && (resetTime data <? dateNow)%Z then None
  else Some {| requests := requests'; resetTime := resetTime data |}.

Definition cleanupOldEntries (cutoffTime dateNow : Z) (store : Store) : Store :=
  omap (cleanup_entry cutoffTime dateNow) store.

(** [Math.min(...requests)]. *)
Definition minimum (requests : list Z) : Num :=
  match requests with
  | [] => Infinity
  | t :: rest => Fin (fold_left Z.min rest t)
  end.

(** [Math.ceil(x / 1000)] for an integer [x]. *)
Definition ceil_div_1000 (x : Z) : Z := (- ((- x) / 1000))%Z.

Definition retry_after (oldestRequest : Num) (windowMs now : Z) : Num :=
  match oldestRequest with
  | Fin t => Fin (ceil_div_1000 (t + windowMs - now))
  | Infinity => Infinity
  end.

Definition rateLimit (store : Store) (call : Call) : Outcome * Store :=
  let windowMs := windowMs (options call) in
  let max := max (options call) in
  let windowStart := (now call - windowMs)%Z in
  let store1 :=
    match cleanup call with
    | Some dateNow => cleanupOldEntries windowStart dateNow store
    | None => store
    end in
  let rateLimitData :=
    match store1 !! key call with
    | Some data => data
    | None => {| requests := []; resetTime := (now call + windowMs)%Z |}
    end in
  let kept := recent windowStart (requests rateLimitData) in
  if (max <=? Z.of_nat (length kept))%Z then
    ({| success := false; limit := max; remaining := 0;
        retryAfter := retry_after (minimum kept) windowMs (now call);
        decision_resetTime := resetTime rateLimitData |},
     <[key call := {| requests := kept; resetTime := resetTime rateLimitData |}]> store1)
  else
    let pushed := kept ++ [now call] in
    ({| success := true; limit := max;
        remaining := (max - Z.of_nat (length pushed))%Z;
        retryAfter := Fin 0;
        decision_resetTime := (now call + windowMs)%Z |},
     <[key call := {| requests := pushed; resetTime := (now call + windowMs)%Z |}]> store1).

(** The per-endpoint tiers of [rateLimitAdvanced]. *)
Definition limits (endpoint : string) : Options :=
  if String.eqb endpoint "/api/v1/analyze" then {| windowMs := 15 * 60 * 1000; max := 5 |}
  else if String.eqb endpoint "/api/v1/health" then {| windowMs := 60 * 1000; max := 60 |}
  else {| windowMs := 15 * 60 * 1000; max := 10 |}.

(** [rateLimitAdvanced(req, endpoint)], with the key of [req], the clock and
    the outcome of the cleanup draw given. *)
Definition rateLimitAdvanced (store : Store) (key : string) (endpoint : string)
    (now : Z) (cleanup : option Z) : Outcome * Store :=
  rateLimit store
    {| key := key; now := now; options := limits endpoint; cleanup := cleanup |}.

(** A run of calls from a store: the decisions, in order, and the final
    store. *)
Fixpoint run (store : Store) (calls : list Call) : list Outcome * Store :=
  match calls with
  | [] => ([], store)
  | c :: rest =>
      let '(d, store') := rateLimit store c in
      let '(ds, final) := run store' rest in
      (d :: ds, final)
  end.

End RateLimit.

(** ** Further utilities ([lib/utils.js], [lib/rateLimit.js], [api/health.js])

    The character classes below are those of the code restricted to the code
    units this embedding represents (0 to 255). *)

Module Utils.

(** The variables of [process.env] the code reads; each is a string or
    absent. *)
Record Environment := {
  NODE_ENV : option string;
  FRONTEND_URL : option string;
  VERCEL_URL : option string;
  VALID_API_KEYS : option string;
  ANTHROPIC_API_KEY : option string
}.

(** Truthiness of a variable: present and not empty. *)
Definition set_var (v : option string) : bool :=
  match v with
  | Some (String _ _) => true
  | _ => false
  end.

(** [v || '']. *)
Definition var_or_empty (v : option string) : string :=
  match v with
  | Some s => s
  | None => EmptyString
  end.

(** [process.env.NODE_ENV === 'development']. *)
Definition development (env : Environment) : bool :=
  match NODE_ENV env with
  | Some m => String.eqb m "development"
  | None => false
  end.

(** [s.split(',')]: the segments between the commas; never an empty list. *)
Fixpoint split_commas (s : string) : list string :=
  match s with
  | EmptyString => [EmptyString]
  | String c s' =>
      if Ascii.eqb c ","%char then EmptyString :: split_commas s'
      else
        match split_commas s' with
        | seg :: rest => String c seg :: rest
        | [] => [String c EmptyString]
        end
  end.

(** [isValidApiKey(apiKey)]; [apiKey] is absent when the caller found no key
    in the request. *)
Definition isValidApiKey (env : Environment) (apiKey : option string) : bool :=
  if development env then true
  else
    let validKeys := split_commas (var_or_empty (VALID_API_KEYS env)) in
    match apiKey with
    | Some k => existsb (String.eqb k) validKeys
    | None => false
    end.

(** [ToInt32]: the signed 32-bit integer congruent to [z]. *)
Definition toInt32 (z : Z) : Z := ((z + 2 ^ 31) mod 2 ^ 32 - 2 ^ 31)%Z.

(** [apiKey.charCodeAt(i)]. *)
Definition charCode (c : ascii) : Z := Z.of_N (N_of_ascii c).

(** One turn of the loop: [hash = ((hash << 5) - hash) + char] and then
    [hash = hash & hash]. *)
Definition hash_step (hash : Z) (c : ascii) : Z :=
  toInt32 (toInt32 (hash * 32) - hash + charCode c).

Definition hash_of (apiKey : string) : Z :=
  fold_left hash_step (list_ascii_of_string apiKey) 0%Z.

(** The ids [getUserIdFromApiKey] returns: ['dev_user'], or [`user_${n}`]
    for a number [n]. *)
Inductive UserId :=
| dev_user
| user_ (n : Z).

Definition getUserIdFromApiKey (env : Environment) (apiKey : string) : UserId :=
  if development env then dev_user
  else user_ (Z.abs (hash_of apiKey)).

(** [handleCORS(req, res)]: the headers set on the response, in the order of
    the calls of [res.setHeader]; [origin] is [req.headers.origin]. *)
Definition allowedOrigins (env : Environment) : list string :=
  ["https://localhost:3000"%string; "https://localhost:3001"%string;
   "http://localhost:3000"%string; "http://localhost:3001"%string]
  ++ (if set_var (FRONTEND_URL env)
      then [var_or_empty (FRONTEND_URL env)] else [])
  ++ (if set_var (VERCEL_URL env)
      then [("https://" ++ var_or_empty (VERCEL_URL env))%string] else []).

(** [allowedOrigins.includes(origin)]. *)
Definition origin_allowed (env : Environment) (origin : option string) : bool :=
  match origin with
  | Some o => existsb (String.eqb o) (allowedOrigins env)
  | None => false
  end.

(** [origin || '*']. *)
Definition origin_or_star (origin : option string) : string :=
  match origin with
  | Some (String c o) => String c o
  | _ => "*"%string
  end.

Definition handleCORS (env : Environment) (origin : option string)
  : list (string * string) :=
  (if origin_allowed env origin || development env
   then [("Access-Control-Allow-Origin"%string, origin_or_star origin)]
   else [])
  ++ [("Access-Control-Allow-Methods"%string,
       "GET, POST, PUT, DELETE, OPTIONS"%string);
      ("Access-Control-Allow-Headers"%string,
       "Content-Type, Authorization, X-API-Key, X-User-ID"%string);
      ("Access-Control-Max-Age"%string, "86400"%string)].

(** The class [[\x00-\x08\x0B\x0C\x0E-\x1F\x7F]]. *)
Definition is_control (c : ascii) : bool :=
  let n := N_of_ascii c in
  (n <=? 8)%N || (n =? 11)%N || (n =? 12)%N
  || ((14 <=? n)%N && (n <=? 31)%N) || (n =? 127)%N.

(** The class [\s], which is also what [trim] strips: tab, line feed,
    vertical tab, form feed, carriage return, space and no-break space. *)
Definition is_space (c : ascii) : bool :=
  let n := N_of_ascii c in
  ((9 <=? n)%N && (n <=? 13)%N) || (n =? 32)%N || (n =? 160)%N.

(** [.replace(/[\x00-\x08\x0B\x0C\x0E-\x1F\x7F]/g, '')]. *)
Fixpoint remove_controls (s : string) : string :=
  match s with
  | EmptyString => EmptyString
  | String c s' =>
      if is_control c then remove_controls s' else String c (remove_controls s')
  end.

(** [.replace(/\s+/g, ' ')]; [in_run] tells that the character before was
    part of the run being replaced. *)
Fixpoint collapse_spaces (in_run : bool) (s : string) : string :=
  match s with
  | EmptyString => EmptyString
  | String c s' =>
      if is_space c then
        if in_run then collapse_spaces true s'
        else String " "%char (collapse_spaces true s')
      else String c (collapse_spaces false s')
  end.

Fixpoint trim_start (s : string) : string :=
  match s with
  | EmptyString => EmptyString
  | String c s' => if is_space c then trim_start s' else s
  end.

Fixpoint trim_end (s : string) : string :=
  match s with
  | EmptyString => EmptyString
  | String c s' =>
      match trim_end s' with
      | EmptyString => if is_space c then EmptyString else String c EmptyString
      | t => String c t
      end
  end.

(** [s.trim()]. *)
Definition trim (s : string) : string := trim_end (trim_start s).

Definition sanitizeInput (text : JsValue) : string :=
  match text with
  | JStr s => trim (collapse_spaces false (remove_controls s))
  | _ => EmptyString
  end.

(** [validateEnvironment()]: the names of the required variables that are
    missing; the function throws when there is one and returns [true]
    otherwise. *)
Definition requiredVars : list string := ["ANTHROPIC_API_KEY"%string].

Definition lookup_var (env : Environment) (name : string) : option string :=
  if String.eqb name "ANTHROPIC_API_KEY" then ANTHROPIC_API_KEY env
  else if String.eqb name "NODE_ENV" then NODE_ENV env
  else if String.eqb name "FRONTEND_URL" then FRONTEND_URL env
  else if String.eqb name "VERCEL_URL" then VERCEL_URL env
  else if String.eqb name "VALID_API_KEYS" then VALID_API_KEYS env
  else None.

(** [missing.join(', ')]. *)
Fixpoint join_names (names : list string) : string :=
  match names with
  | [] => EmptyString
  | [n] => n
  | n :: rest => (n ++ ", " ++ join_names rest)%string
  end.

Definition validateEnvironment (env : Environment) : JsError + bool :=
  let missing :=
    List.filter (fun varName => negb (set_var (lookup_var env varName)))
                requiredVars in
  if (0 <? length missing)%nat then
    inl (new_Error ("Missing required environment variables: "
                    ++ join_names missing))
  else inr true.

(** The response of the health endpoint: its status, the [status] and
    [error] fields of its body and the entry [services.anthropic]. *)
Record Health := {
  health_status : Z;
  health_state : option string;
  health_error : option string;
  health_anthropic : option string
}.

Definition anthropic_service (env : Environment) : string :=
  if set_var (ANTHROPIC_API_KEY env) then "configured"%string
  else "missing"%string.

(** The handler of [api/health.js]. *)
Definition health (env : Environment) (method : string) : Health :=
  if String.eqb method "OPTIONS" then
    {| health_status := 200; health_state := None; health_error := None;
       health_anthropic := None |}
  else
    match validateEnvironment env with
    | inr _ =>
        {| health_status := 200; health_state := Some "healthy"%string;
           health_error := None;
           health_anthropic := Some (anthropic_service env) |}
    | inl error =>
        {| health_status := 503; health_state := Some "unhealthy"%string;
           health_error := Some (message error);
           health_anthropic := Some (anthropic_service env) |}
    end.

End Utils.

(** ** Keys of the rate limiter ([getClientIP], [rateLimitByUser],
    [rateLimitByApiKey]) *)

Module Keys.

(** What [getClientIP] reads of a request. *)
Record Req := {
  x_forwarded_for : option string;
  x_real_ip : option string;
  connection_remoteAddress : option string;
  socket_remoteAddress : option string
}.

(** [a || b] on optional strings: [a] when it is present and not empty. *)
Definition or_else (a : option string) (b : string) : string :=
  match a with
  | Some (String c s) => String c s
  | _ => b
  end.

(** [req.headers['x-forwarded-for']?.split(',')[0]?.trim()]. *)
Definition first_forwarded (req : Req) : option string :=
  match x_forwarded_for req with
  | Some h => Some (Utils.trim (hd EmptyString (Utils.split_commas h)))
  | None => None
  end.

(** [getClientIP(req)] of [lib/rateLimit.js]. *)
Definition getClientIP (req : Req) : string :=
  or_else (first_forwarded req)
    (or_else (x_real_ip req)
       (or_else (connection_remoteAddress req)
          (or_else (socket_remoteAddress req) "unknown"%string))).

(** [getClientIP(req)] of [lib/utils.js], which takes the header whole. *)
Definition getClientIP_utils (req : Req) : string :=
  or_else (x_forwarded_for req)
    (or_else (x_real_ip req)
       (or_else (connection_remoteAddress req)
          (or_else (socket_remoteAddress req) "unknown"%string))).

(** The options a caller passes; what is absent takes its default. *)
Record GivenOptions := {
  given_windowMs : option Z;
  given_max : option Z
}.

Definition with_defaults (o : GivenOptions) : RateLimit.Options :=
  {| RateLimit.windowMs :=
       match given_windowMs o with
       | Some w => w
       | None => (15 * 60 * 1000)%Z
       end;
     RateLimit.max :=
       match given_max o with
       | Some m => m
       | None => 10%Z
       end |}.

(** [rateLimit(req, options)] with the default key generator. *)
Definition rateLimitByIP (store : gmap string RateLimit.Data) (req : Req)
    (o : GivenOptions) (now : Z) (cleanup : option Z)
  : RateLimit.Outcome * gmap string RateLimit.Data :=
  RateLimit.rateLimit store
    {| RateLimit.key := getClientIP req; RateLimit.now := now;
       RateLimit.options := with_defaults o; RateLimit.cleanup := cleanup |}.

(** [rateLimitByUser(req, userId, options)]. *)
Definition rateLimitByUser (store : gmap string RateLimit.Data)
    (userId : string) (o : GivenOptions) (now : Z) (cleanup : option Z)
  : RateLimit.Outcome * gmap string RateLimit.Data :=
  RateLimit.rateLimit store
    {| RateLimit.key := ("user:" ++ userId)%string; RateLimit.now := now;
       RateLimit.options := with_defaults o; RateLimit.cleanup := cleanup |}.

(** [rateLimitByApiKey(req, apiKey, options)]. *)
Definition rateLimitByApiKey (store : gmap string RateLimit.Data)
    (apiKey : string) (o : GivenOptions) (now : Z) (cleanup : option Z)
  : RateLimit.Outcome * gmap string RateLimit.Data :=
  RateLimit.rateLimit store
    {| RateLimit.key := ("api:" ++ apiKey)%string; RateLimit.now := now;
       RateLimit.options := with_defaults o; RateLimit.cleanup := cleanup |}.

End Keys.

(** ** The reply as the code has it: dynamic values

    [JSON.parse] returns a value of any shape, and the code reads it without
    checking its shape first.  This part embeds the values themselves and
    the operations of the language the code applies to them, with the
    conversions and the [TypeError]s of those operations; the two modules
    after it embed [validateAndProcessResults] and [analyzeDocument] on such
    values.  The typed records of [V1] and [V2] above are the same functions
    read on replies of the documented response format. *)

Module Dyn.

(** A JavaScript number: a finite number by its exact value, an infinity
    ([JSON.parse] returns one for a literal such as [1e999]), or [NaN]. *)
Inductive Num :=
| Fin (q : Q)
| PosInf
| NegInf
| NaN.

(** A value.  An object is given by its own properties, in their order;
    every object of a parsed reply has [Object.prototype] as its prototype
    and no property that is a function. *)
#[local] Set Warnings "-register-all".
Inductive Value :=
| VUndefined
| VNull
| VBool (b : bool)
| VNum (n : Num)
| VStr (s : string)
| VArr (items : list Value)
| VObj (fields : list (string * Value)).
#[local] Set Warnings "register-all".

Definition of_Z (z : Z) : Value := VNum (Fin (inject_Z z)).

(** How the evaluation of a piece of code ends: with a value, with a thrown
    error, or not at all. *)
Inductive Completion (X : Type) :=
| Normal (x : X)
| Thrown (e : JsError)
| Unending.
Arguments Normal {X} x.
Arguments Thrown {X} e.
Arguments Unending {X}.

Definition and_then {X Y} (m : Completion X) (k : X -> Completion Y)
  : Completion Y :=
  match m with
  | Normal x => k x
  | Thrown e => Thrown e
  | Unending => Unending
  end.

Declare Scope dyn_scope.
Delimit Scope dyn_scope with dyn.
Notation "x <- m ;; k" := (and_then m (fun x => k))
  (at level 100, m at next level, right associativity) : dyn_scope.
Notation "m ;;; k" := (and_then m (fun _ => k))
  (at level 100, right associativity) : dyn_scope.

(** The operations that throw a [TypeError], with the values involved. *)
Inductive Fault :=
| NoProperties (base key : Value)
    (* a property of [undefined] or [null] is read or stored *)
| NoNewProperty (base : Value) (key : string)
    (* a property is stored in a primitive value (strict mode) *)
| NotIterable (v : Value)
| NoPrimitiveValue (v : Value)
    (* an object has no callable [toString] or [valueOf] that works *)
| NotAFunction (base : Value) (key : string).

(** What is left to the JavaScript engine: the text of the message of a
    [TypeError], the conversion of a string to a number and the conversion
    of a number to a string. *)
Record Engine := {
  describe : Fault -> string;
  StringToNumber : string -> Num;
  NumberToString : Num -> string
}.

(** A [TypeError] has a message and neither [type] nor [code]. *)
Definition TypeError (engine : Engine) (f : Fault) : JsError :=
  new_Error (describe engine f).

(** *** Properties *)

Fixpoint field (k : string) (fields : list (string * Value)) : Value :=
  match fields with
  | [] => VUndefined
  | (k', v) :: rest => if String.eqb k k' then v else field k rest
  end.

Definition has_own (k : string) (fields : list (string * Value)) : bool :=
  existsb (fun kv => String.eqb k (fst kv)) fields.

(** A property that exists keeps its place; a new one comes last. *)
Fixpoint store_field (k : string) (x : Value) (fields : list (string * Value))
  : list (string * Value) :=
  match fields with
  | [] => [(k, x)]
  | (k', v) :: rest =>
      if String.eqb k k' then (k, x) :: rest
      else (k', v) :: store_field k x rest
  end.

(** [v.k], for the names the code reads from the values of a reply
    ([summary], [issues], [length], [location], [startIndex], [endIndex],
    [exactText], [paragraphIndex], [searchableText], [id], [autoFixable],
    [severity], [charAt]): none of them is inherited by an object or an
    array, a string and an array have a [length], and reading a property of
    [undefined] or [null] throws. *)
Definition get (engine : Engine) (v : Value) (k : string) : Completion Value :=
  match v with
  | VUndefined | VNull => Thrown (TypeError engine (NoProperties v (VStr k)))
  | VStr s => Normal (if String.eqb k "length" then of_Z (Js.len s) else VUndefined)
  | VArr items =>
      Normal (if String.eqb k "length" then of_Z (Z.of_nat (length items))
              else VUndefined)
  | VObj fields => Normal (field k fields)
  | VBool _ | VNum _ => Normal VUndefined
  end.

(** [v.a.b...]: the properties are read from left to right. *)
Fixpoint read (engine : Engine) (v : Value) (path : list string)
  : Completion Value :=
  match path with
  | [] => Normal v
  | k :: path' => and_then (get engine v k) (fun w => read engine w path')
  end.

(** [v.k = x] in strict mode, with the value [v] has afterwards.  An array
    takes the property as an object does, but this embedding keeps no named
    property of an array: the code stores properties only in values on which
    it has read a property that no array has. *)
Definition assign (engine : Engine) (v : Value) (k : string) (x : Value)
  : Completion Value :=
  match v with
  | VObj fields => Normal (VObj (store_field k x fields))
  | VArr items => Normal (VArr items)
  | VUndefined | VNull => Thrown (TypeError engine (NoProperties v (VStr k)))
  | VBool _ | VNum _ | VStr _ => Thrown (TypeError engine (NoNewProperty v k))
  end.

(** [v.k = x] where the value [v] has afterwards is not needed. *)
Definition writable (engine : Engine) (v : Value) (k : string)
  : Completion unit :=
  match v with
  | VObj _ | VArr _ => Normal tt
  | VUndefined | VNull => Thrown (TypeError engine (NoProperties v (VStr k)))
  | VBool _ | VNum _ | VStr _ => Thrown (TypeError engine (NoNewProperty v k))
  end.

(** [v === s] for a string [s]. *)
Definition same_string (s : string) (v : Value) : bool :=
  match v with
  | VStr t => String.eqb s t
  | _ => false
  end.

(** *** Conversions *)

Definition is_zero (n : Num) : bool :=
  match n with
  | Fin q => Qeq_bool q 0
  | _ => false
  end.

(** Truthiness, as [!v] and [v || w] see it. *)
Definition truthy (v : Value) : bool :=
  match v with
  | VUndefined | VNull => false
  | VBool b => b
  | VNum NaN => false
  | VNum n => negb (is_zero n)
  | VStr s => negb (String.eqb s "")
  | VArr _ | VObj _ => true
  end.

(** [ToString(v)].  An object of a reply is converted by
    [Object.prototype.toString] unless it has a property [toString] of its
    own, which is no function: then the conversion throws.  An array is
    converted by [join], which converts its elements and writes nothing for
    [undefined] and [null]. *)
Fixpoint to_text (engine : Engine) (v : Value) : Completion string :=
  match v with
  | VUndefined => Normal "undefined"%string
  | VNull => Normal "null"%string
  | VBool true => Normal "true"%string
  | VBool false => Normal "false"%string
  | VNum n => Normal (NumberToString engine n)
  | VStr s => Normal s
  | VObj fields =>
      if has_own "toString" fields
      then Thrown (TypeError engine (NoPrimitiveValue v))
      else Normal "[object Object]"%string
  | VArr items =>
      (fix join (l : list Value) : Completion string :=
         match l with
         | [] => Normal EmptyString
         | e :: rest =>
             and_then
               match e with
               | VUndefined | VNull => Normal EmptyString
               | _ => to_text engine e
               end
               (fun t =>
                  match rest with
                  | [] => Normal t
                  | _ :: _ =>
                      and_then (join rest)
                        (fun r => Normal (t ++ String ","%char r)%string)
                  end)
         end) items
  end.

(** [ToPrimitive(v)]: with either hint, an object or an array of a reply
    becomes the string [ToString] gives, or the conversion throws. *)
Definition to_primitive (engine : Engine) (v : Value) : Completion Value :=
  match v with
  | VArr _ | VObj _ => and_then (to_text engine v) (fun s => Normal (VStr s))
  | _ => Normal v
  end.

(** [ToNumber(p)] for a primitive [p]. *)
Definition to_number (engine : Engine) (p : Value) : Num :=
  match p with
  | VUndefined => NaN
  | VNull => Fin 0
  | VBool true => Fin 1
  | VBool false => Fin 0
  | VNum n => n
  | VStr s => StringToNumber engine s
  | VArr _ | VObj _ => NaN
  end.

(** [a < b] on numbers; [None] when an operand is [NaN]. *)
Definition num_lt (a b : Num) : option bool :=
  match a, b with
  | NaN, _ => None
  | _, NaN => None
  | Fin p, Fin q => Some (negb (Qle_bool q p))
  | Fin _, PosInf => Some true
  | Fin _, NegInf => Some false
  | PosInf, _ => Some false
  | NegInf, NegInf => Some false
  | NegInf, _ => Some true
  end.

(** The comparison of two primitives: two strings are compared by their
    code units, any other pair as numbers. *)
Definition less (engine : Engine) (pa pb : Value) : option bool :=
  match pa, pb with
  | VStr s, VStr t => Some (String.ltb s t)
  | _, _ => num_lt (to_number engine pa) (to_number engine pb)
  end.

(** [a < b], [a > b] and [a >= b]: the operands are converted from left to
    right; a comparison with [NaN] is false. *)
Definition less_than (engine : Engine) (a b : Value) : Completion bool :=
  (pa <- to_primitive engine a ;;
   pb <- to_primitive engine b ;;
   Normal match less engine pa pb with Some true => true | _ => false end)%dyn.

Definition greater_than (engine : Engine) (a b : Value) : Completion bool :=
  (pa <- to_primitive engine a ;;
   pb <- to_primitive engine b ;;
   Normal match less engine pb pa with Some true => true | _ => false end)%dyn.

Definition not_less_than (engine : Engine) (a b : Value) : Completion bool :=
  (pa <- to_primitive engine a ;;
   pb <- to_primitive engine b ;;
   Normal match less engine pa pb with Some false => true | _ => false end)%dyn.

(** [ToIntegerOrInfinity(n)], an infinity already clamped as [substring]
    clamps it on a string of length [len]. *)
Definition to_integer (n : Num) (len : Z) : Z :=
  match n with
  | Fin q => Z.quot (Qnum q) (Zpos (Qden q))
  | PosInf => len
  | NegInf => 0%Z
  | NaN => 0%Z
  end.

(** [s.substring(a, b)]: an end that is [undefined] is the length. *)
Definition substring (engine : Engine) (s : string) (a b : Value)
  : Completion string :=
  (pa <- to_primitive engine a ;;
   pb <- to_primitive engine b ;;
   Normal (Js.substring s
             (to_integer (to_number engine pa) (Js.len s))
             match b with
             | VUndefined => Js.len s
             | _ => to_integer (to_number engine pb) (Js.len s)
             end))%dyn.

(** The values [for (const x of v)] goes through: the elements of an array,
    the characters of a string; any other value of a reply is not
    iterable. *)
Definition iterate (engine : Engine) (v : Value) : Completion (list Value) :=
  match v with
  | VArr items => Normal items
  | VStr s =>
      Normal (map (fun c => VStr (String c EmptyString)) (list_ascii_of_string s))
  | _ => Thrown (TypeError engine (NotIterable v))
  end.

(** [console.warn(`... ${v1} ... ${v2}`)]: the values of a template literal
    are converted to strings from left to right. *)
Fixpoint print (engine : Engine) (vs : list Value) : Completion unit :=
  match vs with
  | [] => Normal tt
  | v :: vs' => and_then (to_text engine v) (fun _ => print engine vs')
  end.

(** *** Code that updates a state *)

Section Stateful.

Context {State : Type}.

(** A piece of code that reads and updates local variables of type [State];
    what it has stored stays stored when it throws. *)
Definition Step (X : Type) : Type := State -> Completion X * State.

Definition unit_step {X} (x : X) : Step X := fun st => (Normal x, st).

Definition bind_step {X Y} (m : Step X) (k : X -> Step Y) : Step Y :=
  fun st =>
    match m st with
    | (Normal x, st') => k x st'
    | (Thrown e, st') => (Thrown e, st')
    | (Unending, st') => (Unending, st')
    end.

Definition lift {X} (m : Completion X) : Step X := fun st => (m, st).

Definition update (f : State -> State) : Step unit :=
  fun st => (Normal tt, f st).

(** [try { m } catch (error) { h error }]. *)
Definition try_step {X} (m : Step X) (h : JsError -> Step X) : Step X :=
  fun st =>
    match m st with
    | (Thrown e, st') => h e st'
    | r => r
    end.

End Stateful.

Declare Scope step_scope.
Delimit Scope step_scope with step.
Notation "x <- m ;; k" := (bind_step m (fun x => k))
  (at level 100, m at next level, right associativity) : step_scope.
Notation "m ;;; k" := (bind_step m (fun _ => k))
  (at level 100, right associativity) : step_scope.

(** *** The engine with its log of model calls *)

Definition Run (X : Type) : Type := Completion X * list Request.

Definition of_eff {X} (m : Eff X) : Run X :=
  match m with
  | (inl e, log) => (Thrown e, log)
  | (inr x, log) => (Normal x, log)
  end.

Definition of_completion {X} (m : Completion X) : Run X := (m, []).

Definition bind_run {X Y} (m : Run X) (k : X -> Run Y) : Run Y :=
  match m with
  | (Normal x, log) => let '(r, log') := k x in (r, log ++ log')
  | (Thrown e, log) => (Thrown e, log)
  | (Unending, log) => (Unending, log)
  end.

Definition try_run {X} (m : Run X) (h : JsError -> Run X) : Run X :=
  match m with
  | (Thrown e, log) => let '(r, log') := h e in (r, log ++ log')
  | r => r
  end.

Declare Scope run_scope.
Delimit Scope run_scope with run.
Notation "x <- m ;; k" := (bind_run m (fun x => k))
  (at level 100, m at next level, right associativity) : run_scope.
Notation "m ;;; k" := (bind_run m (fun _ => k))
  (at level 100, right associativity) : run_scope.

End Dyn.

(** *** Processing version 1.0 on dynamic values *)

Module V1_dynamic.

Import Dyn.

Record Result := {
  summary : Summary;
  issues : list Value;
  validationStats : V1.Stats;
  meta : Meta
}.

(** [fuzzyMatch(str1, str2)] at the default threshold, where [str1] is a
    string and [str2] any value; [levenshteinDistance] included.

    - An empty [str1] gives [false] before [str2] is looked at.
    - [undefined] and [null] have no [length]: reading it throws.
    - On two strings this is [fuzzyMatch] above.
    - A number or a boolean has a [length] that is [undefined]: every
      comparison with it is false, no loop of [levenshteinDistance] runs,
      the distance and the similarity are [undefined] and [NaN].
    - An array is empty ([length === 0]), or the first iteration of the
      inner loop calls its [charAt], which is no function.
    - An object has the [length] its property of that name holds, say [L].
      [L === 0] gives [false].  Otherwise [L] is converted to a number.
      When that is below the length of [str1], the object is the [shorter]
      and [str2] of [levenshteinDistance]: below 0 there is no row 0 to
      store in; from 1 on, the inner loop calls [charAt] of the object;
      between them no inner iteration runs and [matrix[L]] is read, which is
      row 0 only for the key ["0"], with distance [str1.length] and
      similarity 0.  When it is not below, the object is the [longer] and
      [str1] of [levenshteinDistance]: a [NaN] runs no loop and gives a
      similarity [NaN]; an infinity never leaves the loop that fills row 0;
      any other number reaches the call of [charAt]. *)
Definition fuzzyMatch (engine : Engine) (str1 : string) (str2 : Value)
  : Completion bool :=
  if (String.length str1 =? 0)%nat then Normal false
  else
    match str2 with
    | VUndefined | VNull =>
        Thrown (TypeError engine (NoProperties str2 (VStr "length")))
    | VStr t => Normal (fuzzyMatch str1 t default_threshold)
    | VBool _ | VNum _ => Normal false
    | VArr [] => Normal false
    | VArr (_ :: _) => Thrown (TypeError engine (NotAFunction str2 "charAt"))
    | VObj fields =>
        let L := field "length" fields in
        if match L with VNum n => is_zero n | _ => false end then Normal false
        else
          (pL <- to_primitive engine L ;;
           let nL := to_number engine pL in
           match num_lt nL (Fin (inject_Z (Js.len str1))) with
           | Some true =>
               match num_lt nL (Fin 0), num_lt nL (Fin 1) with
               | Some true, _ =>
                   Thrown (TypeError engine (NoProperties VUndefined (of_Z 0)))
               | _, Some true =>
                   if same_string "0" pL then Normal false
                   else Thrown (TypeError engine
                                  (NoProperties VUndefined (of_Z (Js.len str1))))
               | _, _ => Thrown (TypeError engine (NotAFunction str2 "charAt"))
               end
           | _ =>
               match nL with
               | NaN => Normal false
               | PosInf => Unending
               | _ => Thrown (TypeError engine (NotAFunction str2 "charAt"))
               end
           end)%dyn
    end.

(** The local variables of the loop. *)
Record Loop := {
  validatedIssues : list Value;
  stats : V1.Stats
}.

(** [validationStats.indexErrors++]. *)
Definition counted_indexError (st : Loop) : Loop :=
  {| validatedIssues := validatedIssues st;
     stats := V1.count (stats st) V1.IndexError |}.

(** [validationStats.textMismatches++]. *)
Definition counted_textMismatch (st : Loop) : Loop :=
  {| validatedIssues := validatedIssues st;
     stats := V1.count (stats st) V1.TextMismatch |}.

(** [validatedIssues.push(issue); validationStats.validated++]. *)
Definition pushed (issue : Value) (st : Loop) : Loop :=
  {| validatedIssues := validatedIssues st ++ [issue];
     stats :=
       {| V1.original := V1.original (stats st);
          V1.validated := S (V1.validated (stats st));
          V1.indexErrors := V1.indexErrors (stats st);
          V1.textMismatches := V1.textMismatches (stats st) |} |}.

(** What the [try] block of the loop finds for one element of
    [analysisResult.issues], when it does not throw: the issue to push, with
    the updates made to it, or one of the two [continue] statements, with
    the values its [console.warn] prints. *)
Inductive Verdict :=
| Accepted (issue : Value)
| IndexError (startIndex endIndex : Value)
| TextMismatch (exactText : Value).

(** "Ensure required fields exist". *)
Definition ensure_fields (engine : Engine) (fresh : string) (issue : Value)
  : Completion Verdict :=
  (id <- get engine issue "id" ;;
   issue2 <- assign engine issue "id" (if truthy id then id else VStr fresh) ;;
   autoFixable <- get engine issue2 "autoFixable" ;;
   issue3 <- assign engine issue2 "autoFixable"
               match autoFixable with
               | VUndefined => VBool false
               | _ => autoFixable
               end ;;
   Normal (Accepted issue3))%dyn.

(** The checks of the [try] block, in the order of the code.  The
    assignment to [issue.location.exactText] updates the location the issue
    holds. *)
Definition examine (engine : Engine) (originalText fresh : string)
    (issue : Value) : Completion Verdict :=
  (startIndex <- read engine issue ["location"; "startIndex"] ;;
   below <- less_than engine startIndex (of_Z 0) ;;
   out <- (if below : bool then Normal true
           else
             (endIndex <- read engine issue ["location"; "endIndex"] ;;
              beyond <- greater_than engine endIndex (of_Z (Js.len originalText)) ;;
              if beyond : bool then Normal true
              else not_less_than engine startIndex endIndex)) ;;
   endIndex <- read engine issue ["location"; "endIndex"] ;;
   if out : bool then Normal (IndexError startIndex endIndex)
   else
     (actualText <- substring engine originalText startIndex endIndex ;;
      exactText <- read engine issue ["location"; "exactText"] ;;
      if same_string actualText exactText then ensure_fields engine fresh issue
      else
        (close <- fuzzyMatch engine actualText exactText ;;
         if close : bool then
           (location <- get engine issue "location" ;;
            location' <- assign engine location "exactText" (VStr actualText) ;;
            issue' <- assign engine issue "location" location' ;;
            ensure_fields engine fresh issue')
         else Normal (TextMismatch exactText))))%dyn.

(** The body of the loop: the [try] block, which counts and logs what it
    found or pushes the issue, and the [catch], which logs.  The calls of
    [console.warn] and [console.error] are kept for the conversions to
    strings their template literals make. *)
Definition validateIssue (engine : Engine) (originalText fresh : string)
    (issue : Value) : Step (State := Loop) unit :=
  (try_step
     (verdict <- lift (examine engine originalText fresh issue) ;;
      match verdict with
      | IndexError startIndex endIndex =>
          (update counted_indexError ;;;
           id <- lift (get engine issue "id") ;;
           lift (print engine [id; startIndex; endIndex]))
      | TextMismatch exactText =>
          (update counted_textMismatch ;;;
           id <- lift (get engine issue "id") ;;
           lift (print engine [id]) ;;;
           lift (print engine [exactText]))
      | Accepted issue' => update (pushed issue')
      end)
     (fun validationError =>
        id <- lift (get engine issue "id") ;;
        lift (print engine [id])))%step.

(** [for (const issue of analysisResult.issues)]; [k] counts the elements
    gone through.  An error the [catch] of an iteration throws ends the
    loop. *)
Fixpoint loop (engine : Engine) (env : Env) (originalText : string)
    (k : nat) (todo : list Value) : Step (State := Loop) unit :=
  match todo with
  | [] => unit_step tt
  | issue :: todo' =>
      (validateIssue engine originalText (genId env k) issue ;;;
       loop engine env originalText (S k) todo')%step
  end.

(** [i.severity === s] for a pushed issue [i], which is an object. *)
Definition severity_is (s : string) (i : Value) : bool :=
  match i with
  | VObj fields => same_string s (field "severity" fields)
  | _ => false
  end.

Definition count_severity (s : string) (l : list Value) : nat :=
  length (List.filter (severity_is s) l).

(** [validateAndProcessResults(analysisResult, originalText)].  After the
    two [if] statements [analysisResult.issues] is the truthy value it was,
    or the empty array just stored; for an array or a string, the values the
    loop can go through, [issues.length] is the number of elements. *)
Definition validateAndProcessResults (engine : Engine) (env : Env)
    (analysisResult : Value) (originalText : string) : Completion Result :=
  (summary0 <- get engine analysisResult "summary" ;;
   (if truthy summary0 then Normal tt
    else writable engine analysisResult "summary") ;;;
   issues0 <- get engine analysisResult "issues" ;;
   issues1 <- (if truthy issues0 then Normal issues0
               else (writable engine analysisResult "issues" ;;;
                     Normal (VArr []))) ;;
   todo <- iterate engine issues1 ;;
   let start :=
     {| validatedIssues := [];
        stats := {| V1.original := length todo; V1.validated := 0;
                    V1.indexErrors := 0; V1.textMismatches := 0 |} |} in
   match loop engine env originalText 0 todo start with
   | (Normal _, final) =>
       Normal
         {| summary :=
              {| totalIssues := length (validatedIssues final);
                 critical := count_severity "Critical" (validatedIssues final);
                 warnings := count_severity "Warning" (validatedIssues final);
                 suggestions := count_severity "Suggestion" (validatedIssues final);
                 documentLength := Js.len originalText |};
            issues := validatedIssues final;
            validationStats := stats final;
            meta := {| meta_model := model env; meta_timestamp := timestamp env;
                       processingVersion := "1.0" |} |}
   | (Thrown e, _) => Thrown e
   | (Unending, _) => Unending
   end)%dyn.

Definition request (svc : Service Value) (documentText : string) : Request :=
  {| system := buildValidationPrompt svc;
     content :=
       "Analyze this audit report for compliance violations and return valid JSON only:"
       ++ String "010" (String "010" documentText) |}.

(** [analyzeDocument(documentText)]: [JSON_parse svc] is the built-in
    [JSON.parse], and what it returns goes to [validateAndProcessResults] as
    it is. *)
Definition analyzeDocument (engine : Engine) (env : Env) (svc : Service Value)
    (documentText : string) : Run Result :=
  (try_run
     (of_eff (if (200000 <? Js.len documentText)%Z
              then throw (new_Error too_large_message) else ret tt) ;;;
      content <- of_eff (invoke svc (request svc documentText)) ;;
      analysisResult <- of_eff (parseReply svc content) ;;
      of_completion
        (validateAndProcessResults engine env analysisResult documentText))
     (fun error => of_eff (on_failure error)))%run.

End V1_dynamic.

(** *** Processing version 2.0 on dynamic values *)

Module V2_dynamic.

Import Dyn.

Record Result := {
  summary : Summary;
  issues : list Value;
  validationStats : V2.Stats;
  meta : Meta
}.

Record Loop := {
  validatedIssues : list Value;
  stats : V2.Stats
}.

(** [validationStats.invalidParagraphIndex++]. *)
Definition counted_invalidParagraphIndex (st : Loop) : Loop :=
  {| validatedIssues := validatedIssues st;
     stats := V2.count (stats st) V2.InvalidParagraphIndex |}.

(** [validationStats.missingSearchableText++]. *)
Definition counted_missingSearchableText (st : Loop) : Loop :=
  {| validatedIssues := validatedIssues st;
     stats := V2.count (stats st) V2.MissingSearchableText |}.

(** [validatedIssues.push(issue); validationStats.validated++]. *)
Definition pushed (issue : Value) (st : Loop) : Loop :=
  {| validatedIssues := validatedIssues st ++ [issue];
     stats :=
       {| V2.original := V2.original (stats st);
          V2.validated := S (V2.validated (stats st));
          V2.invalidParagraphIndex := V2.invalidParagraphIndex (stats st);
          V2.missingSearchableText := V2.missingSearchableText (stats st) |} |}.

(** [v?.k]. *)
Definition optional (engine : Engine) (v : Value) (k : string)
  : Completion Value :=
  match v with
  | VUndefined | VNull => Normal VUndefined
  | _ => get engine v k
  end.

(** [documentStructure.paragraphs.length]. *)
Definition paragraphs_length (engine : Engine)
    (documentStructure : V2.DocumentStructure) : Completion Value :=
  match V2.paragraphs documentStructure with
  | Some ps => Normal (of_Z (Z.of_nat (length ps)))
  | None => Thrown (TypeError engine (NoProperties VUndefined (VStr "length")))
  end.

(** [v === undefined]. *)
Definition is_undefined (v : Value) : bool :=
  match v with
  | VUndefined => true
  | _ => false
  end.

(** What the [try] block finds for one element of [analysisResult.issues],
    when it does not throw. *)
Inductive Verdict :=
| Accepted (issue : Value)
| InvalidParagraphIndex (paragraphIndex : Value)
| MissingSearchableText.

(** "Ensure required fields exist". *)
Definition ensure_fields (engine : Engine) (fresh : string) (issue : Value)
  : Completion Verdict :=
  (id <- get engine issue "id" ;;
   issue2 <- assign engine issue "id" (if truthy id then id else VStr fresh) ;;
   autoFixable <- get engine issue2 "autoFixable" ;;
   issue3 <- assign engine issue2 "autoFixable"
               match autoFixable with
               | VUndefined => VBool false
               | _ => autoFixable
               end ;;
   Normal (Accepted issue3))%dyn.

(** The checks of the [try] block, in the order of the code. *)
Definition examine (engine : Engine)
    (documentStructure : V2.DocumentStructure) (fresh : string)
    (issue : Value) : Completion Verdict :=
  (location <- get engine issue "location" ;;
   paragraphIndex <- optional engine location "paragraphIndex" ;;
   invalid <- (if is_undefined paragraphIndex then Normal true
               else
                 (negative <- less_than engine paragraphIndex (of_Z 0) ;;
                  if negative : bool then Normal true
                  else
                    (count <- paragraphs_length engine documentStructure ;;
                     not_less_than engine paragraphIndex count))) ;;
   if invalid : bool then Normal (InvalidParagraphIndex paragraphIndex)
   else
     (searchableText <- optional engine location "searchableText" ;;
      if negb (truthy searchableText) then Normal MissingSearchableText
      else ensure_fields engine fresh issue))%dyn.

(** The body of the loop: the [try] block, which counts and logs what it
    found or pushes the issue, and the [catch], which logs. *)
Definition validateIssue (engine : Engine)
    (documentStructure : V2.DocumentStructure) (fresh : string)
    (issue : Value) : Step (State := Loop) unit :=
  (try_step
     (verdict <- lift (examine engine documentStructure fresh issue) ;;
      match verdict with
      | InvalidParagraphIndex paragraphIndex =>
          (update counted_invalidParagraphIndex ;;;
           id <- lift (get engine issue "id") ;;
           lift (print engine [id; paragraphIndex]))
      | MissingSearchableText =>
          (update counted_missingSearchableText ;;;
           id <- lift (get engine issue "id") ;;
           lift (print engine [id]))
      | Accepted issue' => update (pushed issue')
      end)
     (fun validationError =>
        id <- lift (get engine issue "id") ;;
        lift (print engine [id])))%step.

Fixpoint loop (engine : Engine) (env : Env)
    (documentStructure : V2.DocumentStructure)
    (k : nat) (todo : list Value) : Step (State := Loop) unit :=
  match todo with
  | [] => unit_step tt
  | issue :: todo' =>
      (validateIssue engine documentStructure (genId env k) issue ;;;
       loop engine env documentStructure (S k) todo')%step
  end.

Definition severity_is (s : string) (i : Value) : bool :=
  match i with
  | VObj fields => same_string s (field "severity" fields)
  | _ => false
  end.

Definition count_severity (s : string) (l : list Value) : nat :=
  length (List.filter (severity_is s) l).

Definition validateAndProcessResults (engine : Engine) (env : Env)
    (analysisResult : Value) (documentStructure : V2.DocumentStructure)
  : Completion Result :=
  (summary0 <- get engine analysisResult "summary" ;;
   (if truthy summary0 then Normal tt
    else writable engine analysisResult "summary") ;;;
   issues0 <- get engine analysisResult "issues" ;;
   issues1 <- (if truthy issues0 then Normal issues0
               else (writable engine analysisResult "issues" ;;;
                     Normal (VArr []))) ;;
   todo <- iterate engine issues1 ;;
   let start :=
     {| validatedIssues := [];
        stats := {| V2.original := length todo; V2.validated := 0;
                    V2.invalidParagraphIndex := 0;
                    V2.missingSearchableText := 0 |} |} in
   match loop engine env documentStructure 0 todo start with
   | (Normal _, final) =>
       Normal
         {| summary :=
              {| totalIssues := length (validatedIssues final);
                 critical := count_severity "Critical" (validatedIssues final);
                 warnings := count_severity "Warning" (validatedIssues final);
                 suggestions := count_severity "Suggestion" (validatedIssues final);
                 documentLength := V2.fullText_length documentStructure |};
            issues := validatedIssues final;
            validationStats := stats final;
            meta := {| meta_model := model env; meta_timestamp := timestamp env;
                       processingVersion := "2.0" |} |}
   | (Thrown e, _) => Thrown e
   | (Unending, _) => Unending
   end)%dyn.

End V2_dynamic.

(** * Properties *)

(** ** Edit distance, as the specification words it

    The classic distance: the least number of single-character insertions,
    deletions and substitutions, each at cost one, that turn one string into
    the other, over the whole strings. *)

Module EditDistance.

Section Scripts.

Context {A : Type} `{EqDecision A}.

(** [edits a b n]: a script turns [a] into [b] with [n] unit-cost
    operations; characters it keeps cost nothing. *)
Inductive edits : list A -> list A -> nat -> Prop :=
| edits_nil : edits [] [] 0
| edits_keep x a b n : edits a b n -> edits (x :: a) (x :: b) n
| edits_subst x y a b n : edits a b n -> edits (x :: a) (y :: b) (S n)
| edits_delete x a b n : edits a b n -> edits (x :: a) b (S n)
| edits_insert y a b n : edits a b n -> edits a (y :: b) (S n).

(** [d] is the edit distance between [a] and [b]: some script costs [d] and
    none costs less. *)
Definition is_distance (a b : list A) (d : nat) : Prop :=
  edits a b d /\ forall n, edits a b n -> d <= n.

(** The distance by recursion on the two strings. *)
Fixpoint lev (a : list A) : list A -> nat :=
  match a with
  | [] => fun b => length b
  | x :: a' =>
      fix lev_a (b : list A) : nat :=
        match b with
        | [] => length (x :: a')
        | y :: b' =>
            if decide (x = y) then lev a' b'
            else S (Nat.min (lev a' b') (Nat.min (lev_a b') (lev a' (y :: b'))))
        end
  end.

Lemma lev_nil_l b : lev [] b = length b.
Proof. reflexivity. Qed.

Lemma lev_nil_r a : lev a [] = length a.
Proof. destruct a; reflexivity. Qed.

Lemma lev_cons x y a b :
  lev (x :: a) (y :: b) =
  if decide (x = y) then lev a b
  else S (Nat.min (lev a b) (Nat.min (lev (x :: a) b) (lev a (y :: b)))).
Proof. reflexivity. Qed.

Lemma edits_length a b n :
  edits a b n -> length a <= length b + n /\ length b <= length a + n.
Proof. induction 1; simpl; lia. Qed.

Lemma edits_only_insert b : edits [] b (length b).
Proof. induction b; simpl; [constructor | now apply edits_insert]. Qed.

Lemma edits_only_delete a : edits a [] (length a).
Proof. induction a; simpl; [constructor | now apply edits_delete]. Qed.

(** Dropping the first character of the source costs at most one more. *)
Lemma edits_uncons_l x a b n :
  edits (x :: a) b n -> exists m, m <= S n /\ edits a b m.
Proof.
  intros Hd. remember (x :: a) as xa eqn:E. revert x a E.
  induction Hd as [|x0 a0 b0 n0 Hd IH|x0 y0 a0 b0 n0 Hd IH
                  |x0 a0 b0 n0 Hd IH|y0 a0 b0 n0 Hd IH]; intros x a E.
  - discriminate.
  - injection E as -> ->. exists (S n0). split; [lia | now apply edits_insert].
  - injection E as -> ->. exists (S n0). split; [lia | now apply edits_insert].
  - injection E as -> ->. exists n0. split; [lia | assumption].
  - destruct (IH x a E) as (m & Hm & Hdm).
    exists (S m). split; [lia | now apply edits_insert].
Qed.

Lemma edits_sym a b n : edits a b n -> edits b a n.
Proof. induction 1; now constructor. Qed.

(** Dropping the first character of the target costs at most one more. *)
Lemma edits_uncons_r y a b n :
  edits a (y :: b) n -> exists m, m <= S n /\ edits a b m.
Proof.
  intros Hd. apply edits_sym in Hd.
  destruct (edits_uncons_l _ _ _ _ Hd) as (m & Hm & Hdm).
  exists m. split; [assumption | now apply edits_sym].
Qed.

(** The recursion is realised by a script ... *)
Lemma lev_edits a b : edits a b (lev a b).
Proof.
  revert b. induction a as [|x a IHa]; intros b.
  - apply edits_only_insert.
  - induction b as [|y b IHb].
    + rewrite lev_nil_r. apply edits_only_delete.
    + rewrite lev_cons. destruct (decide (x = y)) as [->|Hne].
      * apply edits_keep, IHa.
      * destruct (Nat.min_spec (lev a b) (Nat.min (lev (x :: a) b) (lev a (y :: b))))
          as [[_ ->]|[_ ->]].
        -- apply edits_subst, IHa.
        -- destruct (Nat.min_spec (lev (x :: a) b) (lev a (y :: b)))
             as [[_ ->]|[_ ->]].
           ++ apply edits_insert, IHb.
           ++ apply edits_delete, IHa.
Qed.

(** ... and no script is cheaper. *)
Lemma lev_least a b n : edits a b n -> lev a b <= n.
Proof.
  revert b n. induction a as [|x a IHa]; intros b n Hd.
  - rewrite lev_nil_l. apply edits_length in Hd. simpl in Hd. lia.
  - revert n Hd. induction b as [|y b IHb]; intros n Hd.
    + rewrite lev_nil_r. apply edits_length in Hd. simpl in *. lia.
    + rewrite lev_cons. inversion Hd as [|x0 a0 b0 n0 Hd'|x0 y0 a0 b0 n0 Hd'
                                         |x0 a0 b0 n0 Hd'|y0 a0 b0 n0 Hd']; subst.
      * destruct (decide (y = y)) as [_|Hne]; [|congruence]. now apply IHa.
      * specialize (IHa _ _ Hd'). destruct (decide (x = y)); lia.
      * destruct (decide (x = y)) as [->|Hne].
        -- destruct (edits_uncons_r _ _ _ _ Hd') as (m & Hm & Hdm).
           specialize (IHa _ _ Hdm). lia.
        -- specialize (IHa _ _ Hd'). lia.
      * destruct (decide (x = y)) as [->|Hne].
        -- destruct (edits_uncons_l _ _ _ _ Hd') as (m & Hm & Hdm).
           specialize (IHa _ _ Hdm). lia.
        -- specialize (IHb _ Hd'). lia.
Qed.

Lemma lev_is_distance a b : is_distance a b (lev a b).
Proof. split; [apply lev_edits | apply lev_least]. Qed.

Lemma is_distance_unique a b d d' :
  is_distance a b d -> is_distance a b d' -> d = d'.
Proof. intros [H1 L1] [H2 L2]. specialize (L1 _ H2). specialize (L2 _ H1). lia. Qed.

Lemma lev_sym a b : lev a b = lev b a.
Proof.
  apply Nat.le_antisymm; apply lev_least, edits_sym, lev_edits.
Qed.

Lemma lev_refl a : lev a a = 0.
Proof.
  assert (edits a a 0) as Hd by (induction a; now constructor).
  apply lev_least in Hd. lia.
Qed.

Lemma lev_le_max a b : lev a b <= Nat.max (length a) (length b).
Proof.
  revert b. induction a as [|x a IHa]; intros b.
  - rewrite lev_nil_l. lia.
  - destruct b as [|y b].
    + rewrite lev_nil_r. lia.
    + rewrite lev_cons. specialize (IHa b). simpl.
      destruct (decide (x = y)); lia.
Qed.

(** Scripts can be extended at the right end as well. *)
Lemma edits_snoc_keep a b n x : edits a b n -> edits (a ++ [x]) (b ++ [x]) n.
Proof. induction 1; simpl; try now constructor. apply edits_keep, edits_nil. Qed.

Lemma edits_snoc_subst a b n x y :
  edits a b n -> edits (a ++ [x]) (b ++ [y]) (S n).
Proof. induction 1; simpl; try now constructor. apply edits_subst, edits_nil. Qed.

Lemma edits_snoc_delete a b n x : edits a b n -> edits (a ++ [x]) b (S n).
Proof. induction 1; simpl; try now constructor. apply edits_delete, edits_nil. Qed.

Lemma edits_snoc_insert a b n y : edits a b n -> edits a (b ++ [y]) (S n).
Proof. induction 1; simpl; try now constructor. apply edits_insert, edits_nil. Qed.

Lemma edits_rev a b n : edits a b n -> edits (rev a) (rev b) n.
Proof.
  induction 1; simpl.
  - constructor.
  - now apply edits_snoc_keep.
  - now apply edits_snoc_subst.
  - now apply edits_snoc_delete.
  - now apply edits_snoc_insert.
Qed.

Lemma lev_rev a b : lev (rev a) (rev b) = lev a b.
Proof.
  apply Nat.le_antisymm.
  - apply lev_least, edits_rev, lev_edits.
  - pose proof (edits_rev _ _ _ (lev_edits (rev a) (rev b))) as Hd.
    rewrite !rev_involutive in Hd. now apply lev_least.
Qed.

End Scripts.

End EditDistance.

(** ** The matrix computes the edit distance *)

Module MatrixCorrect.

Import Levenshtein EditDistance.

Section Rows.

Context {A : Type} `{EqDecision A}.

(** The cell for the prefixes [p] of [str2] and [q] of [str1]: prefixes grow
    at their right end, so the recursion runs on the reversed prefixes. *)
Definition cell (p q : list A) : nat := lev (rev p) (rev q).

(** The values of [f] on [q] extended by each non-empty prefix of [rest]. *)
Fixpoint along (f : list A -> nat) (q rest : list A) : list nat :=
  match rest with
  | [] => []
  | ch :: rest' => f (q ++ [ch]) :: along f (q ++ [ch]) rest'
  end.

(** The row of the matrix for the prefix [p] of [str2]. *)
Definition row (str1 p : list A) : list nat :=
  cell p [] :: along (cell p) [] str1.

Lemma cell_nil_l q : cell [] q = length q.
Proof. unfold cell. simpl. apply length_rev. Qed.

Lemma cell_nil_r p : cell p [] = length p.
Proof. unfold cell. simpl. rewrite lev_nil_r. apply length_rev. Qed.

Lemma cell_snoc p q c ch :
  cell (p ++ [c]) (q ++ [ch]) =
  if decide (c = ch) then cell p q
  else Nat.min (cell p q + 1)
         (Nat.min (cell (p ++ [c]) q + 1) (cell p (q ++ [ch]) + 1)).
Proof.
  unfold cell. rewrite !rev_app_distr. cbn [rev app]. rewrite lev_cons.
  destruct (decide (c = ch)); lia.
Qed.

Lemma along_nil_l q rest :
  along (cell []) q rest = seq (S (length q)) (length rest).
Proof.
  revert q. induction rest as [|ch rest IH]; intros q; simpl; [reflexivity|].
  rewrite cell_nil_l, IH, !length_app. simpl.
  replace (length q + 1) with (S (length q)) by lia. reflexivity.
Qed.

Lemma first_row_spec str1 : first_row str1 = row str1 [].
Proof.
  unfold first_row, row. rewrite along_nil_l, cell_nil_l. reflexivity.
Qed.

Lemma fill_row_spec c p rest q :
  fill_row c rest (along (cell p) q rest) (cell p q) (cell (p ++ [c]) q)
  = along (cell (p ++ [c])) q rest.
Proof.
  revert q. induction rest as [|ch rest IH]; intros q; simpl; [reflexivity|].
  rewrite <- cell_snoc. f_equal. apply IH.
Qed.

Lemma next_row_spec str1 c p :
  next_row str1 c (S (length p)) (row str1 p) = row str1 (p ++ [c]).
Proof.
  unfold next_row, row. cbn [hd tl].
  assert (S (length p) = cell (p ++ [c]) []) as ->
    by (rewrite cell_nil_r, length_app; simpl; lia).
  f_equal. apply fill_row_spec.
Qed.

Lemma last_row_spec str1 rest2 p :
  nth (length rest2)
      (row str1 p :: fill_rows str1 rest2 (S (length p)) (row str1 p)) []
  = row str1 (p ++ rest2).
Proof.
  revert p. induction rest2 as [|c rest2 IH]; intros p.
  - simpl. now rewrite app_nil_r.
  - cbn [length fill_rows]. rewrite next_row_spec.
    change (nth (S (length rest2)) (row str1 p :: ?l) []) with (nth (length rest2) l []).
    replace (S (S (length p))) with (S (length (p ++ [c])))
      by (rewrite length_app; simpl; lia).
    rewrite IH, <- app_assoc. reflexivity.
Qed.

Lemma nth_along f q rest :
  nth (length rest) (f q :: along f q rest) 0 = f (q ++ rest).
Proof.
  revert q. induction rest as [|ch rest IH]; intros q.
  - simpl. now rewrite app_nil_r.
  - cbn [length along].
    change (nth (S (length rest)) (f q :: ?l) 0) with (nth (length rest) l 0).
    rewrite IH, <- app_assoc. reflexivity.
Qed.

(** The cell returned by the code is the recursive distance. *)
Lemma distance_lev (str1 str2 : list A) : distance str1 str2 = lev str1 str2.
Proof.
  unfold distance, matrix. rewrite first_row_spec.
  change 1 with (S (length (@nil A))).
  rewrite (last_row_spec str1 str2 []). simpl app.
  unfold row. rewrite nth_along. simpl app.
  unfold cell. rewrite lev_rev. apply lev_sym.
Qed.

Lemma distance_is_distance (str1 str2 : list A) :
  is_distance str1 str2 (distance str1 str2).
Proof. rewrite distance_lev. apply lev_is_distance. Qed.

Lemma distance_sym (str1 str2 : list A) : distance str1 str2 = distance str2 str1.
Proof. rewrite !distance_lev. apply lev_sym. Qed.

Lemma distance_refl (str : list A) : distance str str = 0.
Proof. rewrite distance_lev. apply lev_refl. Qed.

Lemma distance_le_max (str1 str2 : list A) :
  distance str1 str2 <= Nat.max (length str1) (length str2).
Proof. rewrite distance_lev. apply lev_le_max. Qed.

End Rows.

End MatrixCorrect.

(** ** The approximate matcher *)

Section Matcher.

Import EditDistance.

Local Open Scope Q_scope.

(** The characters of a string. *)
Abbreviation chars := list_ascii_of_string.

Lemma length_chars (s : string) : length (chars s) = String.length s.
Proof. induction s; simpl; congruence. Qed.

Lemma levenshteinDistance_is_distance (a b : string) :
  is_distance (chars a) (chars b) (levenshteinDistance a b).
Proof. apply MatrixCorrect.distance_is_distance. Qed.

Lemma levenshteinDistance_sym (a b : string) :
  levenshteinDistance a b = levenshteinDistance b a.
Proof. apply MatrixCorrect.distance_sym. Qed.

Lemma levenshteinDistance_refl (a : string) : levenshteinDistance a a = 0%nat.
Proof. apply MatrixCorrect.distance_refl. Qed.

Lemma levenshteinDistance_le_max (a b : string) :
  (levenshteinDistance a b <= Nat.max (String.length a) (String.length b))%nat.
Proof.
  rewrite <- !length_chars. apply MatrixCorrect.distance_le_max.
Qed.

Lemma levenshteinDistance_empty_l (b : string) :
  levenshteinDistance "" b = String.length b.
Proof.
  unfold levenshteinDistance. rewrite MatrixCorrect.distance_lev.
  simpl. apply length_chars.
Qed.

Lemma length_longer (a b : string) :
  String.length (longer a b) = Nat.max (String.length a) (String.length b).
Proof.
  unfold longer. destruct (Nat.ltb_spec (String.length b) (String.length a)); lia.
Qed.

Lemma distance_longer_shorter (a b : string) :
  levenshteinDistance (longer a b) (shorter a b) = levenshteinDistance a b.
Proof.
  unfold longer, shorter. destruct (String.length b <? String.length a)%nat.
  - reflexivity.
  - apply levenshteinDistance_sym.
Qed.

Lemma length_zero_empty (s : string) :
  (String.length s =? 0)%nat = true <-> s = ""%string.
Proof.
  destruct s; simpl; split; intros; (reflexivity || discriminate).
Qed.

(** The quotient of the specification for a distance [d]. *)
Definition quotient (a b : string) (d : nat) : Q :=
  (Z.of_nat (Nat.max (String.length a) (String.length b)) - Z.of_nat d)
    # Pos.of_nat (Nat.max (String.length a) (String.length b)).

Lemma similarity_quotient (a b : string) :
  a <> ""%string \/ b <> ""%string ->
  similarity a b == quotient a b (levenshteinDistance a b).
Proof.
  intros Hne. unfold similarity, quotient.
  destruct a as [|ca a]; [|destruct b as [|cb b]].
  - destruct b as [|cb b]; [destruct Hne; congruence|].
    rewrite levenshteinDistance_empty_l. cbn [String.length Nat.eqb orb].
    rewrite Nat.max_0_l. unfold Qeq. simpl. lia.
  - rewrite levenshteinDistance_sym, levenshteinDistance_empty_l.
    cbn [String.length Nat.eqb orb]. rewrite Nat.max_0_r.
    unfold Qeq. simpl. lia.
  - cbn [String.length Nat.eqb orb]. unfold ratio, Js.len.
    rewrite distance_longer_shorter, length_longer. reflexivity.
Qed.

Lemma similarity_sym (a b : string) : similarity a b == similarity b a.
Proof.
  destruct a as [|ca a]; [|destruct b as [|cb b]].
  - unfold similarity. simpl. destruct b; reflexivity.
  - reflexivity.
  - rewrite !similarity_quotient by (left; discriminate).
    unfold quotient. rewrite levenshteinDistance_sym, Nat.max_comm. reflexivity.
Qed.

Lemma similarity_refl (a : string) : a <> ""%string -> similarity a a == 1.
Proof.
  intros Hne. rewrite similarity_quotient by now left.
  unfold quotient. rewrite levenshteinDistance_refl, Nat.max_id.
  destruct a as [|c a]; [congruence|].
  unfold Qeq. cbn [Qnum Qden String.length].
  rewrite <- Pos.of_nat_succ, Zpos_P_of_succ_nat. lia.
Qed.

Lemma similarity_one_empty (a b : string) :
  (a = ""%string /\ b <> ""%string) \/ (a <> ""%string /\ b = ""%string) ->
  similarity a b == 0.
Proof.
  intros [[-> _]|[_ ->]]; unfold similarity.
  - reflexivity.
  - rewrite orb_true_r. reflexivity.
Qed.

(** [fuzzyMatch] compares the score with its threshold. *)
Lemma fuzzyMatch_similarity (a b : string) (threshold : Q) :
  0 < threshold ->
  fuzzyMatch a b threshold = Qle_bool threshold (similarity a b).
Proof.
  intros Hpos. unfold fuzzyMatch, similarity.
  destruct ((String.length a =? 0)%nat || (String.length b =? 0)%nat) eqn:G.
  - symmetry. apply not_true_is_false. rewrite Qle_bool_iff.
    intros Hle. apply (Qlt_irrefl 0). eapply Qlt_le_trans; eassumption.
  - apply orb_false_elim in G as [Ga Gb].
    rewrite length_longer.
    destruct (Nat.max (String.length a) (String.length b)) eqn:M.
    + apply Nat.eqb_neq in Ga. lia.
    + reflexivity.
Qed.

(** C7.  The score of the matcher is the quotient
    [(max(len a, len b) - d) / max(len a, len b)] for the edit distance [d]
    of the two whole strings, whenever one of them is not empty: the matrix
    of [levenshteinDistance] returns a number of unit-cost single-character
    insertions, deletions and substitutions that turns one string into the
    other, and no script does it in fewer.  When exactly one string is empty
    the score is 0, without any division.  The score is symmetric, it is 1
    on a non-empty string and itself, and it is the number [fuzzyMatch]
    compares with a positive threshold. *)
Theorem similarity_is_normalised_edit_distance :
  (forall a b, is_distance (chars a) (chars b) (levenshteinDistance a b))
  /\ (forall a b d,
        a <> ""%string \/ b <> ""%string ->
        is_distance (chars a) (chars b) d ->
        similarity a b == quotient a b d)
  /\ (forall a b,
        (a = ""%string /\ b <> ""%string) \/ (a <> ""%string /\ b = ""%string) ->
        similarity a b == 0)
  /\ (forall a b, similarity a b == similarity b a)
  /\ (forall a, a <> ""%string -> similarity a a == 1)
  /\ (forall a b threshold,
        0 < threshold ->
        fuzzyMatch a b threshold = Qle_bool threshold (similarity a b)).
Proof.
  split; [exact levenshteinDistance_is_distance|].
  split.
  { intros a b d Hne Hd.
    rewrite (is_distance_unique _ _ _ _ Hd (levenshteinDistance_is_distance a b)).
    now apply similarity_quotient. }
  split; [exact similarity_one_empty|].
  split; [exact similarity_sym|].
  split; [exact similarity_refl | exact fuzzyMatch_similarity].
Qed.

(** The theorem at ["kitten"] and ["sitting"] (distance 3 over 7
    characters), at an empty string, and at a string and itself. *)
Lemma similarity_is_normalised_edit_distance_witness :
  similarity "kitten" "sitting" == 4 # 7
  /\ similarity "" "sitting" == 0
  /\ similarity "kitten" "kitten" == 1
  /\ fuzzyMatch "kitten" "sitting" (8 # 10) = false.
Proof.
  destruct similarity_is_normalised_edit_distance
    as (Hdist & Hquot & Hzero & _ & Hrefl & Hfuzzy).
  split; [|split; [|split]].
  - rewrite (Hquot "kitten" "sitting" 3%nat)%string.
    + reflexivity.
    + left. discriminate.
    + exact (Hdist "kitten" "sitting")%string.
  - apply Hzero. left. split; [reflexivity | discriminate].
  - apply Hrefl. discriminate.
  - rewrite Hfuzzy by reflexivity. reflexivity.
Defined.

End Matcher.

(** ** Span validation, offset form *)

Section OffsetForm.

Import V1.

Local Open Scope Z_scope.

(** [fullText[startIndex:endIndex]]. *)
Definition slice (fullText : string) (startIndex endIndex : Z) : string :=
  String.substring (Z.to_nat startIndex) (Z.to_nat (endIndex - startIndex)) fullText.

Definition out_of_bounds (fullText : string) (loc : Location) : Prop :=
  startIndex loc < 0 \/ endIndex loc > Js.len fullText
  \/ startIndex loc >= endIndex loc.

Definition within_bounds (fullText : string) (loc : Location) : Prop :=
  0 <= startIndex loc /\ startIndex loc < endIndex loc
  /\ endIndex loc <= Js.len fullText.

(** The three ways an iteration of the loop leaves the state. *)
Definition pushes (st : Loop) (issue : Issue) : Loop :=
  {| validatedIssues := validatedIssues st ++ [issue];
     stats := count (stats st) (Accepted issue) |}.

Definition counts_index_error (st : Loop) : Loop :=
  {| validatedIssues := validatedIssues st;
     stats := {| original := original (stats st);
                 validated := validated (stats st);
                 indexErrors := S (indexErrors (stats st));
                 textMismatches := textMismatches (stats st) |} |}.

Definition counts_text_mismatch (st : Loop) : Loop :=
  {| validatedIssues := validatedIssues st;
     stats := {| original := original (stats st);
                 validated := validated (stats st);
                 indexErrors := indexErrors (stats st);
                 textMismatches := S (textMismatches (stats st)) |} |}.

(** The issue with the quoted text of its location replaced. *)
Definition anchored (issue : Issue) (actual : string) : Issue :=
  set_location issue (set_exactText (location issue) actual).

Lemma bounds_check_true fullText loc :
  out_of_bounds fullText loc ->
  (startIndex loc <? 0) || (Js.len fullText <? endIndex loc)
  || (endIndex loc <=? startIndex loc) = true.
Proof.
  intros [H|[H|H]].
  - apply Z.ltb_lt in H. now rewrite H.
  - assert ((Js.len fullText <? endIndex loc) = true) as -> by (apply Z.ltb_lt; lia).
    now rewrite orb_true_r.
  - assert ((endIndex loc <=? startIndex loc) = true) as -> by (apply Z.leb_le; lia).
    now rewrite orb_true_r.
Qed.

Lemma bounds_check_false fullText loc :
  within_bounds fullText loc ->
  (startIndex loc <? 0) || (Js.len fullText <? endIndex loc)
  || (endIndex loc <=? startIndex loc) = false.
Proof.
  intros (H1 & H2 & H3).
  assert ((startIndex loc <? 0) = false) as -> by (apply Z.ltb_ge; lia).
  assert ((Js.len fullText <? endIndex loc) = false) as -> by (apply Z.ltb_ge; lia).
  assert ((endIndex loc <=? startIndex loc) = false) as -> by (apply Z.leb_gt; lia).
  reflexivity.
Qed.

Lemma substring_within_bounds fullText loc :
  within_bounds fullText loc ->
  Js.substring fullText (startIndex loc) (endIndex loc)
  = slice fullText (startIndex loc) (endIndex loc).
Proof.
  intros (H1 & H2 & H3). unfold Js.substring, Js.clamp, slice.
  rewrite (Z.max_l (startIndex loc) 0), (Z.max_l (endIndex loc) 0) by lia.
  rewrite (Z.min_l (startIndex loc)), (Z.min_l (endIndex loc)) by lia.
  rewrite Z.min_l, Z.max_r by lia. reflexivity.
Qed.

Lemma length_substring (s : string) (n m : nat) :
  (n + m <= String.length s)%nat -> String.length (String.substring n m s) = m.
Proof.
  revert n m. induction s as [|c s IH]; intros n m Hle; simpl in Hle.
  - assert (n = 0%nat /\ m = 0%nat) as [-> ->] by lia. reflexivity.
  - destruct n as [|n]; simpl.
    + destruct m as [|m]; [reflexivity|]. simpl. f_equal.
      apply (IH 0%nat m). lia.
    + apply IH. lia.
Qed.

Lemma slice_nonempty fullText loc :
  within_bounds fullText loc ->
  slice fullText (startIndex loc) (endIndex loc) <> ""%string.
Proof.
  intros (H1 & H2 & H3) E.
  assert (String.length (slice fullText (startIndex loc) (endIndex loc))
          = Z.to_nat (endIndex loc - startIndex loc)) as L.
  { apply length_substring. unfold Js.len in H3. lia. }
  rewrite E in L. simpl in L. lia.
Qed.

Lemma threshold_positive : (0 < default_threshold)%Q.
Proof. reflexivity. Qed.

(** C1.  One iteration of the loop over the findings of a reply, on an
    offset-form finding.  Out of bounds ([startIndex < 0], or
    [endIndex > len fullText], or [startIndex >= endIndex]) the finding is
    dropped and [indexErrors] grows by one, whatever its text.  Within bounds,
    with [actual = fullText[startIndex:endIndex]]: when [actual] is the
    quoted text the finding is pushed with its location as it came; when it
    is not and their similarity is at least 0.8 the finding is pushed with
    the quoted text replaced by [actual]; and when the similarity is below
    0.8 the finding is dropped and [textMismatches] grows by one. *)
Theorem offset_finding_verdict
    (env : Env) (fullText : string) (st : Loop) (k : nat) (issue : Issue) :
  let loc := location issue in
  let actual := slice fullText (startIndex loc) (endIndex loc) in
  (out_of_bounds fullText loc ->
     step env fullText st k issue = counts_index_error st)
  /\ (within_bounds fullText loc -> actual = exactText loc ->
        step env fullText st k issue
        = pushes st (ensure_fields issue (genId env k))
        /\ location (ensure_fields issue (genId env k)) = loc)
  /\ (within_bounds fullText loc -> actual <> exactText loc ->
      (default_threshold <= similarity actual (exactText loc))%Q ->
        step env fullText st k issue
        = pushes st (ensure_fields (anchored issue actual) (genId env k))
        /\ exactText (location (ensure_fields (anchored issue actual) (genId env k)))
           = actual)
  /\ (within_bounds fullText loc ->
      (similarity actual (exactText loc) < default_threshold)%Q ->
        step env fullText st k issue = counts_text_mismatch st).
Proof.
  intros loc actual. unfold step, validateIssue. fold loc.
  split; [|split; [|split]].
  - intros Hout. rewrite (bounds_check_true _ _ Hout). reflexivity.
  - intros Hin Heq. rewrite (bounds_check_false _ _ Hin).
    rewrite (substring_within_bounds _ _ Hin). fold actual.
    rewrite Heq, String.eqb_refl. split; reflexivity.
  - intros Hin Hne Hsim. rewrite (bounds_check_false _ _ Hin).
    rewrite (substring_within_bounds _ _ Hin). fold actual.
    apply String.eqb_neq in Hne. rewrite Hne.
    rewrite (fuzzyMatch_similarity _ _ _ threshold_positive).
    apply Qle_bool_iff in Hsim. rewrite Hsim. split; reflexivity.
  - intros Hin Hsim. rewrite (bounds_check_false _ _ Hin).
    rewrite (substring_within_bounds _ _ Hin). fold actual.
    assert (actual <> exactText loc) as Hne.
    { intros Heq. rewrite <- Heq in Hsim.
      rewrite (similarity_refl actual (slice_nonempty _ _ Hin)) in Hsim.
      revert Hsim. apply Qle_not_lt. discriminate. }
    apply String.eqb_neq in Hne. rewrite Hne.
    rewrite (fuzzyMatch_similarity _ _ _ threshold_positive).
    assert (Qle_bool default_threshold (similarity actual (exactText loc)) = false)
      as ->.
    { apply not_true_is_false. rewrite Qle_bool_iff. now apply Qlt_not_le. }
    reflexivity.
Qed.

(** A document and four findings on the span 4..13, which holds
    ["wrongword"]: quoted exactly, quoted one edit away, with a negative
    start, and quoted as something else. *)
Definition sample_env : Env :=
  {| model := "claude-3-5-sonnet-20241022"; timestamp := "2024-01-15T00:00:00.000Z";
     genId := fun _ => "issue_1705276800000_k3j9x2m1q" |}.

Definition sample_text : string := "The wrongword is in this sentence.".

Definition sample_issue (s e : Z) (quoted : string) : Issue :=
  {| id := Some "format_001"%string; category := "Format"; severity := "Warning";
     location := {| startIndex := s; endIndex := e; exactText := quoted;
                    context := "The wrongword is" |};
     autoFixable := Some true |}.

Definition sample_loop : Loop :=
  {| validatedIssues := [];
     stats := {| original := 4; validated := 0; indexErrors := 0;
                 textMismatches := 0 |} |}.

Lemma offset_finding_verdict_witness :
  step sample_env sample_text sample_loop 0 (sample_issue (-1) 13 "wrongword")
    = counts_index_error sample_loop
  /\ step sample_env sample_text sample_loop 0 (sample_issue 4 13 "wrongword")
    = pushes sample_loop (sample_issue 4 13 "wrongword")
  /\ step sample_env sample_text sample_loop 0 (sample_issue 4 13 "wrong-word")
    = pushes sample_loop (sample_issue 4 13 "wrongword")
  /\ step sample_env sample_text sample_loop 0 (sample_issue 4 13 "misspelling")
    = counts_text_mismatch sample_loop.
Proof.
  pose proof (offset_finding_verdict sample_env sample_text sample_loop 0
                (sample_issue (-1) 13 "wrongword")) as (Hbounds & _).
  pose proof (offset_finding_verdict sample_env sample_text sample_loop 0
                (sample_issue 4 13 "wrongword")) as (_ & Hexact & _).
  pose proof (offset_finding_verdict sample_env sample_text sample_loop 0
                (sample_issue 4 13 "wrong-word")) as (_ & _ & Hnear & _).
  pose proof (offset_finding_verdict sample_env sample_text sample_loop 0
                (sample_issue 4 13 "misspelling")) as (_ & _ & _ & Hfar).
  assert (forall quoted,
            within_bounds sample_text (location (sample_issue 4 13 quoted)))
    as Hin by (intros quoted; repeat split; vm_compute; (reflexivity || discriminate)).
  split; [|split; [|split]].
  - apply Hbounds. left. reflexivity.
  - destruct (Hexact (Hin _)) as [E _]; [reflexivity|]. exact E.
  - destruct (Hnear (Hin _)) as [E _].
    + discriminate.
    + vm_compute. discriminate.
    + exact E.
  - apply Hfar; [apply Hin | vm_compute; reflexivity].
Defined.

End OffsetForm.

(** ** Span validation, paragraph form *)

Section ParagraphForm.

Import V2.

Local Open Scope Z_scope.

Definition index_in_range (ps : list Paragraph) (issue : Issue) : Prop :=
  exists i, get_paragraphIndex issue = Some i /\ 0 <= i < Z.of_nat (length ps).

Definition index_out_of_range (ps : list Paragraph) (issue : Issue) : Prop :=
  match get_paragraphIndex issue with
  | None => True
  | Some i => i < 0 \/ Z.of_nat (length ps) <= i
  end.

(** The text is absent or empty. *)
Definition text_missing (issue : Issue) : Prop :=
  get_searchableText issue = None \/ get_searchableText issue = Some ""%string.

Definition pushes2 (st : Loop) (issue : Issue) : Loop :=
  {| validatedIssues := validatedIssues st ++ [issue];
     stats := count (stats st) (Accepted issue) |}.

Definition counts_invalid_index (st : Loop) : Loop :=
  {| validatedIssues := validatedIssues st;
     stats := count (stats st) InvalidParagraphIndex |}.

Definition counts_missing_text (st : Loop) : Loop :=
  {| validatedIssues := validatedIssues st;
     stats := count (stats st) MissingSearchableText |}.

(** The claim that acceptance implies literal containment in the paragraph
    the finding points at. *)
Definition accepted_only_if_contained : Prop :=
  forall (doc : DocumentStructure) (ps : list Paragraph) (fresh : string)
         (issue accepted : Issue) (i : Z) (p : Paragraph) (t : string),
    paragraphs doc = Some ps ->
    get_paragraphIndex issue = Some i ->
    nth_error ps (Z.to_nat i) = Some p ->
    get_searchableText issue = Some t ->
    validateIssue doc fresh issue = Accepted accepted ->
    Js.includes (text p) t = true.

(** The document of the prompt's example, and a finding on its first
    paragraph that quotes text of the second. *)
Definition sample_document : DocumentStructure :=
  {| fullText := Some "INTERNAL AUDIT REPORT Functional Head: aman malhotra"%string;
     paragraphs := Some
       [ {| index := 0; text := "INTERNAL AUDIT REPORT"; style := "Title" |};
         {| index := 1; text := "Functional Head: aman malhotra"; style := "Normal" |} ] |}.

Definition sample_finding (i : option Z) (t : option string) : Issue :=
  {| id := Some "font_001"%string; category := "Font"; severity := "Critical";
     location := Some {| paragraphIndex := i; searchableText := t;
                         context := Some "Functional Head: aman malhotra"%string |};
     autoFixable := Some true |}.

(** C2, as stated, fails: a finding whose text is not in the paragraph it
    names is accepted. *)
Lemma paragraph_text_not_checked : ~ accepted_only_if_contained.
Proof.
  intros Hclaim.
  specialize (Hclaim sample_document
    [ {| index := 0; text := "INTERNAL AUDIT REPORT"; style := "Title" |};
      {| index := 1; text := "Functional Head: aman malhotra"; style := "Normal" |} ]
    "fresh"%string
    (sample_finding (Some 0) (Some "aman malhotra"%string))
    (sample_finding (Some 0) (Some "aman malhotra"%string))
    0 {| index := 0; text := "INTERNAL AUDIT REPORT"; style := "Title" |}
    "aman malhotra"%string
    eq_refl eq_refl eq_refl eq_refl eq_refl).
  vm_compute in Hclaim. discriminate.
Qed.

(** C2, amended.  One iteration of the loop on a paragraph-form finding, for
    a document with paragraphs.  A finding whose [paragraphIndex] is absent
    or out of range is dropped and [invalidParagraphIndex] grows by one; a
    finding with an index in range whose [searchableText] is absent or empty
    is dropped and [missingSearchableText] grows by one; every other finding
    is pushed with its location as it came: the text of the paragraph is not
    consulted. *)
Theorem paragraph_finding_verdict
    (env : Env) (doc : DocumentStructure) (ps : list Paragraph)
    (st : Loop) (k : nat) (issue : Issue) :
  paragraphs doc = Some ps ->
  (index_out_of_range ps issue ->
     step env doc st k issue = counts_invalid_index st)
  /\ (index_in_range ps issue -> text_missing issue ->
        step env doc st k issue = counts_missing_text st)
  /\ (index_in_range ps issue -> ~ text_missing issue ->
        step env doc st k issue = pushes2 st (ensure_fields issue (genId env k))
        /\ location (ensure_fields issue (genId env k)) = location issue).
Proof.
  intros Hps. unfold step, validateIssue, counts_invalid_index,
    counts_missing_text, pushes2, index_out_of_range, index_in_range, text_missing.
  rewrite Hps. split; [|split].
  - destruct (get_paragraphIndex issue) as [i|]; [|reflexivity].
    intros [Hneg|Hbig].
    + apply Z.ltb_lt in Hneg. rewrite Hneg. reflexivity.
    + destruct (i <? 0); [reflexivity|].
      apply Z.leb_le in Hbig. rewrite Hbig. reflexivity.
  - intros (i & -> & Hlo & Hhi) Hmiss.
    assert ((i <? 0) = false) as -> by (apply Z.ltb_ge; lia).
    assert ((Z.of_nat (length ps) <=? i) = false) as -> by (apply Z.leb_gt; lia).
    destruct Hmiss as [-> | ->]; reflexivity.
  - intros (i & -> & Hlo & Hhi) Hpresent.
    assert ((i <? 0) = false) as -> by (apply Z.ltb_ge; lia).
    assert ((Z.of_nat (length ps) <=? i) = false) as -> by (apply Z.leb_gt; lia).
    destruct (get_searchableText issue) as [[|c t]|].
    + exfalso. apply Hpresent. now right.
    + split; reflexivity.
    + exfalso. apply Hpresent. now left.
Qed.

Lemma paragraph_finding_verdict_witness :
  step sample_env sample_document
       {| validatedIssues := [];
          stats := {| original := 3; validated := 0; invalidParagraphIndex := 0;
                      missingSearchableText := 0 |} |}
       0 (sample_finding (Some 0) (Some "aman malhotra"%string))
  = {| validatedIssues := [sample_finding (Some 0) (Some "aman malhotra"%string)];
       stats := {| original := 3; validated := 1; invalidParagraphIndex := 0;
                   missingSearchableText := 0 |} |}
  /\ step sample_env sample_document
       {| validatedIssues := [];
          stats := {| original := 3; validated := 0; invalidParagraphIndex := 0;
                      missingSearchableText := 0 |} |}
       1 (sample_finding (Some 2) (Some "aman malhotra"%string))
  = {| validatedIssues := [];
       stats := {| original := 3; validated := 0; invalidParagraphIndex := 1;
                   missingSearchableText := 0 |} |}
  /\ step sample_env sample_document
       {| validatedIssues := [];
          stats := {| original := 3; validated := 0; invalidParagraphIndex := 0;
                      missingSearchableText := 0 |} |}
       2 (sample_finding (Some 1) (Some ""%string))
  = {| validatedIssues := [];
       stats := {| original := 3; validated := 0; invalidParagraphIndex := 0;
                   missingSearchableText := 1 |} |}.
Proof.
  set (st := {| validatedIssues := []; stats := _ |}).
  pose proof (fun k issue =>
    paragraph_finding_verdict sample_env sample_document _ st k issue eq_refl)
    as H.
  split; [|split].
  - destruct (H 0%nat (sample_finding (Some 0) (Some "aman malhotra"%string)))
      as (_ & _ & Hpush).
    destruct Hpush as [E _]; [| |exact E].
    + exists 0. split; [reflexivity | simpl; lia].
    + intros [Hm|Hm]; discriminate Hm.
  - destruct (H 1%nat (sample_finding (Some 2) (Some "aman malhotra"%string)))
      as (Hout & _).
    apply Hout. right. simpl. lia.
  - destruct (H 2%nat (sample_finding (Some 1) (Some ""%string)))
      as (_ & Hmiss & _).
    apply Hmiss.
    + exists 1. split; [reflexivity | simpl; lia].
    + now right.
Defined.

End ParagraphForm.

(** ** Result aggregation *)

Section Aggregation.

(** The number of severities equal to [s]. *)
Definition occurrences (s : string) (severities : list string) : nat :=
  count_occ string_dec severities s.

(** The number of severities that are none of the three known ones. *)
Definition unrecognised (severities : list string) : nat :=
  length (List.filter
            (fun v => negb (String.eqb v "Critical" || String.eqb v "Warning"
                            || String.eqb v "Suggestion"))
            severities).

Lemma filter_length_occurrences {X : Type} (sev : X -> string) (s : string)
    (l : list X) :
  length (List.filter (fun i => String.eqb (sev i) s) l) = occurrences s (map sev l).
Proof.
  unfold occurrences. induction l as [|i l IH]; simpl; [reflexivity|].
  destruct (String.eqb_spec (sev i) s) as [E|E];
    destruct (string_dec (sev i) s); try congruence; simpl; congruence.
Qed.

Lemma severities_partition (severities : list string) :
  (occurrences "Critical" severities + occurrences "Warning" severities
   + occurrences "Suggestion" severities + unrecognised severities
   = length severities)%nat.
Proof.
  unfold occurrences, unrecognised.
  induction severities as [|v l IH]; simpl; [reflexivity|].
  destruct (string_dec v "Critical") as [->|Hc]; [simpl; lia|].
  destruct (string_dec v "Warning") as [->|Hw]; [simpl; lia|].
  destruct (string_dec v "Suggestion") as [->|Hs]; [simpl; lia|].
  apply String.eqb_neq in Hc, Hw, Hs. rewrite Hc, Hw, Hs. simpl. lia.
Qed.

(** C8.  In the result of [validateAndProcessResults] the summary is computed
    from the surviving findings and the document alone: [totalIssues] is the
    number of survivors, [critical], [warnings] and [suggestions] are the
    numbers of survivors whose severity is ['Critical'], ['Warning'] and
    ['Suggestion'], survivors with any other severity are counted in
    [totalIssues] only, so the three counts sum to at most [totalIssues],
    [documentLength] is the length of the full text, and the summary the
    model reported has no influence on the result. *)
Theorem summary_recomputed_from_survivors
    (env : Env) (reply : V1.Reply) (fullText : string) :
  let result := V1.validateAndProcessResults env reply fullText in
  let s := V1.summary result in
  let severities := map V1.severity (V1.issues result) in
  totalIssues s = length (V1.issues result)
  /\ critical s = occurrences "Critical" severities
  /\ warnings s = occurrences "Warning" severities
  /\ suggestions s = occurrences "Suggestion" severities
  /\ (critical s + warnings s + suggestions s + unrecognised severities
      = totalIssues s)%nat
  /\ (critical s + warnings s + suggestions s <= totalIssues s)%nat
  /\ documentLength s = Js.len fullText
  /\ (forall reported,
        V1.validateAndProcessResults env
          {| V1.reply_summary := reported;
             V1.reply_issues := V1.reply_issues reply |} fullText
        = result).
Proof.
  intros result s severities.
  assert (critical s = occurrences "Critical" severities) as Hc
    by apply filter_length_occurrences.
  assert (warnings s = occurrences "Warning" severities) as Hw
    by apply filter_length_occurrences.
  assert (suggestions s = occurrences "Suggestion" severities) as Hs
    by apply filter_length_occurrences.
  assert (totalIssues s = length severities) as Ht
    by (unfold severities; rewrite length_map; reflexivity).
  pose proof (severities_partition severities) as Hp.
  repeat split; try assumption; try reflexivity; try lia.
Qed.

(** The same holds for the paragraph-form version. *)
Lemma summary_recomputed_from_survivors_v2
    (env : Env) (reply : V2.Reply) (doc : V2.DocumentStructure) :
  let result := V2.validateAndProcessResults env reply doc in
  let s := V2.summary result in
  let severities := map V2.severity (V2.issues result) in
  totalIssues s = length (V2.issues result)
  /\ critical s = occurrences "Critical" severities
  /\ warnings s = occurrences "Warning" severities
  /\ suggestions s = occurrences "Suggestion" severities
  /\ (critical s + warnings s + suggestions s <= totalIssues s)%nat
  /\ documentLength s = V2.fullText_length doc.
Proof.
  intros result s severities.
  assert (critical s = occurrences "Critical" severities) as Hc
    by apply filter_length_occurrences.
  assert (warnings s = occurrences "Warning" severities) as Hw
    by apply filter_length_occurrences.
  assert (suggestions s = occurrences "Suggestion" severities) as Hs
    by apply filter_length_occurrences.
  assert (totalIssues s = length severities) as Ht
    by (unfold severities; rewrite length_map; reflexivity).
  pose proof (severities_partition severities) as Hp.
  repeat split; try assumption; try reflexivity; try lia.
Qed.

(** A survivor with severity ['Info'] is counted in the total only. *)
Example summary_unrecognised_severity :
  V1.summary
    (V1.validateAndProcessResults sample_env
       {| V1.reply_summary :=
            Some {| totalIssues := 7; critical := 7; warnings := 0;
                    suggestions := 0; documentLength := 0 |};
          V1.reply_issues :=
            Some [ {| V1.id := None; V1.category := "Format";
                      V1.severity := "Info";
                      V1.location := V1.location (sample_issue 4 13 "wrongword");
                      V1.autoFixable := None |};
                   sample_issue 4 13 "wrongword" ] |}
       sample_text)
  = {| totalIssues := 2; critical := 0; warnings := 1; suggestions := 0;
       documentLength := 34 |}.
Proof. reflexivity. Qed.

End Aggregation.

(** ** Response parser *)

Section ParserFacts.

Import Parser.

Local Open Scope string_scope.

(** [c] occurs in [s]. *)
Fixpoint occurs (c : ascii) (s : string) : bool :=
  match s with
  | EmptyString => false
  | String c' s' => Ascii.eqb c' c || occurs c s'
  end.

Lemma through_last_close_none (s : string) :
  occurs close_brace s = false -> through_last_close s = None.
Proof.
  induction s as [|c s IH]; simpl; [reflexivity|].
  intros H. apply orb_false_elim in H as [Hc Hs].
  rewrite (IH Hs), Hc. reflexivity.
Qed.

Lemma through_last_close_some (mid post : string) :
  occurs close_brace post = false ->
  through_last_close (mid ++ String close_brace post)
  = Some (mid ++ String close_brace "").
Proof.
  intros Hpost. induction mid as [|c mid IH]; simpl.
  - rewrite (through_last_close_none _ Hpost). reflexivity.
  - rewrite IH. reflexivity.
Qed.

Lemma jsonMatch_braces (pre mid post : string) :
  occurs open_brace pre = false ->
  occurs close_brace post = false ->
  jsonMatch (pre ++ String open_brace (mid ++ String close_brace post))
  = Some (String open_brace (mid ++ String close_brace "")).
Proof.
  intros Hpre Hpost. induction pre as [|c pre IH].
  - change (jsonMatch (String open_brace (mid ++ String close_brace post))
            = Some (String open_brace (mid ++ String close_brace ""))).
    cbn [jsonMatch match_here]. rewrite Ascii.eqb_refl.
    rewrite (through_last_close_some _ _ Hpost). reflexivity.
  - simpl in Hpre. apply orb_false_elim in Hpre as [Hc Hpre].
    change (String c pre ++ ?s) with (String c (pre ++ s)).
    cbn [jsonMatch match_here]. rewrite Hc. apply IH, Hpre.
Qed.

Lemma jsonMatch_no_open (content : string) :
  occurs open_brace content = false -> jsonMatch content = None.
Proof.
  induction content as [|c s IH]; [reflexivity|].
  intros H. simpl in H. apply orb_false_elim in H as [Hc Hs].
  cbn [jsonMatch match_here]. rewrite Hc. apply IH, Hs.
Qed.

Lemma jsonMatch_no_close (content : string) :
  occurs close_brace content = false -> jsonMatch content = None.
Proof.
  induction content as [|c s IH]; [reflexivity|].
  intros H. simpl in H. apply orb_false_elim in H as [Hc Hs].
  cbn [jsonMatch match_here]. rewrite (through_last_close_none _ Hs).
  destruct (Ascii.eqb c open_brace); apply IH, Hs.
Qed.

Import Dyn.

(** The pattern finds nothing in a reply where no opening brace is followed
    by a closing brace. *)
Lemma jsonMatch_unmatched (content : string) :
  (forall pre rest,
      content = pre ++ String open_brace rest ->
      occurs close_brace rest = false) ->
  jsonMatch content = None.
Proof.
  induction content as [|c s IH]; intros H; [reflexivity|].
  cbn [jsonMatch match_here].
  assert (jsonMatch s = None) as Hs.
  { apply IH. intros pre rest ->. apply (H (String c pre) rest). reflexivity. }
  destruct (Ascii.eqb_spec c open_brace) as [->|Hc]; [|exact Hs].
  rewrite (through_last_close_none s (H EmptyString s eq_refl)). exact Hs.
Qed.

(** The error the [catch] of [analyzeDocument] throws in place of
    [error]. *)
Definition rethrown (error : JsError) : JsError :=
  match fst (@on_failure unit error) with
  | inl e => e
  | inr _ => error
  end.

Lemma on_failure_rethrown {X : Type} (error : JsError) :
  @on_failure X error = (inl (rethrown error), []).
Proof.
  unfold rethrown, on_failure, throw.
  repeat destruct (decide _); try reflexivity.
  destruct (Js.includes _ _); reflexivity.
Qed.

(** How a run of [analyzeDocument] ends once the reply has been parsed to
    [value]: with the result of [validateAndProcessResults], or with what
    the [catch] makes of the error that function throws. *)
Definition validated_or_rethrown (engine : Engine) (env : Env)
    (value : Value) (documentText : string)
  : Completion V1_dynamic.Result :=
  match V1_dynamic.validateAndProcessResults engine env value documentText with
  | Normal result => Normal result
  | Thrown error => Thrown (rethrown error)
  | Unending => Unending
  end.

Lemma analyzeDocument_replied engine env (svc : Service Value)
    documentText reply :
  (Js.len documentText <= 200000)%Z ->
  complete svc (V1_dynamic.request svc documentText) = inr reply ->
  V1_dynamic.analyzeDocument engine env svc documentText
  = (match JSON_parse svc (jsonText reply) with
     | Some value => validated_or_rethrown engine env value documentText
     | None => Thrown (rethrown (new_Error invalid_json_message))
     end,
     [V1_dynamic.request svc documentText]).
Proof.
  intros Hsize Hreply. unfold V1_dynamic.analyzeDocument, invoke.
  apply Z.ltb_ge in Hsize. rewrite Hsize, Hreply.
  unfold validated_or_rethrown, parseReply.
  cbn -[V1_dynamic.validateAndProcessResults on_failure V1_dynamic.request
        jsonText].
  destruct (JSON_parse svc (jsonText reply)) as [value|];
    cbn -[V1_dynamic.validateAndProcessResults on_failure V1_dynamic.request].
  - destruct (V1_dynamic.validateAndProcessResults engine env value documentText);
      cbn -[on_failure V1_dynamic.request]; rewrite ?on_failure_rethrown;
      reflexivity.
  - rewrite on_failure_rethrown. reflexivity.
Qed.

(** C6.  The text handed to [JSON.parse] runs from the first opening brace
    of the reply through its last closing brace, whatever lies between; it
    is the whole reply when no opening brace of the reply is followed by a
    closing brace, in particular when the reply holds no opening brace or
    no closing brace.  What [JSON.parse] returns for that text is the parsed
    reply, as it is: it is what [validateAndProcessResults] receives, and a
    run of [analyzeDocument] on it ends as that function does.  When
    [JSON.parse] throws, the parser throws ["Invalid JSON response from
    Claude"], and [analyzeDocument] throws ["Analysis failed: Invalid JSON
    response from Claude"] after its one model call and returns no
    result. *)
Theorem selected_text_parsed_or_malformed
    (engine : Engine) (env : Env) (svc : Service Value)
    (documentText reply : string) :
  (forall pre mid post,
      occurs open_brace pre = false ->
      occurs close_brace post = false ->
      reply = pre ++ String open_brace (mid ++ String close_brace post) ->
      jsonText reply = String open_brace (mid ++ String close_brace ""))
  /\ ((forall pre rest,
         reply = pre ++ String open_brace rest ->
         occurs close_brace rest = false) ->
      jsonText reply = reply)
  /\ (occurs open_brace reply = false \/ occurs close_brace reply = false ->
      jsonText reply = reply)
  /\ (forall value,
        JSON_parse svc (jsonText reply) = Some value ->
        parseReply svc reply = ret value)
  /\ (JSON_parse svc (jsonText reply) = None ->
      parseReply svc reply = throw (new_Error invalid_json_message))
  /\ ((Js.len documentText <= 200000)%Z ->
      complete svc (V1_dynamic.request svc documentText) = inr reply ->
      (forall value,
          JSON_parse svc (jsonText reply) = Some value ->
          V1_dynamic.analyzeDocument engine env svc documentText
          = (validated_or_rethrown engine env value documentText,
             [V1_dynamic.request svc documentText]))
      /\ (JSON_parse svc (jsonText reply) = None ->
          V1_dynamic.analyzeDocument engine env svc documentText
          = (Thrown (new_Error ("Analysis failed: " ++ invalid_json_message)),
             [V1_dynamic.request svc documentText]))).
Proof.
  split; [|split; [|split; [|split; [|split]]]].
  - intros pre mid post Hpre Hpost ->. unfold jsonText.
    rewrite (jsonMatch_braces _ _ _ Hpre Hpost). reflexivity.
  - intros H. unfold jsonText. now rewrite (jsonMatch_unmatched _ H).
  - intros [H|H]; unfold jsonText.
    + rewrite (jsonMatch_no_open _ H). reflexivity.
    + rewrite (jsonMatch_no_close _ H). reflexivity.
  - intros value Hparse. unfold parseReply. now rewrite Hparse.
  - intros Hparse. unfold parseReply. now rewrite Hparse.
  - intros Hsize Hreply.
    rewrite (analyzeDocument_replied engine env svc _ _ Hsize Hreply).
    split.
    + intros value ->. reflexivity.
    + intros ->. reflexivity.
Qed.

(** An engine for the examples: its messages are abridged, it reads a
    string of decimal digits as the number it writes, and it writes an
    integer in decimal. *)
Fixpoint decimal_value (s : string) (acc : Z) : option Z :=
  match s with
  | EmptyString => Some acc
  | String c s' =>
      let d := (Z.of_nat (nat_of_ascii c) - 48)%Z in
      if ((0 <=? d) && (d <=? 9))%Z then decimal_value s' (10 * acc + d)%Z
      else None
  end.

Definition sample_engine : Engine :=
  {| describe := fun fault =>
       match fault with
       | NoProperties VNull _ => "Cannot read properties of null"
       | NoProperties _ _ => "Cannot read properties of undefined"
       | NoNewProperty _ _ => "Cannot create property"
       | NotIterable _ => "analysisResult.issues is not iterable"
       | NoPrimitiveValue _ => "Cannot convert object to primitive value"
       | NotAFunction _ _ => "charAt is not a function"
       end;
     StringToNumber := fun s =>
       match decimal_value s 0 with
       | Some z => Fin (inject_Z z)
       | None => NaN
       end;
     NumberToString := fun n =>
       match n with
       | Fin q => NilZero.string_of_int (Z.to_int (Qnum q))
       | PosInf => "Infinity"
       | NegInf => "-Infinity"
       | NaN => "NaN"
       end |}.

(** A service whose model answers with [reply], and whose [JSON.parse]
    knows the empty object and [null]. *)
Definition replying_service (reply : string) : Service Value :=
  {| complete := fun _ => inr reply;
     JSON_parse := fun s =>
       if String.eqb s "{}" then Some (VObj [])
       else if String.eqb s "null" then Some VNull
       else None;
     buildValidationPrompt := "You are an expert audit report compliance validator." |}.

Lemma selected_text_parsed_or_malformed_witness :
  jsonText "Sure: {a} and {b} done" = "{a} and {b}"
  /\ jsonText "no json here" = "no json here"
  /\ (exists result,
        V1_dynamic.analyzeDocument sample_engine sample_env
          (replying_service "Here is the result: {} Hope this helps!")
          sample_text
        = (Normal result,
           [V1_dynamic.request
              (replying_service "Here is the result: {} Hope this helps!")
              sample_text])
        /\ V1_dynamic.issues result = [])
  /\ V1_dynamic.analyzeDocument sample_engine sample_env
       (replying_service "Here is the result: { issues: [") sample_text
     = (Thrown (new_Error "Analysis failed: Invalid JSON response from Claude"),
        [V1_dynamic.request
           (replying_service "Here is the result: { issues: [") sample_text]).
Proof.
  split; [|split; [|split]].
  - destruct (selected_text_parsed_or_malformed sample_engine sample_env
                (replying_service "") sample_text "Sure: {a} and {b} done")
      as (Hbraces & _).
    apply (Hbraces "Sure: " "a} and {b" " done"); reflexivity.
  - destruct (selected_text_parsed_or_malformed sample_engine sample_env
                (replying_service "") sample_text "no json here")
      as (_ & _ & Hnone & _).
    apply Hnone. left. reflexivity.
  - destruct (selected_text_parsed_or_malformed sample_engine sample_env
                (replying_service "Here is the result: {} Hope this helps!")
                sample_text "Here is the result: {} Hope this helps!")
      as (_ & _ & _ & _ & _ & Hrun).
    destruct Hrun as [Hok _]; [vm_compute; discriminate | reflexivity |].
    eexists. split; [rewrite (Hok (VObj []) eq_refl); reflexivity | reflexivity].
  - destruct (selected_text_parsed_or_malformed sample_engine sample_env
                (replying_service "Here is the result: { issues: [")
                sample_text "Here is the result: { issues: [")
      as (_ & _ & _ & _ & _ & Hrun).
    destruct Hrun as [_ Hfail]; [vm_compute; discriminate | reflexivity |].
    apply Hfail. reflexivity.
Defined.

End ParserFacts.

(** ** The size check of the engine *)

Section SizeCheck.

Local Open Scope Z_scope.

(** The error [analyzeDocument] throws for an oversized document. *)
Definition document_too_large : JsError :=
  new_Error ("Analysis failed: " ++ too_large_message).

Lemma V1_oversized env svc documentText :
  200000 < Js.len documentText ->
  V1.analyzeDocument env svc documentText = (inl document_too_large, []).
Proof.
  intros H. unfold V1.analyzeDocument. apply Z.ltb_lt in H. rewrite H.
  reflexivity.
Qed.

Lemma V1_sized env svc documentText :
  Js.len documentText <= 200000 ->
  snd (V1.analyzeDocument env svc documentText) = [V1.request svc documentText].
Proof.
  intros H. unfold V1.analyzeDocument. apply Z.ltb_ge in H. rewrite H.
  unfold try_catch, bind, invoke, ret, parseReply, throw.
  destruct (complete svc (V1.request svc documentText)) as [e|reply].
  - unfold on_failure, throw. repeat destruct (decide _); try reflexivity.
    destruct (Js.includes _ _); reflexivity.
  - destruct (JSON_parse svc (Parser.jsonText reply)); reflexivity.
Qed.

Lemma V2_oversized env svc stringify doc :
  V2.too_large doc = true ->
  V2.analyzeDocument env svc stringify doc = (inl document_too_large, []).
Proof.
  intros H. unfold V2.analyzeDocument. rewrite H. reflexivity.
Qed.

Lemma V2_sized env svc stringify doc :
  V2.too_large doc = false ->
  snd (V2.analyzeDocument env svc stringify doc) = [V2.request svc stringify doc].
Proof.
  intros H. unfold V2.analyzeDocument. rewrite H.
  unfold try_catch, bind, invoke, ret, parseReply, throw.
  destruct (complete svc (V2.request svc stringify doc)) as [e|reply].
  - unfold on_failure, throw. repeat destruct (decide _); try reflexivity.
    destruct (Js.includes _ _); reflexivity.
  - destruct (JSON_parse svc (Parser.jsonText reply)); reflexivity.
Qed.

Lemma V2_oversize_iff doc :
  V2.too_large doc = true
  <-> exists s, V2.fullText doc = Some s /\ 200000 < Js.len s.
Proof.
  unfold V2.too_large. destruct (V2.fullText doc) as [s|].
  - rewrite Z.ltb_lt. split.
    + intros H. exists s. now split.
    + intros (s' & E & H). now injection E as ->.
  - split; [discriminate | intros (s & E & _); discriminate].
Qed.

(** C9.  [analyzeDocument] throws the size error without having called the
    model exactly when the full text is longer than 200,000 characters; for
    every other document the model is called, once.  This holds for both
    processing versions. *)
Theorem size_check_precedes_model_call
    (env : Env) (svc1 : Service V1.Reply) (svc2 : Service V2.Reply)
    (stringify : V2.DocumentStructure -> string)
    (documentText : string) (doc : V2.DocumentStructure) :
  (200000 < Js.len documentText
   <-> V1.analyzeDocument env svc1 documentText = (inl document_too_large, []))
  /\ (Js.len documentText <= 200000 ->
      snd (V1.analyzeDocument env svc1 documentText)
      = [V1.request svc1 documentText])
  /\ ((exists s, V2.fullText doc = Some s /\ 200000 < Js.len s)
      <-> V2.analyzeDocument env svc2 stringify doc = (inl document_too_large, []))
  /\ (~ (exists s, V2.fullText doc = Some s /\ 200000 < Js.len s) ->
      snd (V2.analyzeDocument env svc2 stringify doc)
      = [V2.request svc2 stringify doc]).
Proof.
  split; [|split; [|split]].
  - split; [apply V1_oversized|].
    intros E. destruct (Z.lt_ge_cases 200000 (Js.len documentText)) as [|Hle];
      [assumption|].
    pose proof (V1_sized env svc1 documentText Hle) as Hcall.
    rewrite E in Hcall. discriminate.
  - apply V1_sized.
  - rewrite <- V2_oversize_iff. split; [apply V2_oversized|].
    intros E. destruct (V2.too_large doc) eqn:Hbig; [reflexivity|].
    pose proof (V2_sized env svc2 stringify doc Hbig) as Hcall.
    rewrite E in Hcall. discriminate.
  - rewrite <- V2_oversize_iff. intros Hsmall. apply V2_sized.
    now destruct (V2.too_large doc).
Qed.

(** A text of 200,001 characters, and the sample text of 34. *)
Definition oversized_text : string :=
  Pos.iter (String "a"%char) EmptyString 200001%positive.

Definition idle_service {Reply : Type} : Service Reply :=
  {| complete := fun _ => inl (new_Error "connection refused");
     JSON_parse := fun _ => None;
     buildValidationPrompt := "You are an expert audit report compliance validator." |}.

Lemma size_check_precedes_model_call_witness :
  V1.analyzeDocument sample_env idle_service oversized_text
    = (inl document_too_large, [])
  /\ snd (V1.analyzeDocument sample_env idle_service sample_text)
    = [V1.request idle_service sample_text]
  /\ V2.analyzeDocument sample_env idle_service (fun _ => "{}"%string)
       {| V2.fullText := Some oversized_text; V2.paragraphs := Some [] |}
    = (inl document_too_large, [])
  /\ snd (V2.analyzeDocument sample_env idle_service (fun _ => "{}"%string)
            sample_document)
    = [V2.request idle_service (fun _ => "{}"%string) sample_document].
Proof.
  assert (200000 < Js.len oversized_text) as Hbig by (vm_compute; reflexivity).
  destruct (size_check_precedes_model_call sample_env idle_service idle_service
              (fun _ => "{}"%string) oversized_text
              {| V2.fullText := Some oversized_text; V2.paragraphs := Some [] |})
    as (Hv1 & _ & Hv2 & _).
  destruct (size_check_precedes_model_call sample_env idle_service idle_service
              (fun _ => "{}"%string) sample_text sample_document)
    as (_ & Hcall1 & _ & Hcall2).
  split; [|split; [|split]].
  - apply Hv1, Hbig.
  - apply Hcall1. vm_compute. discriminate.
  - apply Hv2. exists oversized_text. split; [reflexivity | exact Hbig].
  - apply Hcall2. intros (s & E & Hs). injection E as <-.
    vm_compute in Hs. discriminate.
Defined.

End SizeCheck.

(** ** The analyze endpoint *)

Section Endpoint.

Import Api.

Local Open Scope Z_scope.

(** The document the endpoint hands to the service. *)
Definition chosen_document (body : JsValue) : JsValue :=
  if truthy (get body "documentStructure") then get body "documentStructure"
  else JObj [("fullText"%string, get body "documentText")].

(** [llmService.analyzeDocument] of the paragraph-form service, as the
    endpoint sees it; [decode] reads the object it passes as a document. *)
Definition service_call (env : Env) (svc : Service V2.Reply)
    (stringify : V2.DocumentStructure -> string)
    (decode : JsValue -> V2.DocumentStructure) (doc : JsValue)
  : JsError + V2.Result :=
  fst (V2.analyzeDocument env svc stringify (decode doc)).

Lemma on_failure_code {X : Type} (e0 e : JsError) (log : list Request) :
  @on_failure X e0 = (inl e, log) -> code e = None.
Proof.
  unfold on_failure, throw.
  repeat destruct (decide _); try (intros [= <- _]; reflexivity).
  destruct (Js.includes _ _); intros [= <- _]; reflexivity.
Qed.

Lemma try_catch_on_failure_code {X : Type} (m : Eff X) (e : JsError) :
  fst (try_catch m on_failure) = inl e -> code e = None.
Proof.
  unfold try_catch. destruct m as [[e0|x] log]; [|discriminate].
  destruct (@on_failure X e0) as [r log'] eqn:E. simpl. intros ->.
  exact (on_failure_code _ _ _ E).
Qed.

Lemma V1_failure_code env svc documentText e :
  fst (V1.analyzeDocument env svc documentText) = inl e -> code e = None.
Proof. apply try_catch_on_failure_code. Qed.

Lemma V2_failure_code env svc stringify doc e :
  fst (V2.analyzeDocument env svc stringify doc) = inl e -> code e = None.
Proof. apply try_catch_on_failure_code. Qed.

Lemma statusCode_without_code (e : JsError) : code e = None -> statusCode e = 500.
Proof. intros H. unfold statusCode. rewrite H. reflexivity. Qed.

(** C5.  What the code does when the analysis fails: every error thrown by
    [analyzeDocument] is a plain [Error] without a [code], so the endpoint
    answers a valid request whose analysis fails with status 500, whatever
    the failure was.  The statuses 413, 429 and 401 of the claim are never
    sent for a failed analysis. *)
Theorem failed_analysis_answered_500
    (env : Env) (svc : Service V2.Reply)
    (stringify : V2.DocumentStructure -> string)
    (decode : JsValue -> V2.DocumentStructure) (body : JsValue) (e : JsError) :
  valid (validateRequest body) = true ->
  service_call env svc stringify decode (chosen_document body) = inl e ->
  handler (service_call env svc stringify decode) "POST" body
  = {| status := 500; analyzed := Some (chosen_document body) |}.
Proof.
  intros Hvalid Hfail. unfold handler. cbn [String.eqb Ascii.eqb Bool.eqb negb].
  rewrite Hvalid. cbn [negb]. fold (chosen_document body). rewrite Hfail.
  rewrite statusCode_without_code; [reflexivity|].
  exact (V2_failure_code _ _ _ _ _ Hfail).
Qed.

(** A text of 102 characters. *)
Definition long_enough_text : string :=
  (sample_text ++ sample_text ++ sample_text)%string.

(** Services whose model call fails with a rate-limit error, with an
    authentication error, and a document over the size limit. *)
Definition failing_service (kind : string) : Service V2.Reply :=
  {| complete := fun _ =>
       inl {| type := Some kind; message := "upstream failure"; code := None |};
     JSON_parse := fun _ => None;
     buildValidationPrompt := "You are an expert audit report compliance validator." |}.

Definition plain_body : JsValue :=
  JObj [("documentText"%string, JStr long_enough_text)].

Definition oversized_structure_body : JsValue :=
  JObj [("documentText"%string, JStr long_enough_text);
        ("documentStructure"%string, JObj [("fullText"%string, JStr oversized_text)])].

(** The document as the service reads it: its [fullText] when that is a
    string, and no paragraphs. *)
Definition decode_fullText (doc : JsValue) : V2.DocumentStructure :=
  {| V2.fullText :=
       match get doc "fullText" with
       | JStr s => Some s
       | _ => None
       end;
     V2.paragraphs := None |}.

Lemma failed_analysis_answered_500_witness :
  status (handler (service_call sample_env (failing_service "rate_limit_error")
                     (fun _ => "{}"%string) decode_fullText)
            "POST" plain_body) = 500
  /\ status (handler (service_call sample_env (failing_service "authentication_error")
                        (fun _ => "{}"%string) decode_fullText)
               "POST" plain_body) = 500
  /\ status (handler (service_call sample_env (failing_service "rate_limit_error")
                        (fun _ => "{}"%string) decode_fullText)
               "POST" oversized_structure_body) = 500.
Proof.
  split; [|split].
  - rewrite (failed_analysis_answered_500 sample_env
               (failing_service "rate_limit_error") (fun _ => "{}"%string)
               decode_fullText plain_body
               (new_Error "Rate limit exceeded. Please wait and try again."));
      reflexivity.
  - rewrite (failed_analysis_answered_500 sample_env
               (failing_service "authentication_error") (fun _ => "{}"%string)
               decode_fullText plain_body
               (new_Error "Invalid API key. Please check your Anthropic API key."));
      reflexivity.
  - rewrite (failed_analysis_answered_500 sample_env
               (failing_service "rate_limit_error") (fun _ => "{}"%string)
               decode_fullText oversized_structure_body document_too_large).
    + reflexivity.
    + vm_compute. reflexivity.
    + vm_compute. reflexivity.
Defined.

(** *** The lower size bound of request validation *)

(** The claim on plain text: a [documentText] that is a string shorter than
    100 characters makes the request invalid. *)
Definition short_text_always_invalid : Prop :=
  forall (body : JsValue) (s : string),
    get body "documentText" = JStr s -> Js.len s < 100 ->
    valid (validateRequest body) = false.

(** The claim on structures: a [documentStructure.fullText] shorter than 100
    characters makes the request invalid. *)
Definition short_fullText_always_invalid : Prop :=
  forall (body : JsValue) (s : string),
    get (get body "documentStructure") "fullText" = JStr s -> Js.len s < 100 ->
    valid (validateRequest body) = false.

(** A request with an empty [documentText] next to a structure of 102
    characters, and a request with a text of 102 characters next to a
    structure of 9. *)
Definition empty_text_body : JsValue :=
  JObj [("documentText"%string, JStr EmptyString);
        ("documentStructure"%string,
         JObj [("fullText"%string, JStr long_enough_text);
               ("paragraphs"%string, JArr [])])].

Definition short_structure_body : JsValue :=
  JObj [("documentText"%string, JStr long_enough_text);
        ("documentStructure"%string,
         JObj [("fullText"%string, JStr "wrongword");
               ("paragraphs"%string, JArr [])])].

(** C10, as stated, fails on both of its halves: each of the two requests is
    classified valid. *)
Lemma short_documents_pass_validation :
  ~ short_text_always_invalid /\ ~ short_fullText_always_invalid.
Proof.
  split; intros Hclaim.
  - specialize (Hclaim empty_text_body EmptyString eq_refl eq_refl).
    vm_compute in Hclaim. discriminate.
  - specialize (Hclaim short_structure_body "wrongword"%string eq_refl eq_refl).
    vm_compute in Hclaim. discriminate.
Qed.

Lemma invalid_of_document_error (body : JsValue) :
  truthy body = true ->
  document_errors (get body "documentText") (get body "documentStructure") <> [] ->
  valid (validateRequest body) = false.
Proof.
  intros Hbody Herr. unfold validateRequest. rewrite Hbody. cbn [negb valid].
  destruct (document_errors _ _) as [|m l]; [congruence | reflexivity].
Qed.

Lemma get_string_truthy (v : JsValue) (k s : string) :
  get v k = JStr s -> truthy v = true /\ is_object v = true.
Proof. destruct v; simpl; try discriminate. now split. Qed.

(** C10, amended.  Request validation classifies as invalid every request
    whose [documentText] is a non-empty string shorter than 100 characters,
    and every request without a [documentText] (absent, or empty, or
    otherwise falsy) whose [documentStructure.fullText] is a string shorter
    than 100 characters; the endpoint answers such a POST request with
    status 400 and does not call the service. *)
Theorem short_document_rejected
    {R : Type} (analyzeDocument : JsValue -> JsError + R)
    (body : JsValue) (s : string) :
  Js.len s < 100 ->
  (get body "documentText" = JStr s /\ s <> EmptyString)
  \/ (truthy (get body "documentText") = false
      /\ get (get body "documentStructure") "fullText" = JStr s) ->
  valid (validateRequest body) = false
  /\ handler analyzeDocument "POST" body = {| status := 400; analyzed := None |}.
Proof.
  intros Hshort Hcase.
  assert (valid (validateRequest body) = false) as Hinvalid.
  { destruct Hcase as [[Htext Hne]|[Hfalsy Hfull]].
    - apply invalid_of_document_error.
      + apply (get_string_truthy _ _ _ Htext).
      + unfold document_errors. rewrite Htext.
        destruct s as [|c s]; [congruence|].
        cbn [truthy String.eqb negb andb is_string length_of lt_num].
        apply Z.ltb_lt in Hshort. rewrite Hshort. discriminate.
    - destruct (get_string_truthy _ _ _ Hfull) as [Hds Hobj].
      apply invalid_of_document_error.
      + destruct (get body "documentStructure") eqn:E; try discriminate.
        destruct body; simpl in E; try discriminate. reflexivity.
      + unfold document_errors.
        rewrite Hfalsy, Hds, Hobj, Hfull. cbn [negb andb length_of lt_num].
        apply Z.ltb_lt in Hshort. rewrite Hshort.
        destruct (negb (truthy (JStr s))); [discriminate|].
        destruct (_ || _); discriminate. }
  split; [exact Hinvalid|].
  unfold handler. cbn [String.eqb Ascii.eqb Bool.eqb negb].
  rewrite Hinvalid. reflexivity.
Qed.

Lemma short_document_rejected_witness :
  handler (fun _ : JsValue => @inr JsError unit tt) "POST"
          (JObj [("documentText"%string, JStr "The wrongword is here.")])
    = {| status := 400; analyzed := None |}
  /\ handler (fun _ : JsValue => @inr JsError unit tt) "POST"
          (JObj [("documentStructure"%string,
                  JObj [("fullText"%string, JStr "wrongword");
                        ("paragraphs"%string, JArr [])])])
    = {| status := 400; analyzed := None |}.
Proof.
  split.
  - apply (short_document_rejected (fun _ => inr tt) _ "The wrongword is here.").
    + reflexivity.
    + left. split; [reflexivity | discriminate].
  - apply (short_document_rejected (fun _ => inr tt) _ "wrongword").
    + reflexivity.
    + right. split; reflexivity.
Defined.

End Endpoint.

(** ** Admission control *)

Section Admission.

Import RateLimit.

Local Open Scope Z_scope.

(** The instants recorded for a key; none when the key has no record. *)
Definition requests_of (store : gmap string Data) (k : string) : list Z :=
  match store !! k with
  | Some data => requests data
  | None => []
  end.

(** The store after the cleanup draw of a call. *)
Definition after_cleanup (store : gmap string Data) (call : Call)
  : gmap string Data :=
  match cleanup call with
  | Some dateNow =>
      cleanupOldEntries (now call - windowMs (options call)) dateNow store
  | None => store
  end.

Lemma recent_idempotent cutoff l : recent cutoff (recent cutoff l) = recent cutoff l.
Proof.
  unfold recent. induction l as [|t l IH]; simpl; [reflexivity|].
  destruct (cutoff <? t) eqn:E; simpl; [rewrite E; f_equal|]; exact IH.
Qed.

Lemma recent_all cutoff l :
  Forall (fun t => cutoff < t) l -> recent cutoff l = l.
Proof.
  unfold recent. induction 1 as [|t l Ht _ IH]; simpl; [reflexivity|].
  apply Z.ltb_lt in Ht. rewrite Ht, IH. reflexivity.
Qed.

Lemma length_zero_nil {X : Type} (l : list X) :
  (length l =? 0)%nat = true -> l = [].
Proof. destruct l; [reflexivity | discriminate]. Qed.

(** A cleanup filters the instants of every key with the cutoff of the call
    that triggered it. *)
Lemma requests_of_cleanup cutoff dateNow (store : gmap string Data) k :
  requests_of (cleanupOldEntries cutoff dateNow store) k
  = recent cutoff (requests_of store k).
Proof.
  unfold requests_of, cleanupOldEntries. rewrite lookup_omap.
  destruct (store !! k) as [data|]; simpl; [|reflexivity].
  unfold cleanup_entry.
  destruct (length (recent cutoff (requests data)) =? 0)%nat eqn:E; simpl.
  - apply length_zero_nil in E.
    destruct (resetTime data <? dateNow); simpl; now rewrite E.
  - reflexivity.
Qed.

Lemma kept_after_cleanup (store : gmap string Data) (call : Call) :
  recent (now call - windowMs (options call))
         (requests_of (after_cleanup store call) (key call))
  = recent (now call - windowMs (options call)) (requests_of store (key call)).
Proof.
  unfold after_cleanup. destruct (cleanup call); [|reflexivity].
  rewrite requests_of_cleanup. apply recent_idempotent.
Qed.

(** The instants [rateLimit] retains for the key of a call: the recorded
    ones that lie within the window of the call. *)
Definition retained (store : gmap string Data) (call : Call) : list Z :=
  recent (now call - windowMs (options call)) (requests_of store (key call)).

Lemma kept_is_retained (store : gmap string Data) (call : Call) :
  recent (now call - windowMs (options call))
    (requests
       match after_cleanup store call !! key call with
       | Some data => data
       | None => {| requests := [];
                    resetTime := now call + windowMs (options call) |}
       end)
  = retained store call.
Proof.
  unfold retained. rewrite <- (kept_after_cleanup store call).
  unfold requests_of.
  destruct (after_cleanup store call !! key call); reflexivity.
Qed.

Lemma rateLimit_admits (store : gmap string Data) (call : Call) :
  Z.of_nat (length (retained store call)) < max (options call) ->
  fst (rateLimit store call)
  = {| success := true; limit := max (options call);
       remaining := max (options call)
                    - Z.of_nat (length (retained store call ++ [now call]));
       retryAfter := Fin 0;
       decision_resetTime := now call + windowMs (options call) |}
  /\ requests_of (snd (rateLimit store call)) (key call)
     = retained store call ++ [now call].
Proof.
  intros Hroom. unfold rateLimit. fold (after_cleanup store call).
  rewrite kept_is_retained.
  apply Z.leb_gt in Hroom. rewrite Hroom. split; [reflexivity|].
  cbn [snd]. unfold requests_of. rewrite lookup_insert_eq. reflexivity.
Qed.

Lemma rateLimit_refuses (store : gmap string Data) (call : Call) :
  max (options call) <= Z.of_nat (length (retained store call)) ->
  success (fst (rateLimit store call)) = false
  /\ remaining (fst (rateLimit store call)) = 0
  /\ retryAfter (fst (rateLimit store call))
     = retry_after (minimum (retained store call))
                   (windowMs (options call)) (now call)
  /\ requests_of (snd (rateLimit store call)) (key call) = retained store call.
Proof.
  intros Hfull. unfold rateLimit. fold (after_cleanup store call).
  rewrite kept_is_retained.
  apply Z.leb_le in Hfull. rewrite Hfull. cbn [fst snd success remaining retryAfter].
  repeat split. unfold requests_of. rewrite lookup_insert_eq. reflexivity.
Qed.

Lemma ceil_div_1000_positive x : 0 < x -> 0 < ceil_div_1000 x.
Proof.
  intros Hx. unfold ceil_div_1000.
  assert (- x / 1000 < 0) by (apply Z.div_lt_upper_bound; lia). lia.
Qed.

(** A call of [rateLimitAdvanced] on the analyze endpoint. *)
Definition analyze_call (k : string) (t : Z) (c : option Z) : Call :=
  {| key := k; now := t; options := limits "/api/v1/analyze"; cleanup := c |}.

Lemma rateLimitAdvanced_analyze store k t c :
  rateLimitAdvanced store k "/api/v1/analyze" t c = rateLimit store (analyze_call k t c).
Proof. reflexivity. Qed.

Lemma analyze_options k t c :
  max (options (analyze_call k t c)) = 5
  /\ windowMs (options (analyze_call k t c)) = 900000.
Proof. split; reflexivity. Qed.

Lemma run_cons (store : gmap string Data) (call : Call) (rest : list Call) :
  run store (call :: rest)
  = (fst (rateLimit store call) :: fst (run (snd (rateLimit store call)) rest),
     snd (run (snd (rateLimit store call)) rest)).
Proof.
  cbn [run]. destruct (rateLimit store call) as [d store']. cbn [fst snd].
  destruct (run store' rest) as [ds final]. reflexivity.
Qed.

Lemma retained_analyze (store : gmap string Data) k t c l :
  requests_of store k = l ->
  Forall (fun t' => t - 900000 < t') l ->
  retained store (analyze_call k t c) = l.
Proof.
  intros Hl Hall. unfold retained. cbn [key now options analyze_call].
  rewrite Hl. apply recent_all, Hall.
Qed.

(** C4.  With the tier of the analyze endpoint (5 requests per 900000 ms),
    six consecutive checks of a key that has no record, made at instants
    [t1 <= ... <= t6] less than a window apart, whatever the cleanup draws
    and whatever else the store holds: the first five are allowed with
    [remaining] 4, 3, 2, 1, 0 and the sixth is refused with a positive
    [retryAfter]. *)
Theorem five_allowed_then_refused
    (store : gmap string Data) (k : string)
    (t1 t2 t3 t4 t5 t6 : Z) (c1 c2 c3 c4 c5 c6 : option Z) :
  store !! k = None ->
  t1 <= t2 -> t2 <= t3 -> t3 <= t4 -> t4 <= t5 -> t5 <= t6 ->
  t6 < t1 + 900000 ->
  let decisions :=
    fst (run store [analyze_call k t1 c1; analyze_call k t2 c2;
                    analyze_call k t3 c3; analyze_call k t4 c4;
                    analyze_call k t5 c5; analyze_call k t6 c6]) in
  map success decisions = [true; true; true; true; true; false]
  /\ map remaining decisions = [4; 3; 2; 1; 0; 0]
  /\ exists r, map retryAfter decisions
               = [Fin 0; Fin 0; Fin 0; Fin 0; Fin 0; Fin r] /\ 0 < r.
Proof.
  intros Hfresh H12 H23 H34 H45 H56 Hwin decisions.
  assert (requests_of store k = []) as R0 by (unfold requests_of; now rewrite Hfresh).
  assert (retained store (analyze_call k t1 c1) = []) as K1
    by (apply retained_analyze with (l := []); [exact R0 | constructor]).
  destruct (rateLimit_admits store (analyze_call k t1 c1)) as [D1 R1];
    [rewrite K1; reflexivity|].
  rewrite K1 in D1, R1. set (s1 := snd (rateLimit store (analyze_call k t1 c1))) in *.
  assert (retained s1 (analyze_call k t2 c2) = [t1]) as K2
    by (apply retained_analyze; [exact R1 | repeat constructor; lia]).
  destruct (rateLimit_admits s1 (analyze_call k t2 c2)) as [D2 R2];
    [rewrite K2; reflexivity|].
  rewrite K2 in D2, R2. set (s2 := snd (rateLimit s1 (analyze_call k t2 c2))) in *.
  assert (retained s2 (analyze_call k t3 c3) = [t1; t2]) as K3
    by (apply retained_analyze; [exact R2 | repeat constructor; lia]).
  destruct (rateLimit_admits s2 (analyze_call k t3 c3)) as [D3 R3];
    [rewrite K3; reflexivity|].
  rewrite K3 in D3, R3. set (s3 := snd (rateLimit s2 (analyze_call k t3 c3))) in *.
  assert (retained s3 (analyze_call k t4 c4) = [t1; t2; t3]) as K4
    by (apply retained_analyze; [exact R3 | repeat constructor; lia]).
  destruct (rateLimit_admits s3 (analyze_call k t4 c4)) as [D4 R4];
    [rewrite K4; reflexivity|].
  rewrite K4 in D4, R4. set (s4 := snd (rateLimit s3 (analyze_call k t4 c4))) in *.
  assert (retained s4 (analyze_call k t5 c5) = [t1; t2; t3; t4]) as K5
    by (apply retained_analyze; [exact R4 | repeat constructor; lia]).
  destruct (rateLimit_admits s4 (analyze_call k t5 c5)) as [D5 R5];
    [rewrite K5; reflexivity|].
  rewrite K5 in D5, R5. set (s5 := snd (rateLimit s4 (analyze_call k t5 c5))) in *.
  assert (retained s5 (analyze_call k t6 c6) = [t1; t2; t3; t4; t5]) as K6
    by (apply retained_analyze; [exact R5 | repeat constructor; lia]).
  destruct (rateLimit_refuses s5 (analyze_call k t6 c6)) as (D6s & D6r & D6a & _);
    [rewrite K6; cbn; lia|].
  rewrite K6 in D6a.
  unfold decisions. rewrite !run_cons. cbn [run fst snd map].
  fold s1. fold s2. fold s3. fold s4. fold s5.
  rewrite D1, D2, D3, D4, D5, D6s, D6r, D6a.
  cbn [success remaining retryAfter analyze_call options limits String.eqb
       Ascii.eqb Bool.eqb max windowMs key now app length].
  split; [reflexivity|]. split; [reflexivity|].
  exists (ceil_div_1000 (fold_left Z.min [t2; t3; t4; t5] t1 + 15 * 60 * 1000 - t6)).
  split; [reflexivity|]. apply ceil_div_1000_positive.
  cbn [fold_left]. lia.
Qed.

(** Six checks of one address, a second apart, the second and the fifth
    with a cleanup. *)
Definition six_checks : list Call :=
  [analyze_call "203.0.113.7" 1000 None;
   analyze_call "203.0.113.7" 2000 (Some 2000);
   analyze_call "203.0.113.7" 3000 None;
   analyze_call "203.0.113.7" 4000 None;
   analyze_call "203.0.113.7" 5000 (Some 5001);
   analyze_call "203.0.113.7" 6000 None].

Lemma five_allowed_then_refused_witness :
  map success (fst (run ∅ six_checks)) = [true; true; true; true; true; false]
  /\ map remaining (fst (run ∅ six_checks)) = [4; 3; 2; 1; 0; 0]
  /\ exists r, map retryAfter (fst (run ∅ six_checks))
               = [Fin 0; Fin 0; Fin 0; Fin 0; Fin 0; Fin r] /\ 0 < r.
Proof.
  apply (five_allowed_then_refused ∅ "203.0.113.7"
           1000 2000 3000 4000 5000 6000
           None (Some 2000) None None (Some 5001) None);
    [reflexivity | lia | lia | lia | lia | lia | lia].
Defined.

(** *** The window bound and the cleanup *)

(** The number of checks of key [k] that were allowed at an instant of the
    trailing window [(t - windowMs, t]]. *)
Definition allowed_within (k : string) (windowMs t : Z)
    (calls : list Call) (decisions : list Outcome) : nat :=
  length
    (List.filter
       (fun cd : Call * Outcome =>
          String.eqb (key (fst cd)) k && success (snd cd)
          && (t - windowMs <? now (fst cd)) && (now (fst cd) <=? t))
       (combine calls decisions)).

(** The instants at which checks of key [k] were allowed, in order. *)
Definition allowed_instants (k : string)
    (calls : list Call) (decisions : list Outcome) : list Z :=
  map (fun cd : Call * Outcome => now (fst cd))
      (List.filter
         (fun cd : Call * Outcome =>
            String.eqb (key (fst cd)) k && success (snd cd))
         (combine calls decisions)).

(** The instant [a] lies in the trailing window [(t - windowMs, t]]. *)
Definition in_window (windowMs t a : Z) : bool :=
  (t - windowMs <? a) && (a <=? t).

(** The calls are made at instants that do not decrease, from [t] on. *)
Fixpoint chronological (t : Z) (calls : list Call) : Prop :=
  match calls with
  | [] => True
  | c :: rest => t <= now c /\ chronological (now c) rest
  end.

Lemma allowed_within_instants k w t calls decisions :
  allowed_within k w t calls decisions
  = length (List.filter (in_window w t) (allowed_instants k calls decisions)).
Proof.
  unfold allowed_within, allowed_instants, in_window.
  induction (combine calls decisions) as [|cd l IH]; [reflexivity|].
  cbn [List.filter].
  destruct (String.eqb (key (fst cd)) k && success (snd cd)) eqn:E1;
    cbn [map List.filter]; cbn [andb];
    [destruct (_ <? _); cbn [andb]; [destruct (_ <=? _)|]|];
    cbn [length]; rewrite ?IH; reflexivity.
Qed.

Lemma recent_recent cutoff1 cutoff2 l :
  cutoff1 <= cutoff2 -> recent cutoff2 (recent cutoff1 l) = recent cutoff2 l.
Proof.
  intros Hle. unfold recent. induction l as [|a l IH]; [reflexivity|].
  cbn [List.filter]. destruct (cutoff1 <? a) eqn:E1.
  - cbn [List.filter]. rewrite IH. reflexivity.
  - rewrite IH. assert ((cutoff2 <? a) = false) as ->; [|reflexivity].
    apply Z.ltb_ge. apply Z.ltb_ge in E1. lia.
Qed.

Lemma recent_app cutoff l1 l2 :
  recent cutoff (l1 ++ l2) = recent cutoff l1 ++ recent cutoff l2.
Proof. apply List.filter_app. Qed.

Lemma filter_length_le {X : Type} (f g : X -> bool) (l : list X) :
  Forall (fun x => f x = true -> g x = true) l ->
  (length (List.filter f l) <= length (List.filter g l))%nat.
Proof.
  induction 1 as [|x l Hx _ IH]; [reflexivity|]. cbn [List.filter].
  destruct (f x); [rewrite Hx by reflexivity|destruct (g x)]; cbn [length]; lia.
Qed.

(** After a call at instant [next], the record of another key holds, within
    a window [w] that is not longer than the window of any call that draws a
    cleanup, what it held before. *)
Lemma requests_of_other_key (store : gmap string Data) (call : Call) k w :
  key call <> k ->
  (cleanup call <> None -> w <= windowMs (options call)) ->
  recent (now call - w) (requests_of (snd (rateLimit store call)) k)
  = recent (now call - w) (requests_of store k).
Proof.
  intros Hk Hw.
  assert (requests_of (snd (rateLimit store call)) k
          = requests_of (after_cleanup store call) k) as ->.
  { unfold rateLimit. fold (after_cleanup store call).
    destruct (_ <=? _); cbn [snd]; unfold requests_of;
      now rewrite lookup_insert_ne. }
  unfold after_cleanup. destruct (cleanup call) as [dateNow|]; [|reflexivity].
  rewrite requests_of_cleanup. apply recent_recent.
  specialize (Hw ltac:(discriminate)). lia.
Qed.

Lemma retained_lifted (store : gmap string Data) (call : Call) t l :
  t <= now call ->
  recent (t - windowMs (options call)) (requests_of store (key call))
  = recent (t - windowMs (options call)) l ->
  retained store call = recent (now call - windowMs (options call)) l.
Proof.
  intros Ht Hl. unfold retained.
  rewrite <- (recent_recent (t - windowMs (options call))
                (now call - windowMs (options call))) by lia.
  rewrite Hl. apply recent_recent. lia.
Qed.

Section Bound.

Variables (k : string) (w m : Z).
Hypothesis limit_not_negative : 0 <= m.

(** No trailing window holds more than [m] of the instants [l]. *)
Definition window_bounded (l : list Z) : Prop :=
  forall t, Z.of_nat (length (List.filter (in_window w t) l)) <= m.

(** The calls of the run agree with the configuration of [k]: checks of [k]
    use the window [w] and the limit [m], and a call that draws a cleanup
    has a window of at least [w]. *)
Definition agreeing (calls : list Call) : Prop :=
  Forall (fun c =>
            (key c = k -> options c = {| windowMs := w; max := m |})
            /\ (cleanup c <> None -> w <= windowMs (options c)))
         calls.

(** What holds between the store and the instants allowed so far, at an
    instant [t] no earlier than any of them. *)
Definition consistent (store : gmap string Data) (allowed : list Z) (t : Z)
  : Prop :=
  recent (t - w) (requests_of store k) = recent (t - w) allowed
  /\ Forall (fun a => a <= t) allowed
  /\ window_bounded allowed.

Lemma window_bounded_snoc (allowed : list Z) (t : Z) :
  Forall (fun a => a <= t) allowed ->
  window_bounded allowed ->
  Z.of_nat (length (recent (t - w) allowed)) < m ->
  window_bounded (allowed ++ [t]).
Proof.
  intros Hpast Hold Hroom u. rewrite List.filter_app, length_app.
  cbn [List.filter]. destruct (in_window w u t) eqn:E; cbn [length].
  - unfold in_window in E. apply andb_prop in E as [E1 E2].
    apply Z.ltb_lt in E1. apply Z.leb_le in E2.
    assert (length (List.filter (in_window w u) allowed)
            <= length (recent (t - w) allowed))%nat as Hle.
    { apply filter_length_le. eapply List.Forall_impl; [|exact Hpast].
      intros a Ha Hin. cbv beta in Hin. unfold in_window in Hin.
      apply andb_prop in Hin as [Hin _].
      apply Z.ltb_lt in Hin. apply Z.ltb_lt. lia. }
    lia.
  - specialize (Hold u). lia.
Qed.

Lemma consistent_step (store : gmap string Data) (allowed : list Z) (t : Z)
    (call : Call) :
  consistent store allowed t ->
  t <= now call ->
  (key call = k -> options call = {| windowMs := w; max := m |}) ->
  (cleanup call <> None -> w <= windowMs (options call)) ->
  consistent (snd (rateLimit store call))
    (allowed ++ allowed_instants k [call] [fst (rateLimit store call)])
    (now call).
Proof.
  intros (Hagree & Hpast & Hbound) Ht Hopts Hclean.
  assert (Forall (fun a => a <= now call) allowed) as Hpast'
    by (eapply List.Forall_impl; [|exact Hpast]; cbv beta; intros; lia).
  unfold allowed_instants. cbn [combine List.filter fst snd].
  destruct (String.eqb_spec (key call) k) as [Hk|Hk]; cbn [andb].
  - specialize (Hopts Hk).
    assert (retained store call = recent (now call - w) allowed) as Hkept.
    { replace w with (windowMs (options call)) by now rewrite Hopts.
      apply (retained_lifted store call t); [exact Ht|].
      rewrite Hk, Hopts. exact Hagree. }
    destruct (Z.lt_ge_cases (Z.of_nat (length (retained store call))) m)
      as [Hroom|Hfull].
    + destruct (rateLimit_admits store call) as [Hd Hreq];
        [now rewrite Hopts|].
      rewrite Hd. cbn [success map List.filter fst].
      rewrite Hk in Hreq. split; [|split].
      * rewrite Hreq, Hkept, !recent_app, recent_idempotent. reflexivity.
      * apply Forall_app. split; [exact Hpast'|]. repeat constructor. lia.
      * apply window_bounded_snoc; [exact Hpast' | exact Hbound |].
        now rewrite <- Hkept.
    + destruct (rateLimit_refuses store call) as (Hd & _ & _ & Hreq);
        [now rewrite Hopts|].
      rewrite Hd. cbn [map List.filter]. rewrite app_nil_r.
      rewrite Hk in Hreq. split; [|split; assumption].
      rewrite Hreq, Hkept. apply recent_idempotent.
  - cbn [map List.filter]. rewrite app_nil_r. split; [|split; assumption].
    rewrite (requests_of_other_key store call k w Hk Hclean).
    rewrite <- (recent_recent (t - w) (now call - w)) by lia.
    rewrite Hagree. apply recent_recent. lia.
Qed.

Lemma allowed_instants_cons call d calls decisions :
  allowed_instants k (call :: calls) (d :: decisions)
  = allowed_instants k [call] [d] ++ allowed_instants k calls decisions.
Proof.
  unfold allowed_instants. cbn [combine List.filter fst snd].
  destruct (_ && _); reflexivity.
Qed.

Lemma consistent_run (calls : list Call) :
  forall (store : gmap string Data) (allowed : list Z) (t : Z),
    consistent store allowed t ->
    chronological t calls ->
    agreeing calls ->
    window_bounded (allowed ++ allowed_instants k calls (fst (run store calls))).
Proof.
  induction calls as [|call calls IH]; intros store allowed t Hc Hchron Hagree.
  - cbn. rewrite app_nil_r. apply Hc.
  - destruct Hchron as [Ht Hchron]. inversion Hagree as [|? ? [Ho Hcl] Hrest]; subst.
    rewrite run_cons. cbn [fst]. rewrite allowed_instants_cons, app_assoc.
    apply (IH _ _ (now call)); [|assumption|assumption].
    now apply consistent_step with (t := t).
Qed.

(** Where every cleanup is drawn by a call whose window is at least that of
    the key, the sliding window keeps its promise: from a store without
    instants for [k], no trailing window of [w] holds more than [m] allowed
    checks of [k]. *)
Lemma window_bound_without_shorter_cleanup
    (store : gmap string Data) (calls : list Call) (t0 t : Z) :
  requests_of store k = [] ->
  chronological t0 calls ->
  agreeing calls ->
  Z.of_nat (allowed_within k w t calls (fst (run store calls))) <= m.
Proof.
  intros Hfresh Hchron Hagree. rewrite allowed_within_instants.
  apply (consistent_run calls store [] t0); [|assumption|assumption].
  split; [|split].
  - now rewrite Hfresh.
  - constructor.
  - intros u. cbn. exact limit_not_negative.
Qed.

End Bound.

(** A call of [rateLimitAdvanced] on the health endpoint. *)
Definition health_call (k : string) (t : Z) (c : option Z) : Call :=
  {| key := k; now := t; options := limits "/api/v1/health"; cleanup := c |}.

(** One address uses its five analyze requests within five seconds; two
    minutes later another address checks the health endpoint and the cleanup
    draw succeeds; the first address then asks for a sixth analysis. *)
Definition readmitting_run : list Call :=
  [analyze_call "203.0.113.7" 1000 None;
   analyze_call "203.0.113.7" 2000 None;
   analyze_call "203.0.113.7" 3000 None;
   analyze_call "203.0.113.7" 4000 None;
   analyze_call "203.0.113.7" 5000 None;
   health_call "198.51.100.9" 120000 (Some 120000);
   analyze_call "203.0.113.7" 121000 None].

(** C3.  The code at the failing run: the cleanup triggered by the health
    check filters the record of the other address with the cutoff of the
    one-minute window, which empties it, and the sixth analyze request of
    that address is allowed: six checks of one key are allowed within one
    window of 900000 ms whose limit is 5. *)
Theorem cleanup_of_shorter_window_readmits :
  map success (fst (run ∅ readmitting_run))
  = [true; true; true; true; true; true; true]
  /\ requests_of (snd (run ∅ (firstn 5 readmitting_run))) "203.0.113.7"
     = [1000; 2000; 3000; 4000; 5000]
  /\ requests_of (snd (run ∅ (firstn 6 readmitting_run))) "203.0.113.7" = []
  /\ allowed_within "203.0.113.7" 900000 121000
       readmitting_run (fst (run ∅ readmitting_run)) = 6%nat
  /\ max (limits "/api/v1/analyze") = 5.
Proof. vm_compute. repeat split; reflexivity. Qed.

(** The bound as a statement over all runs: calls in chronological order
    from an empty store, the checks of [k] all made with the options
    [opts], other keys checked with any options and cleanups drawn at will. *)
Definition window_bound_always : Prop :=
  forall (calls : list Call) (k : string) (opts : Options) (t0 t : Z),
    chronological t0 calls ->
    Forall (fun c => key c = k -> options c = opts) calls ->
    Z.of_nat (allowed_within k (windowMs opts) t calls (fst (run ∅ calls)))
    <= max opts.

Lemma window_bound_fails : ~ window_bound_always.
Proof.
  intros Hclaim.
  specialize (Hclaim readmitting_run "203.0.113.7" (limits "/api/v1/analyze")
                0 121000).
  assert (chronological 0 readmitting_run) as Hchron
    by (cbn; repeat split; lia).
  assert (Forall (fun c => key c = "203.0.113.7"%string ->
                           options c = limits "/api/v1/analyze")
                 readmitting_run) as Hopts.
  { repeat constructor; cbn [key options analyze_call health_call]; intros E;
      (reflexivity || discriminate E). }
  specialize (Hclaim Hchron Hopts). vm_compute in Hclaim. apply Hclaim.
  reflexivity.
Qed.

(** Without the health check the sixth request is refused. *)
Example sixth_refused_without_cleanup :
  map success
    (fst (run ∅ [analyze_call "203.0.113.7" 1000 None;
                 analyze_call "203.0.113.7" 2000 None;
                 analyze_call "203.0.113.7" 3000 None;
                 analyze_call "203.0.113.7" 4000 None;
                 analyze_call "203.0.113.7" 5000 None;
                 analyze_call "203.0.113.7" 121000 None]))
  = [true; true; true; true; true; false].
Proof. vm_compute. reflexivity. Qed.

End Admission.

(** * Further properties *)

(** ** The loop of [validateAndProcessResults], offset form *)

Section OffsetLoop.

Import V1.

Local Open Scope Z_scope.

(** The findings the loop pushes, in order, when it starts at position [k]
    of the reply. *)
Fixpoint survivors (env : Env) (fullText : string) (k : nat)
    (todo : list Issue) : list Issue :=
  match todo with
  | [] => []
  | issue :: todo' =>
      match validateIssue fullText (genId env k) issue with
      | Accepted i => i :: survivors env fullText (S k) todo'
      | _ => survivors env fullText (S k) todo'
      end
  end.

(** The findings of a reply: [analysisResult.issues], or none when the reply
    has no [issues]. *)
Definition findings (reply : Reply) : list Issue :=
  match reply_issues reply with
  | Some l => l
  | None => []
  end.

(** The number of findings accounted for by one of the three counters. *)
Definition accounted (st : Stats) : nat :=
  (validated st + indexErrors st + textMismatches st)%nat.

Lemma loop_survivors env fullText st k todo :
  validatedIssues (loop env fullText st k todo)
  = validatedIssues st ++ survivors env fullText k todo.
Proof.
  revert st k. induction todo as [|issue todo IH]; intros st k; cbn [loop survivors].
  - now rewrite app_nil_r.
  - rewrite IH. unfold step.
    destruct (validateIssue fullText (genId env k) issue); cbn [validatedIssues];
      [rewrite <- app_assoc|..]; reflexivity.
Qed.

Lemma loop_stats env fullText st k todo :
  let final := stats (loop env fullText st k todo) in
  original final = original (stats st)
  /\ accounted final = (accounted (stats st) + length todo)%nat
  /\ validated final
     = (validated (stats st) + length (survivors env fullText k todo))%nat.
Proof.
  revert st k. induction todo as [|issue todo IH]; intros st k; cbn [loop survivors].
  - cbn. repeat split; lia.
  - destruct (IH (step env fullText st k issue) (S k)) as (Ho & Ha & Hv).
    cbv zeta. rewrite Ho, Ha, Hv. unfold step, accounted.
    destruct (validateIssue fullText (genId env k) issue);
      cbn [stats count original validated indexErrors textMismatches length];
      repeat split; lia.
Qed.

Lemma findings_counted
    (env : Env) (reply : Reply) (fullText : string) :
  let result := validateAndProcessResults env reply fullText in
  let st := validationStats result in
  original st = length (findings reply)
  /\ (validated st + indexErrors st + textMismatches st = original st)%nat
  /\ validated st = length (issues result)
  /\ totalIssues (summary result) = validated st.
Proof.
  intros result st. subst st result. unfold validateAndProcessResults.
  cbn [validationStats issues summary totalIssues].
  fold (findings reply).
  set (start := {| validatedIssues := []; stats := _ |}).
  destruct (loop_stats env fullText start 0 (findings reply)) as (Ho & Ha & Hv).
  cbv zeta in Ho, Ha, Hv. rewrite loop_survivors.
  unfold accounted in Ha. cbn in Ho, Ha, Hv. cbn [validatedIssues start app].
  repeat split; lia.
Qed.

(** A finding as validation leaves it: within bounds, quoting exactly the
    text at its offsets, with an id and an [autoFixable] flag. *)
Definition anchored_in (fullText : string) (issue : Issue) : Prop :=
  within_bounds fullText (location issue)
  /\ exactText (location issue)
     = slice fullText (startIndex (location issue)) (endIndex (location issue))
  /\ id issue <> None
  /\ autoFixable issue <> None.

Lemma bounds_check_within fullText loc :
  (startIndex loc <? 0) || (Js.len fullText <? endIndex loc)
  || (endIndex loc <=? startIndex loc) = false ->
  within_bounds fullText loc.
Proof.
  intros H. apply orb_false_elim in H as [H H3].
  apply orb_false_elim in H as [H1 H2].
  apply Z.ltb_ge in H1, H2. apply Z.leb_gt in H3. unfold within_bounds. lia.
Qed.

Lemma accepted_anchored fullText fresh issue i :
  validateIssue fullText fresh issue = Accepted i -> anchored_in fullText i.
Proof.
  unfold validateIssue.
  destruct (_ || _ || _) eqn:Hb; [discriminate|].
  apply bounds_check_within in Hb.
  rewrite (substring_within_bounds _ _ Hb).
  destruct (String.eqb_spec
              (slice fullText (startIndex (location issue)) (endIndex (location issue)))
              (exactText (location issue))) as [E|E].
  - intros [= <-]. unfold anchored_in. cbn. repeat split; try apply Hb; easy.
  - destruct (fuzzyMatch _ _ _); [|discriminate].
    intros [= <-]. unfold anchored_in. cbn. repeat split; try apply Hb; easy.
Qed.

Lemma survivors_anchored env fullText k todo :
  Forall (anchored_in fullText) (survivors env fullText k todo).
Proof.
  revert k. induction todo as [|issue todo IH]; intros k; cbn [survivors].
  - constructor.
  - destruct (validateIssue fullText (genId env k) issue) eqn:E; try apply IH.
    constructor; [exact (accepted_anchored _ _ _ _ E) | apply IH].
Qed.

Lemma issues_survivors env reply fullText :
  issues (validateAndProcessResults env reply fullText)
  = survivors env fullText 0 (findings reply).
Proof.
  unfold validateAndProcessResults. cbn [issues]. rewrite loop_survivors.
  reflexivity.
Qed.

(** What identifies a finding of the reply in the result: its category, its
    severity and its offsets. *)
Definition footprint (issue : Issue) : string * string * Z * Z :=
  (category issue, severity issue,
   startIndex (location issue), endIndex (location issue)).

Lemma accepted_footprint fullText fresh issue i :
  validateIssue fullText fresh issue = Accepted i -> footprint i = footprint issue.
Proof.
  unfold validateIssue. destruct (_ || _ || _); [discriminate|].
  destruct (String.eqb _ _); [intros [= <-]; reflexivity|].
  destruct (fuzzyMatch _ _ _); [intros [= <-]; reflexivity | discriminate].
Qed.

(** The issues of a result are findings of the reply, in the order of the
    reply and none twice: the loop drops findings, and neither reorders nor
    duplicates them. *)
Theorem returned_issues_in_reply_order
    (env : Env) (reply : Reply) (fullText : string) :
  sublist (map footprint (issues (validateAndProcessResults env reply fullText)))
          (map footprint (findings reply)).
Proof.
  rewrite issues_survivors. generalize 0%nat as k.
  induction (findings reply) as [|issue todo IH]; intros k;
    cbn [survivors map].
  - constructor.
  - destruct (validateIssue fullText (genId env k) issue) eqn:E.
    + cbn [map]. rewrite (accepted_footprint _ _ _ _ E).
      apply sublist_skip, IH.
    + apply sublist_cons, IH.
    + apply sublist_cons, IH.
Qed.

(** An anchored finding with a non-empty id is pushed as it is. *)
Lemma anchored_accepted fullText fresh issue :
  anchored_in fullText issue -> id issue <> Some EmptyString ->
  validateIssue fullText fresh issue = Accepted issue.
Proof.
  intros (Hb & Hx & Hid & Hfix) Hne. unfold validateIssue.
  rewrite (bounds_check_false _ _ Hb), (substring_within_bounds _ _ Hb).
  rewrite <- Hx, String.eqb_refl. f_equal.
  destruct issue as [i c s l a]. cbn in *. unfold ensure_fields. cbn.
  destruct i as [[|ch i]|]; try congruence.
  destruct a as [b|]; [reflexivity | congruence].
Qed.

Lemma survivors_of_anchored env fullText k l :
  Forall (fun i => anchored_in fullText i /\ id i <> Some EmptyString) l ->
  survivors env fullText k l = l.
Proof.
  intros H. revert k. induction H as [|i l [Ha Hne] _ IH]; intros k;
    cbn [survivors]; [reflexivity|].
  rewrite (anchored_accepted _ _ _ Ha Hne), IH. reflexivity.
Qed.

Lemma accepted_id fullText fresh issue i :
  fresh <> EmptyString ->
  validateIssue fullText fresh issue = Accepted i -> id i <> Some EmptyString.
Proof.
  intros Hf. unfold validateIssue. destruct (_ || _ || _); [discriminate|].
  assert (forall j, id (ensure_fields j fresh) <> Some EmptyString) as Hid.
  { intros j. cbn. destruct (id j) as [[|c s]|]; cbn; congruence. }
  destruct (String.eqb _ _); [intros [= <-]; apply Hid|].
  destruct (fuzzyMatch _ _ _); [intros [= <-]; apply Hid | discriminate].
Qed.

(** Validation is idempotent.  When the generated ids are not empty, the
    issues of a result, validated again against the same document (by any
    environment, with any reported summary), are all pushed, unchanged and
    in the same order, and none is counted as rejected. *)
Theorem revalidation_changes_nothing
    (env env' : Env) (reply : Reply) (reported : option Summary)
    (fullText : string) :
  (forall k, genId env k <> EmptyString) ->
  let result := validateAndProcessResults env reply fullText in
  let again :=
    validateAndProcessResults env'
      {| reply_summary := reported; reply_issues := Some (issues result) |}
      fullText in
  issues again = issues result
  /\ summary again = summary result
  /\ indexErrors (validationStats again) = 0%nat
  /\ textMismatches (validationStats again) = 0%nat.
Proof.
  intros Hgen result again.
  assert (issues again = issues result) as Hsame.
  { unfold again. rewrite issues_survivors. cbn [reply_issues findings].
    apply survivors_of_anchored. unfold result. rewrite issues_survivors.
    generalize 0%nat as k.
    induction (findings reply) as [|issue todo IH]; intros k;
      cbn [survivors]; [constructor|].
    destruct (validateIssue fullText (genId env k) issue) eqn:E; try apply IH.
    constructor; [|apply IH]. split.
    - exact (accepted_anchored _ _ _ _ E).
    - exact (accepted_id _ _ _ _ (Hgen k) E). }
  destruct (findings_counted env' 
              {| reply_summary := reported; reply_issues := Some (issues result) |}
              fullText) as (Ho & Ha & Hv & _).
  fold again in Ho, Ha, Hv. cbn [reply_issues findings] in Ho.
  rewrite Hsame in Hv.
  split; [exact Hsame|]. split; [|lia].
  unfold again, result, validateAndProcessResults. cbn [summary].
  fold again result.
  change (validatedIssues (loop env' fullText _ 0 _)) with (issues again).
  change (validatedIssues (loop env fullText _ 0 _)) with (issues result).
  now rewrite Hsame.
Qed.

Lemma revalidation_changes_nothing_witness :
  let reply :=
    {| reply_summary := None;
       reply_issues := Some [sample_issue 4 13 "wrong-word";
                             sample_issue (-1) 13 "wrongword";
                             sample_issue 4 13 "wrongword"] |} in
  let result := validateAndProcessResults sample_env reply sample_text in
  issues result = [sample_issue 4 13 "wrongword"; sample_issue 4 13 "wrongword"]
  /\ issues (validateAndProcessResults sample_env
               {| reply_summary := None; reply_issues := Some (issues result) |}
               sample_text)
     = issues result.
Proof.
  intros reply result. split; [reflexivity|].
  apply (revalidation_changes_nothing sample_env sample_env reply None sample_text).
  intros k. discriminate.
Defined.

End OffsetLoop.

(** ** The loop of [validateAndProcessResults] on dynamic values, offset form *)

(** On two strings the matcher is [fuzzyMatch] on strings. *)
Lemma fuzzyMatch_strings (engine : Dyn.Engine) (str1 str2 : string) :
  V1_dynamic.fuzzyMatch engine str1 (Dyn.VStr str2)
  = Dyn.Normal (fuzzyMatch str1 str2 default_threshold).
Proof.
  unfold V1_dynamic.fuzzyMatch, fuzzyMatch.
  destruct (String.length str1 =? 0)%nat; reflexivity.
Qed.

Section DynamicOffsetLoop.

Import Dyn V1_dynamic.

Local Open Scope nat_scope.

(** How the iteration on one element of [analysisResult.issues] ends: the
    issue is pushed, it is counted by one of the two counters, it is dropped
    without being counted (the [try] block threw before it counted, and the
    [catch] logged), or the [catch] throws in turn, which ends
    [validateAndProcessResults]. *)
Inductive Fate :=
| Pushed (issue : Value)
| CountedIndexError
| CountedTextMismatch
| Dropped
| Escaped (e : JsError)
| NeverEnds.

(** A loop that has pushed and counted nothing. *)
Definition fresh_loop : Loop :=
  {| validatedIssues := [];
     stats := {| V1.original := 0; V1.validated := 0;
                 V1.indexErrors := 0; V1.textMismatches := 0 |} |}.

(** The fate of an element, read off the iteration on a fresh loop. *)
Definition fate (engine : Engine) (originalText fresh : string) (issue : Value)
  : Fate :=
  match validateIssue engine originalText fresh issue fresh_loop with
  | (Normal _, st) =>
      match validatedIssues st with
      | i :: _ => Pushed i
      | [] =>
          if (V1.indexErrors (stats st) =? 1)%nat then CountedIndexError
          else if (V1.textMismatches (stats st) =? 1)%nat then CountedTextMismatch
          else Dropped
      end
  | (Thrown e, _) => Escaped e
  | (Unending, _) => NeverEnds
  end.

(** The iteration does to any loop what it does to a fresh one. *)
Lemma validateIssue_fate engine originalText fresh issue st :
  match fate engine originalText fresh issue with
  | Pushed i =>
      validateIssue engine originalText fresh issue st = (Normal tt, pushed i st)
  | CountedIndexError =>
      validateIssue engine originalText fresh issue st
      = (Normal tt, counted_indexError st)
  | CountedTextMismatch =>
      validateIssue engine originalText fresh issue st
      = (Normal tt, counted_textMismatch st)
  | Dropped => validateIssue engine originalText fresh issue st = (Normal tt, st)
  | Escaped e => fst (validateIssue engine originalText fresh issue st) = Thrown e
  | NeverEnds => fst (validateIssue engine originalText fresh issue st) = Unending
  end.
Proof.
  unfold fate, validateIssue, try_step, bind_step, lift, update, unit_step.
  destruct (examine engine originalText fresh issue) as [[i|s e|x]|err|].
  - reflexivity.
  - destruct (get engine issue "id") as [id| |]; cbn -[print]; try reflexivity.
    destruct (print engine [id; s; e]) as [[]| |]; cbn -[print];
      try reflexivity.
    destruct (print engine [id]) as [[]| |]; reflexivity.
  - destruct (get engine issue "id") as [id| |]; cbn -[print]; try reflexivity.
    destruct (print engine [id]) as [[]| |] eqn:E; cbn -[print];
      rewrite ?E; try reflexivity.
    destruct (print engine [x]) as [[]| |]; cbn -[print]; rewrite ?E;
      reflexivity.
  - destruct (get engine issue "id") as [id| |]; cbn -[print]; try reflexivity.
    destruct (print engine [id]) as [[]| |]; reflexivity.
  - reflexivity.
Qed.


(** The elements of [analysisResult.issues] the loop goes through, for a
    reply [validateAndProcessResults] does not throw on: the elements of an
    array, the characters of a string, none when [issues] is falsy. *)
Definition elements_of (reply : Value) : list Value :=
  match reply with
  | VObj fields =>
      match field "issues" fields with
      | VArr items => items
      | VStr s =>
          map (fun c => VStr (String c EmptyString)) (list_ascii_of_string s)
      | _ => []
      end
  | _ => []
  end.

Definition is_dropped (f : Fate) : bool :=
  match f with
  | Dropped => true
  | _ => false
  end.

(** The fates of the elements from position [k] on. *)
Fixpoint fates (engine : Engine) (env : Env) (originalText : string)
    (k : nat) (todo : list Value) : list Fate :=
  match todo with
  | [] => []
  | issue :: todo' =>
      fate engine originalText (genId env k) issue
      :: fates engine env originalText (S k) todo'
  end.


(** The issues pushed, in order. *)
Fixpoint survivors_of (l : list Fate) : list Value :=
  match l with
  | [] => []
  | Pushed i :: l' => i :: survivors_of l'
  | _ :: l' => survivors_of l'
  end.

Definition accounted_for (st : V1.Stats) : nat :=
  (V1.validated st + V1.indexErrors st + V1.textMismatches st)%nat.

Lemma loop_completes engine env originalText k todo st u final :
  loop engine env originalText k todo st = (Normal u, final) ->
  let l := fates engine env originalText k todo in
  validatedIssues final = validatedIssues st ++ survivors_of l
  /\ V1.original (stats final) = V1.original (stats st)
  /\ V1.validated (stats final)
     = (V1.validated (stats st) + length (survivors_of l))%nat
  /\ (accounted_for (stats final) + length (List.filter is_dropped l)
      = accounted_for (stats st) + length todo)%nat.
Proof.
  revert k st. induction todo as [|issue todo IH]; intros k st; cbn [loop fates].
  - unfold unit_step. intros [= <- <-]. cbn. rewrite app_nil_r.
    repeat split; lia.
  - unfold bind_step at 1.
    pose proof (validateIssue_fate engine originalText (genId env k) issue st) as Hf.
    destruct (validateIssue engine originalText (genId env k) issue st)
      as [[[]|e|] st'] eqn:Hv; try discriminate.
    intros Hrest. specialize (IH _ _ Hrest). cbv zeta in IH.
    destruct IH as (Hi & Ho & Hn & Ha).
    cbv zeta. cbn [survivors_of List.filter].
    destruct (fate engine originalText (genId env k) issue) as [i| | | |e|];
      cbn [fst] in Hf; try discriminate;
      injection Hf as ->; cbn [is_dropped survivors_of length] in *;
      rewrite Hi, Ho, Hn; unfold accounted_for in *;
      cbn [pushed counted_indexError counted_textMismatch validatedIssues stats
           V1.count V1.original V1.validated V1.indexErrors V1.textMismatches
           length] in *;
      rewrite <- ?app_assoc; cbn [app]; repeat split; lia.
Qed.


(** The loop as [validateAndProcessResults] starts it. *)
Definition start_loop (todo : list Value) : Loop :=
  {| validatedIssues := [];
     stats := {| V1.original := length todo; V1.validated := 0;
                 V1.indexErrors := 0; V1.textMismatches := 0 |} |}.

(** The loop on the elements [todo], and the result built from what it
    leaves. *)
Definition run_loop (engine : Engine) (env : Env) (originalText : string)
    (todo : list Value) : Completion Result :=
  match loop engine env originalText 0 todo (start_loop todo) with
  | (Normal _, final) =>
      Normal
        {| summary :=
             {| totalIssues := length (validatedIssues final);
                critical := count_severity "Critical" (validatedIssues final);
                warnings := count_severity "Warning" (validatedIssues final);
                suggestions := count_severity "Suggestion" (validatedIssues final);
                documentLength := Js.len originalText |};
           issues := validatedIssues final;
           validationStats := stats final;
           meta := {| meta_model := model env; meta_timestamp := timestamp env;
                      processingVersion := "1.0" |} |}
  | (Thrown e, _) => Thrown e
  | (Unending, _) => Unending
  end.

(** The elements of the value [analysisResult.issues] has after the two
    [if] statements. *)
Definition values_of (v : Value) : list Value :=
  match v with
  | VArr items => items
  | VStr s => map (fun c => VStr (String c EmptyString)) (list_ascii_of_string s)
  | _ => []
  end.

Lemma iterate_elements engine v {X} (K : list Value -> Completion X) r :
  and_then (iterate engine (if truthy v then v else VArr [])) K = Normal r ->
  K (values_of v) = Normal r.
Proof.
  destruct v as [| |b|n|s|items|fs]; cbn; try discriminate;
    try exact (fun H => H).
  - destruct b; cbn; [discriminate | exact (fun H => H)].
  - destruct n as [q| | |]; cbn; try discriminate; try exact (fun H => H).
    destruct (Qeq_bool q 0); cbn; [exact (fun H => H) | discriminate].
  - destruct s; cbn; exact (fun H => H).
Qed.

(** When [validateAndProcessResults] returns, it returns what the loop
    leaves after going through the elements of [issues]. *)
Lemma result_of_loop engine env reply originalText result :
  validateAndProcessResults engine env reply originalText = Normal result ->
  run_loop engine env originalText (elements_of reply) = Normal result.
Proof.
  unfold validateAndProcessResults.
  change (fun todo : list Value => _)
    with (run_loop engine env originalText).
  destruct reply as [| |b|n|s|items|fields]; try discriminate.
  - exact (fun H => H).
  - cbn [get and_then elements_of writable]. intros H.
    apply (iterate_elements engine (field "issues" fields)
             (run_loop engine env originalText)).
    destruct (truthy (field "summary" fields)); cbn [and_then] in H;
      destruct (truthy (field "issues" fields)); exact H.
Qed.

Lemma run_loop_result engine env originalText todo result :
  run_loop engine env originalText todo = Normal result ->
  exists u final,
    loop engine env originalText 0 todo (start_loop todo) = (Normal u, final)
    /\ issues result = validatedIssues final
    /\ validationStats result = stats final
    /\ summary result
       = {| totalIssues := length (validatedIssues final);
            critical := count_severity "Critical" (validatedIssues final);
            warnings := count_severity "Warning" (validatedIssues final);
            suggestions := count_severity "Suggestion" (validatedIssues final);
            documentLength := Js.len originalText |}.
Proof.
  unfold run_loop.
  destruct (loop engine env originalText 0 todo (start_loop todo))
    as [[u|e|] final]; try discriminate.
  intros [= <-]. exists u, final. repeat split.
Qed.









(** A reply with four findings on the sample text: one quoted a character
    away, one without a location, one whose location has no offsets and
    quotes the whole text, one with a negative start. *)
Definition finding (location : Value) : Value :=
  VObj [("id", VStr "format_001"); ("category", VStr "Format");
        ("severity", VStr "Warning"); ("location", location)].

Definition span (s e : Z) (quoted : string) : Value :=
  VObj [("startIndex", of_Z s); ("endIndex", of_Z e);
        ("exactText", VStr quoted); ("context", VStr "The wrongword is")].

Definition mixed_reply : Value :=
  VObj [("issues",
         VArr [finding (span 4 13 "wrong-word");
               VObj [("id", VStr "format_002"); ("category", VStr "Format");
                     ("severity", VStr "Warning")];
               finding (VObj [("exactText", VStr sample_text)]);
               finding (span (-1) 13 "wrongword")])].

(** What [validateAndProcessResults] returns for that reply. *)
Definition no_result : Result :=
  {| summary := {| totalIssues := 0; critical := 0; warnings := 0;
                   suggestions := 0; documentLength := 0 |};
     issues := [];
     validationStats := {| V1.original := 0; V1.validated := 0;
                           V1.indexErrors := 0; V1.textMismatches := 0 |};
     meta := {| meta_model := ""; meta_timestamp := "";
                processingVersion := "" |} |}.

Definition mixed_result : Result :=
  Eval vm_compute in
    match validateAndProcessResults sample_engine sample_env mixed_reply
            sample_text with
    | Normal result => result
    | _ => no_result
    end.




(** *** What a returned issue holds *)

Lemma field_store_same k x fields : field k (store_field k x fields) = x.
Proof.
  induction fields as [|[k' v] fields IH]; cbn.
  - now rewrite String.eqb_refl.
  - destruct (String.eqb k k') eqn:E; cbn; rewrite ?String.eqb_refl, ?E;
      [reflexivity | exact IH].
Qed.

Lemma field_store_other k k' x fields :
  k <> k' -> field k (store_field k' x fields) = field k fields.
Proof.
  intros Hne. induction fields as [|[k'' v] fields IH]; cbn.
  - apply String.eqb_neq in Hne. now rewrite Hne.
  - destruct (String.eqb_spec k' k'') as [<-|Hk]; cbn.
    + apply String.eqb_neq in Hne. now rewrite Hne.
    + destruct (String.eqb k k''); [reflexivity | exact IH].
Qed.

(** [ToIntegerOrInfinity] of a finite number: its integer part. *)
Definition integer_part (q : Q) : Z := Z.quot (Qnum q) (Zpos (Qden q)).

(** An issue as validation leaves it.  It is an object whose [location] is
    an object; none of the three comparisons of the bounds check holds of
    its offsets; its [exactText] is the text [substring] returns for them;
    its [id] is truthy or generated and its [autoFixable] is set.  When the
    two offsets are numbers, they are within the bounds of the text. *)
Definition well_anchored (engine : Engine) (env : Env) (originalText : string)
    (issue : Value) : Prop :=
  exists fields location actualText,
    issue = VObj fields
    /\ field "location" fields = VObj location
    /\ less_than engine (field "startIndex" location) (of_Z 0) = Normal false
    /\ greater_than engine (field "endIndex" location) (of_Z (Js.len originalText))
       = Normal false
    /\ not_less_than engine (field "startIndex" location) (field "endIndex" location)
       = Normal false
    /\ substring engine originalText
         (field "startIndex" location) (field "endIndex" location)
       = Normal actualText
    /\ field "exactText" location = VStr actualText
    /\ (truthy (field "id" fields) = true
        \/ exists k, field "id" fields = VStr (genId env k))
    /\ field "autoFixable" fields <> VUndefined
    /\ (forall p q,
          field "startIndex" location = VNum (Fin p) ->
          field "endIndex" location = VNum (Fin q) ->
          (0 <= p)%Q /\ (p < q)%Q /\ (q <= inject_Z (Js.len originalText))%Q
          /\ actualText
             = Js.substring originalText (integer_part p) (integer_part q)).

Lemma ensure_fields_accepted engine env k fields i :
  ensure_fields engine (genId env k) (VObj fields) = Normal (Accepted i) ->
  exists fields',
    i = VObj fields'
    /\ field "location" fields' = field "location" fields
    /\ (truthy (field "id" fields') = true
        \/ exists k, field "id" fields' = VStr (genId env k))
    /\ field "autoFixable" fields' <> VUndefined.
Proof.
  unfold ensure_fields. cbn [get assign and_then]. intros [= <-].
  eexists. split; [reflexivity|].
  rewrite !field_store_same.
  rewrite (field_store_other "location" "autoFixable") by discriminate.
  rewrite (field_store_other "location" "id") by discriminate.
  rewrite (field_store_other "id" "autoFixable") by discriminate.
  rewrite field_store_same.
  split; [reflexivity|]. split.
  - destruct (truthy (field "id" fields)) eqn:E; [now left | right; now exists k].
  - rewrite (field_store_other "autoFixable" "id") by discriminate.
    destruct (field "autoFixable" fields); discriminate.
Qed.

Lemma numbers_within_bounds engine originalText p q actualText :
  less_than engine (VNum (Fin p)) (of_Z 0) = Normal false ->
  greater_than engine (VNum (Fin q)) (of_Z (Js.len originalText)) = Normal false ->
  not_less_than engine (VNum (Fin p)) (VNum (Fin q)) = Normal false ->
  substring engine originalText (VNum (Fin p)) (VNum (Fin q)) = Normal actualText ->
  (0 <= p)%Q /\ (p < q)%Q /\ (q <= inject_Z (Js.len originalText))%Q
  /\ actualText = Js.substring originalText (integer_part p) (integer_part q).
Proof.
  unfold less_than, greater_than, not_less_than, substring. cbn.
  destruct (Qle_bool (inject_Z 0) p) eqn:E1; [|discriminate].
  destruct (Qle_bool q (inject_Z (Js.len originalText))) eqn:E2; [|discriminate].
  destruct (Qle_bool q p) eqn:E3; [discriminate|].
  intros _ _ _ H4. injection H4 as <-.
  apply Qle_bool_iff in E1, E2.
  repeat split; try assumption.
  apply Qnot_le_lt. intros Hle. apply Qle_bool_iff in Hle. congruence.
Qed.

Lemma examine_accepted engine env originalText k issue i :
  examine engine originalText (genId env k) issue = Normal (Accepted i) ->
  well_anchored engine env originalText i.
Proof.
  unfold examine.
  destruct issue as [| |b|n|s|items|fields]; try discriminate.
  cbn [read get and_then].
  destruct (field "location" fields) as [| |b|n|s|items|location] eqn:Hl;
    try discriminate.
  1-4: cbn; unfold fuzzyMatch;
    match goal with |- context [(?a =? ?b)%nat] => destruct (a =? b)%nat end;
    discriminate.
  cbn [get and_then].
  - set (startIndex := field "startIndex" location).
    set (endIndex := field "endIndex" location).
    destruct (less_than engine startIndex (of_Z 0)) as [[]| |] eqn:H1;
      cbn [and_then]; try discriminate.
    destruct (greater_than engine endIndex (of_Z (Js.len originalText))) as [[]| |] eqn:H2;
      cbn [and_then]; try discriminate.
    destruct (not_less_than engine startIndex endIndex) as [[]| |] eqn:H3;
      cbn [and_then]; try discriminate.
    destruct (substring engine originalText startIndex endIndex)
      as [actualText| |] eqn:H4; cbn [and_then]; try discriminate.
    assert (forall location',
               field "startIndex" location' = startIndex ->
               field "endIndex" location' = endIndex ->
               field "exactText" location' = VStr actualText ->
               forall fields',
                 field "location" fields' = VObj location' ->
                 ensure_fields engine (genId env k) (VObj fields')
                 = Normal (Accepted i) ->
                 well_anchored engine env originalText i) as Hdone.
    { intros location' Hs He Hx fields' Hl' Hens.
      destruct (ensure_fields_accepted _ _ _ _ _ Hens)
        as (fields'' & -> & Hloc & Hid & Hfix).
      exists fields'', location', actualText.
      rewrite Hloc, Hl', Hs, He.
      repeat match goal with |- _ /\ _ => split end;
        try assumption; try reflexivity.
      intros p q Hp Hq. rewrite Hp, Hq in *.
      now apply (numbers_within_bounds engine originalText p q actualText). }
    destruct (same_string actualText (field "exactText" location)) eqn:Hsame.
    + apply (Hdone location); try reflexivity; try assumption.
      destruct (field "exactText" location); try discriminate.
      cbn in Hsame. apply String.eqb_eq in Hsame. now subst.
    + destruct (fuzzyMatch engine actualText (field "exactText" location))
        as [[]| |]; cbn [and_then assign]; try discriminate.
      apply (Hdone (store_field "exactText" (VStr actualText) location)).
      * now rewrite field_store_other by discriminate.
      * now rewrite field_store_other by discriminate.
      * apply field_store_same.
      * apply field_store_same.
Qed.

Lemma fate_pushed engine originalText fresh issue i :
  fate engine originalText fresh issue = Pushed i ->
  examine engine originalText fresh issue = Normal (Accepted i).
Proof.
  unfold fate, validateIssue, try_step, bind_step, lift, update, unit_step.
  destruct (examine engine originalText fresh issue) as [[i'|s e|x]|err|].
  - cbn. now intros [= ->].
  - destruct (get engine issue "id") as [id| |]; cbn -[print]; try discriminate.
    destruct (print engine [id; s; e]) as [[]| |]; cbn -[print];
      try discriminate.
    destruct (print engine [id]) as [[]| |]; discriminate.
  - destruct (get engine issue "id") as [id| |]; cbn -[print]; try discriminate.
    destruct (print engine [id]) as [[]| |] eqn:E; cbn -[print];
      rewrite ?E; try discriminate.
    destruct (print engine [x]) as [[]| |]; cbn -[print]; rewrite ?E;
      discriminate.
  - destruct (get engine issue "id") as [id| |]; cbn -[print]; try discriminate.
    destruct (print engine [id]) as [[]| |]; discriminate.
  - discriminate.
Qed.

Lemma survivors_anchored_dyn engine env originalText k todo :
  Forall (well_anchored engine env originalText)
         (survivors_of (fates engine env originalText k todo)).
Proof.
  revert k. induction todo as [|issue todo IH]; intros k;
    cbn [fates survivors_of]; [constructor|].
  destruct (fate engine originalText (genId env k) issue) as [i| | | |e|] eqn:E;
    try apply IH.
  constructor; [|apply IH].
  apply fate_pushed in E. exact (examine_accepted _ _ _ _ _ _ E).
Qed.

(** Every issue [validateAndProcessResults] returns is anchored: it is an
    object with a location object, its quoted text is exactly the text
    [substring] returns for its offsets, none of the three comparisons of
    the bounds check holds of them, and its id and [autoFixable] are set.
    Offsets that are numbers lie within the text, the first below the
    second; offsets that are missing are not checked, and the quoted text of
    such an issue is the whole text. *)
Theorem returned_issues_quote_the_text
    (engine : Engine) (env : Env) (reply : Value) (originalText : string)
    (result : Result) :
  validateAndProcessResults engine env reply originalText = Normal result ->
  Forall (well_anchored engine env originalText) (issues result)
  /\ (forall fields location,
        In (VObj fields) (issues result) ->
        field "location" fields = VObj location ->
        field "startIndex" location = VUndefined ->
        field "endIndex" location = VUndefined ->
        field "exactText" location
        = VStr (Js.substring originalText 0 (Js.len originalText))).
Proof.
  intros Hres.
  assert (Forall (well_anchored engine env originalText) (issues result))
    as Hall.
  { apply result_of_loop in Hres.
    destruct (run_loop_result _ _ _ _ _ Hres) as (u & final & Hloop & Hi & _).
    destruct (loop_completes _ _ _ _ _ _ _ _ Hloop) as (Hv & _).
    rewrite Hi, Hv. apply survivors_anchored_dyn. }
  split; [exact Hall|].
  intros fields location Hin Hl Hs He.
  rewrite List.Forall_forall in Hall. specialize (Hall _ Hin).
  destruct Hall as (fields' & location' & actualText & Hf & Hl' & _ & _ & _
                    & Hsub & Hx & _).
  injection Hf as <-. rewrite Hl in Hl'. injection Hl' as <-.
  rewrite Hs, He in Hsub. rewrite Hx.
  unfold substring in Hsub. cbn in Hsub. injection Hsub as <-. reflexivity.
Qed.

Lemma returned_issues_quote_the_text_witness :
  map (fun i => read sample_engine i ["location"; "exactText"])
    (issues mixed_result)
  = [Normal (VStr "wrongword"); Normal (VStr sample_text)]
  /\ Forall (well_anchored sample_engine sample_env sample_text)
       (issues mixed_result).
Proof.
  split; [vm_compute; reflexivity|].
  apply (returned_issues_quote_the_text sample_engine sample_env mixed_reply
           sample_text mixed_result).
  vm_compute; reflexivity.
Defined.


End DynamicOffsetLoop.

(** ** The loop of [validateAndProcessResults], paragraph form *)

Section ParagraphLoop.

Import V2.

Local Open Scope Z_scope.

Definition findings2 (reply : Reply) : list Issue :=
  match reply_issues reply with
  | Some l => l
  | None => []
  end.

Fixpoint survivors2 (env : Env) (doc : DocumentStructure) (k : nat)
    (todo : list Issue) : list Issue :=
  match todo with
  | [] => []
  | issue :: todo' =>
      match validateIssue doc (genId env k) issue with
      | Accepted i => i :: survivors2 env doc (S k) todo'
      | _ => survivors2 env doc (S k) todo'
      end
  end.

(** The findings whose iteration ends in the [catch]. *)
Definition thrown (env : Env) (doc : DocumentStructure) (k : nat)
    (todo : list Issue) : nat :=
  length (List.filter
            (fun ki : nat * Issue =>
               match validateIssue doc (genId env (fst ki)) (snd ki) with
               | Threw => true
               | _ => false
               end)
            (combine (seq k (length todo)) todo)).

Definition accounted2 (st : Stats) : nat :=
  (validated st + invalidParagraphIndex st + missingSearchableText st)%nat.

Lemma loop_survivors2 env doc st k todo :
  validatedIssues (loop env doc st k todo)
  = validatedIssues st ++ survivors2 env doc k todo.
Proof.
  revert st k. induction todo as [|issue todo IH]; intros st k; cbn [loop survivors2].
  - now rewrite app_nil_r.
  - rewrite IH. unfold step.
    destruct (validateIssue doc (genId env k) issue); cbn [validatedIssues];
      [rewrite <- app_assoc|..]; reflexivity.
Qed.

Lemma loop_stats2 env doc st k todo :
  let final := stats (loop env doc st k todo) in
  original final = original (stats st)
  /\ (accounted2 final + thrown env doc k todo
      = accounted2 (stats st) + length todo)%nat
  /\ validated final
     = (validated (stats st) + length (survivors2 env doc k todo))%nat.
Proof.
  revert st k. induction todo as [|issue todo IH]; intros st k;
    cbn [loop survivors2].
  - cbn. repeat split; lia.
  - destruct (IH (step env doc st k issue) (S k)) as (Ho & Ha & Hv).
    cbv zeta. rewrite Ho, Hv. unfold thrown in *.
    cbn [length seq combine List.filter fst snd].
    unfold step, accounted2 in *.
    destruct (validateIssue doc (genId env k) issue);
      cbn [stats count original validated invalidParagraphIndex
           missingSearchableText length] in *;
      repeat split; lia.
Qed.

Lemma issues_survivors2 env reply doc :
  issues (validateAndProcessResults env reply doc)
  = survivors2 env doc 0 (findings2 reply).
Proof.
  unfold validateAndProcessResults. cbn [issues]. rewrite loop_survivors2.
  reflexivity.
Qed.

(** Against a document without [paragraphs], the iteration on a finding
    with a defined, non-negative index ends in the [catch]; the others are
    counted as invalid indices; none is pushed. *)
Lemma no_paragraphs_verdict doc fresh issue :
  paragraphs doc = None ->
  validateIssue doc fresh issue
  = match get_paragraphIndex issue with
    | None => InvalidParagraphIndex
    | Some i => if i <? 0 then InvalidParagraphIndex else Threw
    end.
Proof. intros Hps. unfold validateIssue. rewrite Hps. reflexivity. Qed.

Lemma survivors2_no_paragraphs env doc k todo :
  paragraphs doc = None -> survivors2 env doc k todo = [].
Proof.
  intros Hps. revert k. induction todo as [|issue todo IH]; intros k;
    cbn [survivors2]; [reflexivity|].
  rewrite (no_paragraphs_verdict _ _ _ Hps).
  destruct (get_paragraphIndex issue) as [i|]; [destruct (i <? 0)|]; apply IH.
Qed.

Lemma on_failure_throws {X : Type} (e : JsError) :
  exists e', @on_failure X e = (inl e', []).
Proof.
  unfold on_failure, throw. repeat destruct (decide _); eauto.
  destruct (Js.includes _ _); eauto.
Qed.

(** [analyzeDocument] returns a result only when its [try] block does. *)
Lemma try_catch_success {X : Type} (m : Eff X) (x : X) :
  fst (try_catch m on_failure) = inr x -> fst m = inr x.
Proof.
  unfold try_catch. destruct m as [[e|y] log]; [|exact (fun H => H)].
  destruct (@on_failure_throws X e) as [e' ->]. discriminate.
Qed.

Lemma no_paragraphs_result
    (env : Env) (svc : Service Reply)
    (stringify : DocumentStructure -> string) (doc : DocumentStructure)
    (result : Result) :
  paragraphs doc = None ->
  fst (analyzeDocument env svc stringify doc) = inr result ->
  issues result = []
  /\ totalIssues (summary result) = 0%nat
  /\ critical (summary result) = 0%nat
  /\ warnings (summary result) = 0%nat
  /\ suggestions (summary result) = 0%nat
  /\ validated (validationStats result) = 0%nat
  /\ missingSearchableText (validationStats result) = 0%nat.
Proof.
  intros Hps Hres.
  assert (exists reply, result = validateAndProcessResults env reply doc)
    as [reply ->].
  { unfold analyzeDocument in Hres. apply try_catch_success in Hres.
    revert Hres. unfold bind, invoke, ret, throw, parseReply.
    destruct (too_large doc); [discriminate|].
    destruct (complete svc (request svc stringify doc)) as [e|content];
      [discriminate|].
    destruct (JSON_parse svc (Parser.jsonText content)) as [reply|];
      [|discriminate].
    cbn. intros [= <-]. now exists reply. }
  clear Hres.
  assert (forall todo st k,
            missingSearchableText (stats (loop env doc st k todo))
            = missingSearchableText (stats st)) as Hmiss.
  { induction todo as [|issue todo IH]; intros st k; cbn [loop]; [reflexivity|].
    rewrite IH. unfold step. rewrite (no_paragraphs_verdict _ _ _ Hps).
    destruct (get_paragraphIndex issue) as [i|]; [destruct (i <? 0)|];
      reflexivity. }
  unfold validateAndProcessResults.
  cbn [issues summary validationStats totalIssues critical warnings suggestions].
  fold (findings2 reply).
  set (start := {| validatedIssues := []; stats := _ |}).
  destruct (loop_stats2 env doc start 0 (findings2 reply)) as (_ & _ & Hv).
  cbv zeta in Hv. rewrite (survivors2_no_paragraphs _ _ _ _ Hps) in Hv.
  rewrite loop_survivors2, (survivors2_no_paragraphs _ _ _ _ Hps), Hmiss.
  repeat split; try reflexivity. exact Hv.
Qed.

(** The document the endpoint builds for a plain-text request,
    [{ fullText: documentText }], has no [paragraphs].  For such a document
    no finding survives, whatever the model replied: every result of
    [analyzeDocument] has an empty list of issues and a summary of zeros, and
    only the findings without a non-negative index are counted at all. *)
Theorem no_paragraphs_no_issues
    (env : Env) (svc : Service Reply)
    (stringify : DocumentStructure -> string) (doc : DocumentStructure)
    (result : Result) :
  paragraphs doc = None ->
  fst (analyzeDocument env svc stringify doc) = inr result ->
  issues result = []
  /\ totalIssues (summary result) = 0%nat
  /\ critical (summary result) = 0%nat
  /\ warnings (summary result) = 0%nat
  /\ suggestions (summary result) = 0%nat
  /\ validated (validationStats result) = 0%nat
  /\ missingSearchableText (validationStats result) = 0%nat.
Proof. exact (no_paragraphs_result env svc stringify doc result). Qed.

(** A model that reports one finding on paragraph 1, and a parser that
    decodes exactly that reply. *)
Definition reporting_service : Service Reply :=
  {| complete := fun _ => inr "{ one finding }"%string;
     JSON_parse := fun s =>
       if String.eqb s "{ one finding }"
       then Some {| reply_summary := None;
                    reply_issues :=
                      Some [sample_finding (Some 1) (Some "aman malhotra"%string)] |}
       else None;
     buildValidationPrompt := "You are an expert audit report compliance validator." |}.

Lemma no_paragraphs_no_issues_witness :
  exists result,
    fst (analyzeDocument sample_env reporting_service (fun _ => "{}"%string)
           {| fullText := fullText sample_document; paragraphs := None |})
    = inr result
    /\ issues result = []
    /\ validationStats result
       = {| original := 1; validated := 0; invalidParagraphIndex := 0;
            missingSearchableText := 0 |}
    /\ length (issues (validateAndProcessResults sample_env
                         {| reply_summary := None;
                            reply_issues :=
                              Some [sample_finding (Some 1)
                                      (Some "aman malhotra"%string)] |}
                         sample_document)) = 1%nat.
Proof.
  pose proof (no_paragraphs_no_issues sample_env reporting_service
                (fun _ => "{}"%string)
                {| fullText := fullText sample_document; paragraphs := None |})
    as H.
  eexists. split; [reflexivity|]. split; [|split; reflexivity].
  exact (proj1 (H _ eq_refl eq_refl)).
Defined.

End ParagraphLoop.

(** ** The loop of [validateAndProcessResults] on dynamic values, paragraph
    form *)

Section DynamicParagraphLoop.

Import Dyn V2_dynamic.

Local Open Scope nat_scope.


Definition fresh_loop2 : Loop :=
  {| validatedIssues := [];
     stats := {| V2.original := 0; V2.validated := 0;
                 V2.invalidParagraphIndex := 0;
                 V2.missingSearchableText := 0 |} |}.































End DynamicParagraphLoop.

(** ** The typed reading of a reply agrees with the code *)

Section TypedReading.

Import Dyn.

Local Open Scope Z_scope.

(** A value read as an integer, a string, a boolean. *)
Definition as_integer (v : Value) : option Z :=
  match v with
  | VNum (Fin q) => if (Qden q =? 1)%positive then Some (Qnum q) else None
  | _ => None
  end.

Definition as_string (v : Value) : option string :=
  match v with
  | VStr s => Some s
  | _ => None
  end.

Definition as_boolean (v : Value) : option bool :=
  match v with
  | VBool b => Some b
  | _ => None
  end.

(** A property that may be missing. *)
Definition if_present {A} (read : Value -> option A) (v : Value)
  : option (option A) :=
  match v with
  | VUndefined => Some None
  | _ => option_map Some (read v)
  end.

(** The offset-form finding a value stands for, when it has the types of
    the response format: integer offsets, strings, an optional string [id]
    and an optional boolean [autoFixable].  Properties the code does not
    read are ignored. *)
Definition typed_location (v : Value) : option V1.Location :=
  match v with
  | VObj fields =>
      match as_integer (field "startIndex" fields),
            as_integer (field "endIndex" fields),
            as_string (field "exactText" fields),
            as_string (field "context" fields) with
      | Some s, Some e, Some x, Some c =>
          Some {| V1.startIndex := s; V1.endIndex := e;
                  V1.exactText := x; V1.context := c |}
      | _, _, _, _ => None
      end
  | _ => None
  end.

Definition typed_issue (v : Value) : option V1.Issue :=
  match v with
  | VObj fields =>
      match if_present as_string (field "id" fields),
            as_string (field "category" fields),
            as_string (field "severity" fields),
            typed_location (field "location" fields),
            if_present as_boolean (field "autoFixable" fields) with
      | Some i, Some c, Some s, Some l, Some a =>
          Some {| V1.id := i; V1.category := c; V1.severity := s;
                  V1.location := l; V1.autoFixable := a |}
      | _, _, _, _, _ => None
      end
  | _ => None
  end.

Lemma as_integer_inv v z : as_integer v = Some z -> v = of_Z z.
Proof.
  destruct v as [| | |[[n d]| | |]| | |]; try discriminate.
  unfold as_integer. cbn [Qden Qnum].
  destruct (Pos.eqb_spec d 1) as [->|]; [|discriminate]. now intros [= ->].
Qed.

Lemma as_string_inv v s : as_string v = Some s -> v = VStr s.
Proof. destruct v; try discriminate. now intros [= ->]. Qed.

Lemma Qle_bool_integers a b : Qle_bool (inject_Z a) (inject_Z b) = (a <=? b).
Proof. unfold Qle_bool. cbn. now rewrite !Z.mul_1_r. Qed.

Lemma lt_integers engine a b : less_than engine (of_Z a) (of_Z b) = Normal (a <? b).
Proof.
  unfold less_than, of_Z. cbn. rewrite Qle_bool_integers, Z.ltb_antisym.
  now destruct (b <=? a).
Qed.

Lemma gt_integers engine a b : greater_than engine (of_Z a) (of_Z b) = Normal (b <? a).
Proof.
  unfold greater_than, of_Z. cbn. rewrite Qle_bool_integers, Z.ltb_antisym.
  now destruct (a <=? b).
Qed.

Lemma ge_integers engine a b : not_less_than engine (of_Z a) (of_Z b) = Normal (b <=? a).
Proof.
  unfold not_less_than, of_Z. cbn. rewrite Qle_bool_integers. now destruct (b <=? a).
Qed.

Lemma substring_integers engine s a b :
  substring engine s (of_Z a) (of_Z b) = Normal (Js.substring s a b).
Proof. unfold substring, of_Z. cbn. now rewrite !Z.quot_1_r. Qed.

Lemma print_id engine v i :
  if_present as_string v = Some i -> print engine [v] = Normal tt.
Proof. destruct v; try discriminate; reflexivity. Qed.

Lemma typed_ensure_fields engine fresh fields issue :
  typed_issue (VObj fields) = Some issue ->
  exists v',
    V1_dynamic.ensure_fields engine fresh (VObj fields)
    = Normal (V1_dynamic.Accepted v')
    /\ typed_issue v' = Some (V1.ensure_fields issue fresh).
Proof.
  intros Ht. unfold V1_dynamic.ensure_fields. cbn [get assign and_then].
  eexists. split; [reflexivity|].
  cbn [typed_issue] in *.
  rewrite !field_store_same.
  rewrite (field_store_other "id" "autoFixable") by discriminate.
  rewrite field_store_same.
  rewrite (field_store_other "category" "autoFixable") by discriminate.
  rewrite (field_store_other "category" "id") by discriminate.
  rewrite (field_store_other "severity" "autoFixable") by discriminate.
  rewrite (field_store_other "severity" "id") by discriminate.
  rewrite (field_store_other "location" "autoFixable") by discriminate.
  rewrite (field_store_other "location" "id") by discriminate.
  rewrite (field_store_other "autoFixable" "id") by discriminate.
  destruct (if_present as_string (field "id" fields)) as [i|] eqn:Hi;
    [|discriminate].
  destruct (as_string (field "category" fields)) as [c|]; [|discriminate].
  destruct (as_string (field "severity" fields)) as [s|]; [|discriminate].
  destruct (typed_location (field "location" fields)) as [l|]; [|discriminate].
  destruct (if_present as_boolean (field "autoFixable" fields)) as [a|] eqn:Ha;
    [|discriminate].
  injection Ht as <-. unfold V1.ensure_fields. cbn [V1.id V1.category
    V1.severity V1.location V1.autoFixable].
  assert (if_present as_string
            (if truthy (field "id" fields) then field "id" fields
             else VStr fresh)
          = Some (Some (id_or i fresh))) as ->.
  { destruct (field "id" fields) as [| | | |t| |]; try discriminate;
      cbn in Hi; injection Hi as <-; [reflexivity|].
    destruct t; reflexivity. }
  assert (if_present as_boolean
            match field "autoFixable" fields with
            | VUndefined => VBool false
            | _ => field "autoFixable" fields
            end
          = Some (Some (autoFixable_or_false a))) as ->.
  { destruct (field "autoFixable" fields); try discriminate;
      cbn in Ha; injection Ha as <-; reflexivity. }
  reflexivity.
Qed.

(** On a finding that has the types of the response format, the iteration
    of the code does what [V1.validateIssue] says: it counts an index error
    or a text mismatch exactly when the typed reading does, and otherwise it
    pushes a value whose typed reading is the issue the typed reading
    accepts. *)
Theorem typed_offset_reading
    (engine : Engine) (originalText fresh : string) (v : Value)
    (issue : V1.Issue) (st : V1_dynamic.Loop) :
  typed_issue v = Some issue ->
  match V1.validateIssue originalText fresh issue with
  | V1.Accepted issue' =>
      exists v',
        V1_dynamic.validateIssue engine originalText fresh v st
        = (Normal tt, V1_dynamic.pushed v' st)
        /\ typed_issue v' = Some issue'
  | V1.IndexError =>
      V1_dynamic.validateIssue engine originalText fresh v st
      = (Normal tt, V1_dynamic.counted_indexError st)
  | V1.TextMismatch =>
      V1_dynamic.validateIssue engine originalText fresh v st
      = (Normal tt, V1_dynamic.counted_textMismatch st)
  end.
Proof.
  intros Ht. destruct v as [| | | | | |fields]; try discriminate.
  pose proof Ht as Hfields. cbn [typed_issue] in Hfields.
  destruct (if_present as_string (field "id" fields)) as [i|] eqn:Hi;
    [|discriminate].
  destruct (as_string (field "category" fields)) as [c|] eqn:Hc; [|discriminate].
  destruct (as_string (field "severity" fields)) as [sv|] eqn:Hsv; [|discriminate].
  destruct (typed_location (field "location" fields)) as [l|] eqn:Hl;
    [|discriminate].
  destruct (if_present as_boolean (field "autoFixable" fields)) as [a|] eqn:Ha;
    [|discriminate].
  injection Hfields as <-.
  destruct (field "location" fields) as [| | | | | |location] eqn:Hloc;
    try discriminate.
  cbn [typed_location] in Hl.
  destruct (as_integer (field "startIndex" location)) as [s|] eqn:Hs;
    [|discriminate].
  destruct (as_integer (field "endIndex" location)) as [e|] eqn:He;
    [|discriminate].
  destruct (as_string (field "exactText" location)) as [x|] eqn:Hx;
    [|discriminate].
  destruct (as_string (field "context" location)) as [ctx|] eqn:Hctx;
    [|discriminate].
  injection Hl as <-.
  apply as_integer_inv in Hs, He. apply as_string_inv in Hx.
  unfold V1.validateIssue. cbn [V1.location V1.startIndex V1.endIndex V1.exactText].
  assert (V1_dynamic.examine engine originalText fresh (VObj fields)
          = if (s <? 0) || (Js.len originalText <? e) || (e <=? s)
            then Normal (V1_dynamic.IndexError (of_Z s) (of_Z e))
            else
              let actualText := Js.substring originalText s e in
              if String.eqb actualText x
              then V1_dynamic.ensure_fields engine fresh (VObj fields)
              else if fuzzyMatch actualText x default_threshold
                   then V1_dynamic.ensure_fields engine fresh
                          (VObj (store_field "location"
                                   (VObj (store_field "exactText"
                                            (VStr actualText) location))
                                   fields))
                   else Normal (V1_dynamic.TextMismatch (VStr x))) as Hexamine.
  { unfold V1_dynamic.examine. cbn [read get and_then]. rewrite Hloc.
    cbn [get and_then]. rewrite Hs, He, Hx.
    rewrite lt_integers. cbn [and_then].
    destruct (s <? 0); cbn [orb and_then]; [reflexivity|].
    rewrite gt_integers. cbn [and_then].
    destruct (Js.len originalText <? e); cbn [orb and_then]; [reflexivity|].
    rewrite ge_integers. cbn [and_then].
    destruct (e <=? s); cbn [and_then]; [reflexivity|].
    rewrite substring_integers. cbn [and_then same_string].
    destruct (String.eqb _ x); [reflexivity|].
    rewrite fuzzyMatch_strings. cbn [and_then].
    destruct (fuzzyMatch _ x default_threshold); [|reflexivity].
    cbn [assign and_then]. reflexivity. }
  unfold V1_dynamic.validateIssue, try_step, bind_step, lift, update, unit_step.
  rewrite Hexamine. cbn [V1.startIndex V1.endIndex].
  destruct ((s <? 0) || (Js.len originalText <? e) || (e <=? s)).
  { cbn [get]. reflexivity || (destruct (field "id" fields); try discriminate;
                               reflexivity). }
  cbv zeta.
  destruct (String.eqb (Js.substring originalText s e) x).
  { destruct (typed_ensure_fields engine fresh fields _ Ht) as (v' & -> & Hv').
    exists v'. split; [reflexivity | exact Hv']. }
  destruct (fuzzyMatch (Js.substring originalText s e) x default_threshold).
  - set (fields' := store_field "location" _ fields).
    assert (typed_issue (VObj fields')
            = Some (V1.set_location
                      {| V1.id := i; V1.category := c; V1.severity := sv;
                         V1.location :=
                           {| V1.startIndex := s; V1.endIndex := e;
                              V1.exactText := x; V1.context := ctx |};
                         V1.autoFixable := a |}
                      (V1.set_exactText
                         {| V1.startIndex := s; V1.endIndex := e;
                            V1.exactText := x; V1.context := ctx |}
                         (Js.substring originalText s e)))) as Ht'.
    { unfold fields'. cbn [typed_issue].
      rewrite field_store_same.
      rewrite !(field_store_other _ "location") by discriminate.
      rewrite Hi, Hc, Hsv, Ha. cbn [typed_location].
      rewrite field_store_same.
      rewrite !(field_store_other _ "exactText") by discriminate.
      rewrite Hs, He, Hctx. reflexivity. }
    destruct (typed_ensure_fields engine fresh fields' _ Ht') as (v' & -> & Hv').
    exists v'. split; [reflexivity | exact Hv'].
  - cbn [get]. destruct (field "id" fields); try discriminate; reflexivity.
Qed.

(** A finding of the response format, quoted a character away, with the
    properties the code does not read. *)
Definition format_finding : Value :=
  VObj [("id", VStr "format_001"); ("category", VStr "Format");
        ("title", VStr "Spelling"); ("severity", VStr "Warning");
        ("location",
         VObj [("startIndex", of_Z 4); ("endIndex", of_Z 13);
               ("exactText", VStr "wrong-word");
               ("context", VStr "The wrongword is")]);
        ("autoFixable", VBool true)].

Lemma typed_offset_reading_witness :
  typed_issue format_finding = Some (sample_issue 4 13 "wrong-word")
  /\ exists v',
       V1_dynamic.validateIssue sample_engine sample_text "issue_1" format_finding
         fresh_loop
       = (Normal tt, V1_dynamic.pushed v' fresh_loop)
       /\ typed_issue v' = Some (sample_issue 4 13 "wrongword").
Proof.
  assert (typed_issue format_finding = Some (sample_issue 4 13 "wrong-word"))
    as Htyped by reflexivity.
  split; [exact Htyped|].
  exact (typed_offset_reading sample_engine sample_text "issue_1"
           format_finding _ fresh_loop Htyped).
Defined.


(** The paragraph-form finding a value stands for, when it has the types of
    the response format; each property of the location, and the location
    itself, may be missing. *)
Definition typed_location2 (v : Value) : option V2.Location :=
  match v with
  | VObj fields =>
      match if_present as_integer (field "paragraphIndex" fields),
            if_present as_string (field "searchableText" fields),
            if_present as_string (field "context" fields) with
      | Some p, Some t, Some c =>
          Some {| V2.paragraphIndex := p; V2.searchableText := t;
                  V2.context := c |}
      | _, _, _ => None
      end
  | _ => None
  end.

Definition typed_issue2 (v : Value) : option V2.Issue :=
  match v with
  | VObj fields =>
      match if_present as_string (field "id" fields),
            as_string (field "category" fields),
            as_string (field "severity" fields),
            if_present typed_location2 (field "location" fields),
            if_present as_boolean (field "autoFixable" fields) with
      | Some i, Some c, Some s, Some l, Some a =>
          Some {| V2.id := i; V2.category := c; V2.severity := s;
                  V2.location := l; V2.autoFixable := a |}
      | _, _, _, _, _ => None
      end
  | _ => None
  end.

Lemma typed_ensure_fields2 engine fresh fields issue :
  typed_issue2 (VObj fields) = Some issue ->
  exists v',
    V2_dynamic.ensure_fields engine fresh (VObj fields)
    = Normal (V2_dynamic.Accepted v')
    /\ typed_issue2 v' = Some (V2.ensure_fields issue fresh).
Proof.
  intros Ht. unfold V2_dynamic.ensure_fields. cbn [get assign and_then].
  eexists. split; [reflexivity|].
  cbn [typed_issue2] in *.
  rewrite !field_store_same.
  rewrite (field_store_other "id" "autoFixable") by discriminate.
  rewrite field_store_same.
  rewrite (field_store_other "category" "autoFixable") by discriminate.
  rewrite (field_store_other "category" "id") by discriminate.
  rewrite (field_store_other "severity" "autoFixable") by discriminate.
  rewrite (field_store_other "severity" "id") by discriminate.
  rewrite (field_store_other "location" "autoFixable") by discriminate.
  rewrite (field_store_other "location" "id") by discriminate.
  rewrite (field_store_other "autoFixable" "id") by discriminate.
  destruct (if_present as_string (field "id" fields)) as [i|] eqn:Hi;
    [|discriminate].
  destruct (as_string (field "category" fields)) as [c|]; [|discriminate].
  destruct (as_string (field "severity" fields)) as [s|]; [|discriminate].
  destruct (if_present typed_location2 (field "location" fields)) as [l|];
    [|discriminate].
  destruct (if_present as_boolean (field "autoFixable" fields)) as [a|] eqn:Ha;
    [|discriminate].
  injection Ht as <-. unfold V2.ensure_fields. cbn [V2.id V2.category
    V2.severity V2.location V2.autoFixable].
  assert (if_present as_string
            (if truthy (field "id" fields) then field "id" fields
             else VStr fresh)
          = Some (Some (id_or i fresh))) as ->.
  { destruct (field "id" fields) as [| | | |t| |]; try discriminate;
      cbn in Hi; injection Hi as <-; [reflexivity|].
    destruct t; reflexivity. }
  assert (if_present as_boolean
            match field "autoFixable" fields with
            | VUndefined => VBool false
            | _ => field "autoFixable" fields
            end
          = Some (Some (autoFixable_or_false a))) as ->.
  { destruct (field "autoFixable" fields); try discriminate;
      cbn in Ha; injection Ha as <-; reflexivity. }
  reflexivity.
Qed.

Lemma if_present_integer v p :
  if_present as_integer v = Some p ->
  v = match p with Some z => of_Z z | None => VUndefined end.
Proof.
  destruct v as [| | |n| | |]; try discriminate.
  - now intros [= <-].
  - unfold if_present. destruct (as_integer (VNum n)) as [z|] eqn:E;
      [|discriminate].
    intros [= <-]. now apply as_integer_inv.
Qed.

Lemma if_present_string_truthy v t :
  if_present as_string v = Some t -> truthy v = V2.truthy_text t.
Proof.
  destruct v as [| | | |s| |]; try discriminate; intros [= <-];
    [reflexivity|]. now destruct s.
Qed.

(** On a finding that has the types of the response format, the iteration
    of the code does what [V2.validateIssue] says: it counts or pushes the
    finding exactly when the typed reading does, and drops it without
    counting exactly when the typed reading ends in the [catch]. *)
Theorem typed_paragraph_reading
    (engine : Engine) (doc : V2.DocumentStructure) (fresh : string)
    (v : Value) (issue : V2.Issue) (st : V2_dynamic.Loop) :
  typed_issue2 v = Some issue ->
  match V2.validateIssue doc fresh issue with
  | V2.Accepted issue' =>
      exists v',
        V2_dynamic.validateIssue engine doc fresh v st
        = (Normal tt, V2_dynamic.pushed v' st)
        /\ typed_issue2 v' = Some issue'
  | V2.InvalidParagraphIndex =>
      V2_dynamic.validateIssue engine doc fresh v st
      = (Normal tt, V2_dynamic.counted_invalidParagraphIndex st)
  | V2.MissingSearchableText =>
      V2_dynamic.validateIssue engine doc fresh v st
      = (Normal tt, V2_dynamic.counted_missingSearchableText st)
  | V2.Threw =>
      V2_dynamic.validateIssue engine doc fresh v st = (Normal tt, st)
  end.
Proof.
  intros Ht. destruct v as [| | | | | |fields]; try discriminate.
  pose proof Ht as Hfields. cbn [typed_issue2] in Hfields.
  destruct (if_present as_string (field "id" fields)) as [i|] eqn:Hi;
    [|discriminate].
  destruct (as_string (field "category" fields)) as [c|] eqn:Hc; [|discriminate].
  destruct (as_string (field "severity" fields)) as [sv|] eqn:Hsv; [|discriminate].
  destruct (if_present typed_location2 (field "location" fields)) as [l|] eqn:Hl;
    [|discriminate].
  destruct (if_present as_boolean (field "autoFixable" fields)) as [a|] eqn:Ha;
    [|discriminate].
  injection Hfields as <-.
  assert (print engine [field "id" fields] = Normal tt) as Hprint
    by exact (print_id engine _ _ Hi).
  assert (forall p, exists u,
             print engine [field "id" fields;
                           match p with Some z => of_Z z | None => VUndefined end]
             = Normal u) as Hprint2.
  { intros p. destruct (field "id" fields); try discriminate;
      destruct p; cbn; eauto. }
  unfold V2.validateIssue, V2.get_paragraphIndex, V2.get_searchableText.
  cbn [V2.location].
  unfold V2_dynamic.validateIssue, try_step, bind_step, lift, update, unit_step.
  unfold V2_dynamic.examine. cbn [get and_then].
  destruct (field "location" fields) as [| | | | | |location] eqn:Hloc;
    try discriminate.
  - injection Hl as <-. cbn [V2_dynamic.optional and_then V2_dynamic.is_undefined].
    destruct (Hprint2 None) as [[] ->]. reflexivity.
  - cbn [if_present option_map typed_location2] in Hl.
    destruct (if_present as_integer (field "paragraphIndex" location))
      as [p|] eqn:Hp; [|discriminate].
    destruct (if_present as_string (field "searchableText" location))
      as [t|] eqn:Htext; [|discriminate].
    destruct (if_present as_string (field "context" location)) as [ctx|];
      [|discriminate].
    injection Hl as <-. cbn [V2.paragraphIndex V2.searchableText].
    cbn [V2_dynamic.optional get and_then].
    rewrite (if_present_integer _ _ Hp), (if_present_string_truthy _ _ Htext).
    destruct p as [z|]; cbn [V2_dynamic.is_undefined of_Z and_then].
    + fold (of_Z z). rewrite lt_integers. cbn [and_then].
      destruct (z <? 0); cbn [and_then].
      { destruct (Hprint2 (Some z)) as [[] ->]. reflexivity. }
      unfold V2_dynamic.paragraphs_length.
      destruct (V2.paragraphs doc) as [ps|]; cbn [and_then].
      * rewrite ge_integers. cbn [and_then].
        destruct (Z.of_nat (length ps) <=? z); cbn [and_then].
        { destruct (Hprint2 (Some z)) as [[] ->]. reflexivity. }
        destruct (V2.truthy_text t); cbn [negb].
        -- destruct (typed_ensure_fields2 engine fresh fields _ Ht)
             as (v' & -> & Hv').
           exists v'. split; [reflexivity | exact Hv'].
        -- rewrite Hprint. reflexivity.
      * rewrite Hprint. reflexivity.
    + destruct (Hprint2 None) as [[] ->]. reflexivity.
Qed.

(** A paragraph-form finding of the response format. *)
Definition font_finding : Value :=
  VObj [("id", VStr "font_001"); ("category", VStr "Font");
        ("title", VStr "Incorrect Font Family"); ("severity", VStr "Critical");
        ("location",
         VObj [("paragraphIndex", of_Z 1);
               ("searchableText", VStr "aman malhotra");
               ("context", VStr "Functional Head: aman malhotra")]);
        ("autoFixable", VBool true)].

Lemma typed_paragraph_reading_witness :
  typed_issue2 font_finding
  = Some (sample_finding (Some 1) (Some "aman malhotra"%string))
  /\ (exists v',
        V2_dynamic.validateIssue sample_engine sample_document "issue_1"
          font_finding fresh_loop2
        = (Normal tt, V2_dynamic.pushed v' fresh_loop2)
        /\ typed_issue2 v'
           = Some (sample_finding (Some 1) (Some "aman malhotra"%string)))
  /\ V2_dynamic.validateIssue sample_engine
       {| V2.fullText := V2.fullText sample_document; V2.paragraphs := None |}
       "issue_1" font_finding fresh_loop2
     = (Normal tt, fresh_loop2).
Proof.
  assert (typed_issue2 font_finding
          = Some (sample_finding (Some 1) (Some "aman malhotra"%string)))
    as Htyped by reflexivity.
  split; [exact Htyped|]. split.
  - exact (typed_paragraph_reading sample_engine sample_document "issue_1"
             font_finding _ fresh_loop2 Htyped).
  - exact (typed_paragraph_reading sample_engine
             {| V2.fullText := V2.fullText sample_document;
                V2.paragraphs := None |}
             "issue_1" font_finding _ fresh_loop2 Htyped).
Defined.

End TypedReading.

(** ** [levenshteinDistance] is a metric; what [fuzzyMatch] accepts *)

Section Metric.

Import EditDistance.

Context {A : Type} `{EqDecision A}.

Lemma edits_zero (a b : list A) n : edits a b n -> n = 0%nat -> a = b.
Proof.
  induction 1 as [|x a b n _ IH| | |]; intros Hn; try discriminate.
  - reflexivity.
  - now rewrite (IH Hn).
Qed.

(** Two scripts in a row are matched by one script that costs no more than
    both together. *)
Lemma edits_trans (a b : list A) n :
  edits a b n ->
  forall c m, edits b c m -> exists k, (k <= n + m)%nat /\ edits a c k.
Proof.
  induction 1 as [|x a b n H1 IH|x y a b n H1 IH|x a b n H1 IH|y a b n H1 IH];
    intros c m H2.
  - exists m. split; [lia | assumption].
  - remember (x :: b) as xb eqn:E. revert E.
    induction H2 as [|x' b' c' m' H2 _|x' y' b' c' m' H2 _
                    |x' b' c' m' H2 _|y' b' c' m' H2 IH2]; intros E.
    + discriminate.
    + injection E as -> ->. destruct (IH _ _ H2) as (k & Hk & Hd).
      exists k. split; [lia | now apply edits_keep].
    + injection E as -> ->. destruct (IH _ _ H2) as (k & Hk & Hd).
      exists (S k). split; [lia | now apply edits_subst].
    + injection E as -> ->. destruct (IH _ _ H2) as (k & Hk & Hd).
      exists (S k). split; [lia | now apply edits_delete].
    + destruct (IH2 E) as (k & Hk & Hd).
      exists (S k). split; [lia | now apply edits_insert].
  - remember (y :: b) as yb eqn:E. revert E.
    induction H2 as [|x' b' c' m' H2 _|x' y' b' c' m' H2 _
                    |x' b' c' m' H2 _|y' b' c' m' H2 IH2]; intros E.
    + discriminate.
    + injection E as -> ->. destruct (IH _ _ H2) as (k & Hk & Hd).
      exists (S k). split; [lia | now apply edits_subst].
    + injection E as -> ->. destruct (IH _ _ H2) as (k & Hk & Hd).
      exists (S k). split; [lia | now apply edits_subst].
    + injection E as -> ->. destruct (IH _ _ H2) as (k & Hk & Hd).
      exists (S k). split; [lia | now apply edits_delete].
    + destruct (IH2 E) as (k & Hk & Hd).
      exists (S k). split; [lia | now apply edits_insert].
  - destruct (IH _ _ H2) as (k & Hk & Hd).
    exists (S k). split; [lia | now apply edits_delete].
  - destruct (edits_uncons_l _ _ _ _ H2) as (m' & Hm' & H2').
    destruct (IH _ _ H2') as (k & Hk & Hd).
    exists k. split; [lia | assumption].
Qed.

Lemma lev_triangle (a b c : list A) : (lev a c <= lev a b + lev b c)%nat.
Proof.
  destruct (edits_trans _ _ _ (lev_edits a b) _ _ (lev_edits b c))
    as (k & Hk & Hd).
  apply lev_least in Hd. lia.
Qed.

Lemma lev_zero (a b : list A) : lev a b = 0%nat <-> a = b.
Proof.
  split.
  - intros H0. apply (edits_zero a b (lev a b)); [apply lev_edits | exact H0].
  - intros ->. apply lev_refl.
Qed.

Lemma lev_length_gap (a b : list A) :
  (length a <= length b + lev a b /\ length b <= length a + lev a b)%nat.
Proof. apply edits_length, lev_edits. Qed.

End Metric.

Section MatcherFacts.

Local Open Scope Q_scope.

Lemma chars_inj (a b : string) :
  list_ascii_of_string a = list_ascii_of_string b -> a = b.
Proof.
  intros E. rewrite <- (string_of_list_ascii_of_string a),
    <- (string_of_list_ascii_of_string b), E. reflexivity.
Qed.

Lemma levenshteinDistance_length_gap (a b : string) :
  (String.length a <= String.length b + levenshteinDistance a b
   /\ String.length b <= String.length a + levenshteinDistance a b)%nat.
Proof.
  unfold levenshteinDistance. rewrite MatrixCorrect.distance_lev.
  rewrite <- !length_chars. apply lev_length_gap.
Qed.

(** [levenshteinDistance] is a metric on strings: it is zero exactly on
    equal strings, symmetric, and obeys the triangle inequality; and it lies
    between the difference of the two lengths and the longer length. *)
Theorem levenshteinDistance_metric (a b c : string) :
  (levenshteinDistance a b = 0%nat <-> a = b)
  /\ levenshteinDistance a b = levenshteinDistance b a
  /\ (levenshteinDistance a c
      <= levenshteinDistance a b + levenshteinDistance b c)%nat
  /\ (String.length a - String.length b <= levenshteinDistance a b)%nat
  /\ (String.length b - String.length a <= levenshteinDistance a b)%nat
  /\ (levenshteinDistance a b
      <= Nat.max (String.length a) (String.length b))%nat.
Proof.
  unfold levenshteinDistance. rewrite !MatrixCorrect.distance_lev.
  pose proof (lev_length_gap (list_ascii_of_string a) (list_ascii_of_string b))
    as [G1 G2].
  rewrite !length_chars in G1, G2.
  split; [|split; [|split; [|split; [|split]]]].
  - rewrite lev_zero. split; [apply chars_inj | now intros ->].
  - apply EditDistance.lev_sym.
  - apply lev_triangle.
  - lia.
  - lia.
  - rewrite <- !length_chars. apply EditDistance.lev_le_max.
Qed.

Lemma ratio_bounds (a b : string) :
  a <> EmptyString \/ b <> EmptyString ->
  0 <= quotient a b (levenshteinDistance a b)
  /\ quotient a b (levenshteinDistance a b) <= 1.
Proof.
  intros Hne. unfold quotient.
  pose proof (levenshteinDistance_le_max a b) as Hle.
  assert (Nat.max (String.length a) (String.length b) <> 0)%nat as Hpos.
  { destruct a, b; cbn; try lia. destruct Hne; congruence. }
  destruct (Nat.max (String.length a) (String.length b)) as [|n] eqn:E;
    [congruence|].
  unfold Qle. cbn [Qnum Qden].
  rewrite <- Pos.of_nat_succ, Zpos_P_of_succ_nat. split; lia.
Qed.

(** The score of the matcher lies between 0 and 1. *)
Lemma similarity_bounds (a b : string) :
  0 <= similarity a b /\ similarity a b <= 1.
Proof.
  destruct a as [|ca a]; [|destruct b as [|cb b]].
  - unfold similarity. cbn. split; unfold Qle; cbn; lia.
  - unfold similarity. cbn. split; unfold Qle; cbn; lia.
  - rewrite similarity_quotient by (left; discriminate).
    apply ratio_bounds. left. discriminate.
Qed.

Lemma fuzzyMatch_sym (a b : string) (threshold : Q) :
  fuzzyMatch a b threshold = fuzzyMatch b a threshold.
Proof.
  unfold fuzzyMatch. rewrite (orb_comm (String.length b =? 0)%nat).
  destruct (_ || _); [reflexivity|].
  rewrite !length_longer, (Nat.max_comm (String.length b)).
  destruct (_ =? 0)%nat; [reflexivity|].
  unfold ratio, Js.len. rewrite !distance_longer_shorter, !length_longer.
  rewrite (Nat.max_comm (String.length b)), (levenshteinDistance_sym b a).
  reflexivity.
Qed.

(** What [fuzzyMatch] accepts at its default threshold: two non-empty
    strings whose edit distance is at most a fifth of the longer length.  It
    never matches an empty string, it does not depend on the order of its
    two strings at any threshold, and two strings it matches differ in
    length by at most a fifth of the longer; its score always lies between
    0 and 1. *)
Theorem fuzzyMatch_accepts_fifth (a b : string) :
  (fuzzyMatch a b default_threshold = true
   <-> a <> EmptyString /\ b <> EmptyString
       /\ (5 * levenshteinDistance a b
           <= Nat.max (String.length a) (String.length b))%nat)
  /\ (fuzzyMatch a b default_threshold = true ->
      (5 * (String.length a - String.length b)
       <= Nat.max (String.length a) (String.length b)
       /\ 5 * (String.length b - String.length a)
          <= Nat.max (String.length a) (String.length b))%nat)
  /\ (forall threshold, fuzzyMatch a b threshold = fuzzyMatch b a threshold)
  /\ 0 <= similarity a b <= 1.
Proof.
  assert (fuzzyMatch a b default_threshold = true
          <-> a <> EmptyString /\ b <> EmptyString
              /\ (5 * levenshteinDistance a b
                  <= Nat.max (String.length a) (String.length b))%nat) as Hiff.
  { rewrite (fuzzyMatch_similarity _ _ _ threshold_positive), Qle_bool_iff.
    destruct a as [|ca a]; [|destruct b as [|cb b]].
    - unfold similarity. cbn. split; [intros Hq; now vm_compute in Hq
                                     | intros (N & _); congruence].
    - unfold similarity. cbn. split; [intros Hq; now vm_compute in Hq
                                     | intros (_ & N & _); congruence].
    - rewrite similarity_quotient by (left; discriminate).
      unfold quotient, default_threshold, Qle. cbn [Qnum Qden].
      pose proof (levenshteinDistance_le_max (String ca a) (String cb b)) as Hle.
      destruct (Nat.max (String.length (String ca a)) (String.length (String cb b)))
        as [|n] eqn:E; [cbn in E; lia|].
      rewrite <- Pos.of_nat_succ, Zpos_P_of_succ_nat.
      split.
      + intros Hq. repeat split; try discriminate. lia.
      + intros (_ & _ & Hq). lia. }
  split; [exact Hiff|]. split; [|split; [exact (fuzzyMatch_sym a b) |
                                         exact (similarity_bounds a b)]].
  intros Hm. apply Hiff in Hm as (_ & _ & Hd).
  destruct (levenshteinDistance_length_gap a b) as [G1 G2]. lia.
Qed.

Lemma fuzzyMatch_accepts_fifth_witness :
  fuzzyMatch "wrongword" "wrong-word" default_threshold = true
  /\ (5 * levenshteinDistance "wrongword" "wrong-word" <= 10)%nat
  /\ (5 * (String.length "wrong-word" - String.length "wrongword") <= 10)%nat.
Proof.
  destruct (fuzzyMatch_accepts_fifth "wrongword" "wrong-word")
    as (Hiff & Hlen & _).
  assert (fuzzyMatch "wrongword" "wrong-word" default_threshold = true) as Hm.
  { apply Hiff. repeat split; try discriminate. vm_compute. lia. }
  split; [exact Hm|]. split.
  - apply Hiff in Hm. exact (proj2 (proj2 Hm)).
  - exact (proj2 (Hlen Hm)).
Defined.

End MatcherFacts.

(** ** What the parser selects; when the engine returns a result *)

Section Selection.

Import Parser.

Local Open Scope string_scope.

Lemma through_last_close_occurs (s : string) :
  through_last_close s = None -> occurs close_brace s = false.
Proof.
  induction s as [|c s IH]; [reflexivity|]. cbn [through_last_close occurs].
  destruct (through_last_close s); [discriminate|].
  destruct (Ascii.eqb c close_brace); [discriminate|].
  intros _. now apply IH.
Qed.

Lemma through_last_close_inv (s m : string) :
  through_last_close s = Some m ->
  exists mid post,
    s = mid ++ String close_brace post
    /\ m = mid ++ String close_brace EmptyString
    /\ occurs close_brace post = false.
Proof.
  revert m. induction s as [|c s IH]; intros m; [discriminate|].
  cbn [through_last_close].
  destruct (through_last_close s) as [m'|] eqn:E.
  - intros [= <-]. destruct (IH m' eq_refl) as (mid & post & -> & -> & Hp).
    exists (String c mid), post. repeat split; assumption.
  - destruct (Ascii.eqb_spec c close_brace) as [->|]; [|discriminate].
    intros [= <-]. exists EmptyString, s. repeat split.
    now apply through_last_close_occurs.
Qed.

Lemma jsonMatch_inv (content m : string) :
  jsonMatch content = Some m ->
  exists pre mid post,
    content = pre ++ String open_brace (mid ++ String close_brace post)
    /\ occurs open_brace pre = false
    /\ occurs close_brace post = false
    /\ m = String open_brace (mid ++ String close_brace EmptyString).
Proof.
  induction content as [|c s IH]; [discriminate|].
  cbn [jsonMatch match_here].
  destruct (Ascii.eqb_spec c open_brace) as [->|Hc].
  - destruct (through_last_close s) as [m'|] eqn:E.
    + intros [= <-]. destruct (through_last_close_inv _ _ E)
        as (mid & post & -> & -> & Hp).
      exists EmptyString, mid, post. repeat split. exact Hp.
    + rewrite (jsonMatch_no_close s (through_last_close_occurs _ E)).
      discriminate.
  - intros Hm. destruct (IH Hm) as (pre & mid & post & -> & Hpre & Hpost & ->).
    exists (String c pre), mid, post. repeat split; try assumption.
    cbn [occurs]. rewrite Hpre. apply Ascii.eqb_neq in Hc. now rewrite Hc.
Qed.

(** The pattern matches exactly when the reply holds an opening brace with
    a closing brace somewhere after it, and the match is then the text from
    the first opening brace through the last closing brace, nothing else;
    and selecting from a selected text changes nothing. *)
Theorem jsonMatch_first_to_last (content : string) :
  (forall m,
      jsonMatch content = Some m
      <-> exists pre mid post,
            content = pre ++ String open_brace (mid ++ String close_brace post)
            /\ occurs open_brace pre = false
            /\ occurs close_brace post = false
            /\ m = String open_brace (mid ++ String close_brace EmptyString))
  /\ (jsonMatch content = None
      <-> forall pre rest,
            content = pre ++ String open_brace rest ->
            occurs close_brace rest = false)
  /\ jsonText (jsonText content) = jsonText content.
Proof.
  split; [|split].
  - intros m. split; [apply jsonMatch_inv|].
    intros (pre & mid & post & -> & Hpre & Hpost & ->).
    now apply jsonMatch_braces.
  - split.
    + intros Hnone pre rest ->.
      destruct (occurs close_brace rest) eqn:E; [|reflexivity].
      exfalso. clear -Hnone E.
      induction pre as [|c pre IH].
      * cbn [String.append jsonMatch match_here] in Hnone.
        change (EmptyString ++ String open_brace rest)
          with (String open_brace rest) in Hnone.
        cbn [jsonMatch match_here] in Hnone. rewrite Ascii.eqb_refl in Hnone.
        destruct (through_last_close rest) eqn:T; [discriminate|].
        apply through_last_close_occurs in T. congruence.
      * change (String c pre ++ String open_brace rest)
          with (String c (pre ++ String open_brace rest)) in Hnone.
        cbn [jsonMatch] in Hnone.
        destruct (match_here _); [discriminate|]. now apply IH.
    + intros Hall. destruct (jsonMatch content) as [m|] eqn:E; [|reflexivity].
      destruct (jsonMatch_inv _ _ E) as (pre & mid & post & -> & _ & Hpost & _).
      specialize (Hall pre _ eq_refl). exfalso. clear -Hall.
      induction mid as [|c mid IH]; cbn in Hall.
      * discriminate.
      * apply orb_false_elim in Hall as [_ Hall]. now apply IH.
  - unfold jsonText. destruct (jsonMatch content) as [m|] eqn:E.
    + destruct (jsonMatch_inv _ _ E) as (pre & mid & post & _ & _ & _ & ->).
      change (String open_brace (mid ++ String close_brace EmptyString))
        with (EmptyString ++ String open_brace (mid ++ String close_brace EmptyString)).
      now rewrite jsonMatch_braces.
    + now rewrite E.
Qed.

End Selection.

Section EngineResult.

Local Open Scope Z_scope.

(** The messages of the errors [analyzeDocument] throws. *)
Definition failure_message (m : string) : Prop :=
  m = "Rate limit exceeded. Please wait and try again."%string
  \/ m = "Invalid API key. Please check your Anthropic API key."%string
  \/ m = "Claude is overloaded. Please try again in a moment."%string
  \/ m = "Analysis timeout. Document may be too complex."%string
  \/ exists cause, m = ("Analysis failed: " ++ cause)%string.

Lemma on_failure_message {X : Type} (e0 e : JsError) (log : list Request) :
  @on_failure X e0 = (inl e, log) ->
  e = new_Error (message e) /\ failure_message (message e) /\ log = [].
Proof.
  unfold on_failure, throw, failure_message.
  repeat destruct (decide _);
    try (intros [= <- <-]; cbn; repeat split; tauto).
  destruct (Js.includes _ _); intros [= <- <-]; cbn; repeat split; eauto 10.
Qed.

End EngineResult.

Section DynamicEngineResult.

Import Parser Dyn V1_dynamic.

Local Open Scope Z_scope.

Lemma rethrown_plain (error : JsError) :
  type (rethrown error) = None /\ code (rethrown error) = None
  /\ failure_message (message (rethrown error)).
Proof.
  destruct (on_failure_message (X := unit) error (rethrown error) []
              (on_failure_rethrown error)) as (He & Hm & _).
  rewrite He. cbn. repeat split. rewrite He in Hm. exact Hm.
Qed.

(** What the [catch] of [analyzeDocument] makes of a [TypeError]. *)
Lemma rethrown_TypeError engine fault :
  rethrown (TypeError engine fault)
  = new_Error
      (if Js.includes (describe engine fault) "timeout"
       then "Analysis timeout. Document may be too complex."
       else "Analysis failed: " ++ describe engine fault)%string.
Proof.
  unfold rethrown, on_failure, TypeError, new_Error. cbn [type message].
  repeat (destruct (decide _) as [Hd|_]; [discriminate Hd|]).
  destruct (Js.includes _ _); reflexivity.
Qed.

Lemma try_run_thrown {X : Type} (m : Run X) (e : JsError) :
  fst (try_run m (fun error => of_eff (on_failure error))) = Thrown e ->
  exists error, e = rethrown error.
Proof.
  unfold try_run. destruct m as [[x|error|] log]; try discriminate.
  rewrite on_failure_rethrown. cbn. intros [= <-]. now exists error.
Qed.

Lemma try_run_normal {X : Type} (m : Run X) (x : X) :
  fst (try_run m (fun error => of_eff (on_failure error))) = Normal x ->
  fst m = Normal x.
Proof.
  unfold try_run. destruct m as [[y|error|] log]; try discriminate.
  - exact (fun H => H).
  - rewrite on_failure_rethrown. discriminate.
Qed.

(** Replies that parse and are no object: [null] has no properties, a
    number, a string or a boolean takes none, and a truthy [issues] that is
    neither an array nor a string cannot be gone through. *)
Lemma ill_shaped_replies engine env originalText :
  validateAndProcessResults engine env VNull originalText
  = Thrown (TypeError engine (NoProperties VNull (VStr "summary")))
  /\ (forall n,
        validateAndProcessResults engine env (VNum n) originalText
        = Thrown (TypeError engine (NoNewProperty (VNum n) "summary")))
  /\ (forall s,
        validateAndProcessResults engine env (VStr s) originalText
        = Thrown (TypeError engine (NoNewProperty (VStr s) "summary")))
  /\ (forall b,
        validateAndProcessResults engine env (VBool b) originalText
        = Thrown (TypeError engine (NoNewProperty (VBool b) "summary")))
  /\ (forall fields,
        truthy (field "issues" fields) = true ->
        (forall items, field "issues" fields <> VArr items) ->
        (forall s, field "issues" fields <> VStr s) ->
        validateAndProcessResults engine env (VObj fields) originalText
        = Thrown (TypeError engine (NotIterable (field "issues" fields)))).
Proof.
  repeat match goal with |- _ /\ _ => split end; try reflexivity.
  intros fields Ht Harr Hstr. unfold validateAndProcessResults.
  cbn [get and_then writable]. rewrite Ht.
  destruct (truthy (field "summary" fields)); cbn [and_then];
    destruct (field "issues" fields) as [| |b|n|s|items|fs]; cbn [iterate and_then];
    try reflexivity; try discriminate; congruence.
Qed.

(** The first operation of [validateAndProcessResults] that throws on a
    parsed reply that is no object and no array: reading [summary] from
    [null], storing [summary] in a number, a string or a boolean. *)
Definition first_fault (value : Value) : option Fault :=
  match value with
  | VUndefined | VNull => Some (NoProperties value (VStr "summary"))
  | VBool _ | VNum _ | VStr _ => Some (NoNewProperty value "summary")
  | VArr _ | VObj _ => None
  end.

(** [analyzeDocument] returns a result exactly when the document is within
    the size limit, the model answers, [JSON.parse] accepts the selected
    text of the answer and [validateAndProcessResults] returns on the parsed
    value; the result is then the one that function returns.  Every error
    it throws is a plain [Error] with a message of one of five forms and
    neither the [type] nor a [code] of the original error.  A [TypeError] of
    [validateAndProcessResults] is thrown again as ["Analysis failed: "]
    followed by its message (or as the timeout error when its message holds
    the word): so it is for a reply that parses to [null], to a number, a
    string or a boolean, or whose [issues] cannot be gone through. *)
Theorem analyzeDocument_returns_validated
    (engine : Engine) (env : Env) (svc : Service Value) (documentText : string) :
  (forall result,
      fst (analyzeDocument engine env svc documentText) = Normal result
      <-> Js.len documentText <= 200000
          /\ exists content value,
               complete svc (request svc documentText) = inr content
               /\ JSON_parse svc (jsonText content) = Some value
               /\ validateAndProcessResults engine env value documentText
                  = Normal result)
  /\ (forall e,
        fst (analyzeDocument engine env svc documentText) = Thrown e ->
        type e = None /\ code e = None /\ failure_message (message e))
  /\ (forall content value fault,
        Js.len documentText <= 200000 ->
        complete svc (request svc documentText) = inr content ->
        JSON_parse svc (jsonText content) = Some value ->
        validateAndProcessResults engine env value documentText
        = Thrown (TypeError engine fault) ->
        fst (analyzeDocument engine env svc documentText)
        = Thrown
            (new_Error
               (if Js.includes (describe engine fault) "timeout"
                then "Analysis timeout. Document may be too complex."
                else "Analysis failed: " ++ describe engine fault)%string))
  /\ (forall content value fault,
        Js.len documentText <= 200000 ->
        complete svc (request svc documentText) = inr content ->
        JSON_parse svc (jsonText content) = Some value ->
        first_fault value = Some fault ->
        fst (analyzeDocument engine env svc documentText)
        = Thrown (rethrown (TypeError engine fault))).
Proof.
  split; [|split; [|split]].
  - intros result. split.
    + intros Hres.
      destruct (200000 <? Js.len documentText) eqn:Hs.
      { unfold analyzeDocument in Hres. rewrite Hs in Hres.
        apply try_run_normal in Hres. discriminate. }
      apply Z.ltb_ge in Hs. split; [exact Hs|].
      destruct (complete svc (request svc documentText)) as [e|content] eqn:Hc.
      { unfold analyzeDocument, invoke in Hres.
        apply Z.ltb_ge in Hs. rewrite Hs, Hc in Hres.
        apply try_run_normal in Hres. discriminate. }
      rewrite (analyzeDocument_replied engine env svc _ _ Hs Hc) in Hres.
      cbn [fst] in Hres. exists content.
      destruct (JSON_parse svc (jsonText content)) as [value|]; [|discriminate].
      exists value. repeat split. unfold validated_or_rethrown in Hres.
      destruct (validateAndProcessResults engine env value documentText);
        try discriminate. exact Hres.
    + intros (Hs & content & value & Hc & Hp & Hv).
      rewrite (analyzeDocument_replied engine env svc _ _ Hs Hc), Hp.
      unfold validated_or_rethrown. now rewrite Hv.
  - intros e He. unfold analyzeDocument in He.
    apply try_run_thrown in He as [error ->]. apply rethrown_plain.
  - intros content value fault Hs Hc Hp Hv.
    rewrite (analyzeDocument_replied engine env svc _ _ Hs Hc), Hp.
    unfold validated_or_rethrown. rewrite Hv. cbn [fst].
    now rewrite rethrown_TypeError.
  - intros content value fault Hs Hc Hp Hshape.
    rewrite (analyzeDocument_replied engine env svc _ _ Hs Hc), Hp.
    unfold validated_or_rethrown. cbn [fst].
    destruct (ill_shaped_replies engine env documentText)
      as (Hnull & Hnum & Hstr & Hbool & _).
    destruct value as [| |b|n|s|items|fields]; try discriminate;
      injection Hshape as <-.
    + reflexivity.
    + now rewrite Hnull.
    + now rewrite Hbool.
    + now rewrite Hnum.
    + now rewrite Hstr.
Qed.

Lemma analyzeDocument_returns_validated_witness :
  fst (analyzeDocument sample_engine sample_env (replying_service "null")
         sample_text)
  = Thrown (new_Error "Analysis failed: Cannot read properties of null")
  /\ exists result,
       fst (analyzeDocument sample_engine sample_env
              (replying_service "Here is the result: {} Hope this helps!")
              sample_text)
       = Normal result.
Proof.
  split.
  - destruct (analyzeDocument_returns_validated sample_engine sample_env
                (replying_service "null") sample_text) as (_ & _ & Hfault & _).
    apply (Hfault "null"%string VNull (NoProperties VNull (VStr "summary")));
      [vm_compute; discriminate | reflexivity | reflexivity | reflexivity].
  - destruct (analyzeDocument_returns_validated sample_engine sample_env
                (replying_service "Here is the result: {} Hope this helps!")
                sample_text) as (Hok & _).
    eexists. apply Hok. split; [vm_compute; discriminate|].
    exists "Here is the result: {} Hope this helps!"%string, (VObj []).
    repeat split; reflexivity.
Defined.

End DynamicEngineResult.

(** ** The statuses of the analyze endpoint; what a valid request holds *)

Section EndpointFacts.

Import Api.

Local Open Scope Z_scope.

(** The endpoint answers with one of four statuses, for every method and
    body and whatever the service and the model do, and it hands a document
    to the service only for a POST request that passed validation. *)
Theorem handler_status_range
    (env : Env) (svc : Service V2.Reply)
    (stringify : V2.DocumentStructure -> string)
    (decode : JsValue -> V2.DocumentStructure)
    (method : string) (body : JsValue) :
  let response := handler (service_call env svc stringify decode) method body in
  (status response = 200 \/ status response = 400
   \/ status response = 405 \/ status response = 500)
  /\ (analyzed response <> None ->
      method = "POST"%string /\ valid (validateRequest body) = true
      /\ analyzed response = Some (chosen_document body))
  /\ (method = "OPTIONS"%string -> response = {| status := 200; analyzed := None |})
  /\ (method <> "OPTIONS"%string -> method <> "POST"%string ->
      response = {| status := 405; analyzed := None |}).
Proof.
  intros response. subst response. unfold handler.
  destruct (String.eqb_spec method "OPTIONS") as [Ho|Ho].
  { cbn. repeat split; try tauto; congruence. }
  destruct (String.eqb_spec method "POST") as [Hp|Hp]; cbn [negb].
  2:{ cbn. repeat split; try tauto; congruence. }
  destruct (valid (validateRequest body)) eqn:Hv; cbn [negb].
  2:{ cbn. repeat split; try tauto; congruence. }
  fold (chosen_document body).
  destruct (service_call env svc stringify decode (chosen_document body))
    as [e|r] eqn:E.
  - rewrite (statusCode_without_code e (V2_failure_code _ _ _ _ _ E)).
    cbn. repeat split; try tauto; congruence.
  - destruct (has_properties (get body "documentText")); cbn;
      repeat split; try tauto; congruence.
Qed.

(** A request that has no [documentText] (as a structured request may) is
    never answered with 200: after a successful analysis the response is
    built from [documentText.length], which throws, and the request is
    answered with 500. *)
Theorem request_without_text_never_ok
    {R : Type} (analyzeDocument : JsValue -> JsError + R)
    (method : string) (body : JsValue) :
  method <> "OPTIONS"%string ->
  get body "documentText" = JUndefined \/ get body "documentText" = JNull ->
  status (handler analyzeDocument method body) <> 200
  /\ (method = "POST"%string -> valid (validateRequest body) = true ->
      forall result, analyzeDocument (chosen_document body) = inr result ->
      handler analyzeDocument method body
      = {| status := 500; analyzed := Some (chosen_document body) |}).
Proof.
  intros Ho Htext.
  assert (has_properties (get body "documentText") = false) as Hno
    by (destruct Htext as [-> | ->]; reflexivity).
  unfold handler. apply String.eqb_neq in Ho. rewrite Ho.
  destruct (String.eqb_spec method "POST") as [Hp|Hp]; cbn [negb].
  2:{ split; [cbn; lia | congruence]. }
  destruct (valid (validateRequest body)) eqn:Hv; cbn [negb].
  2:{ split; [cbn; lia | congruence]. }
  fold (chosen_document body). rewrite Hno.
  destruct (analyzeDocument (chosen_document body)) as [e|r] eqn:E.
  - split; [|intros _ _ result [=]]. cbn [status]. unfold statusCode.
    repeat destruct (decide _); lia.
  - rewrite (statusCode_without_code type_error eq_refl).
    split; [cbn; lia|]. intros _ _ result _. reflexivity.
Qed.

(** A structured request of 102 characters, without a [documentText]. *)
Definition structured_body : JsValue :=
  JObj [("documentStructure"%string,
         JObj [("fullText"%string, JStr long_enough_text);
               ("paragraphs"%string, JArr [])])].

Lemma request_without_text_never_ok_witness :
  valid (validateRequest structured_body) = true
  /\ handler (fun _ : JsValue => @inr JsError unit tt) "POST" structured_body
     = {| status := 500; analyzed := Some (chosen_document structured_body) |}.
Proof.
  split; [reflexivity|].
  destruct (request_without_text_never_ok (fun _ : JsValue => @inr JsError unit tt)
              "POST" structured_body) as [_ H].
  - discriminate.
  - left. reflexivity.
  - apply (H eq_refl eq_refl tt). reflexivity.
Defined.

Lemma app_nil_length {X : Type} (l1 l2 : list X) :
  (length (l1 ++ l2) =? 0)%nat = true -> l1 = [] /\ l2 = [].
Proof. destruct l1, l2; cbn; try discriminate. now split. Qed.

Lemma valid_request_holds (body : JsValue) :
  valid (validateRequest body) = true ->
  errors (validateRequest body) = []
  /\ (truthy (get body "documentText") = true ->
      exists s, get body "documentText" = JStr s
                /\ 100 <= Js.len s <= 200000)
  /\ (truthy (get body "documentText") = false ->
      isArray (get (get body "documentStructure") "paragraphs") = true
      /\ truthy (get (get body "documentStructure") "fullText") = true
      /\ forall s, get (get body "documentStructure") "fullText" = JStr s ->
                   100 <= Js.len s <= 200000)
  /\ (truthy (get body "analysisMode") = true ->
      get body "analysisMode" = JStr "llm"
      \/ get body "analysisMode" = JStr "rules"
      \/ get body "analysisMode" = JStr "hybrid")
  /\ (truthy (get body "userId") = true ->
      exists u, get body "userId" = JStr u /\ Js.len u <= 100).
Proof.
  unfold validateRequest. destruct (truthy body); [|discriminate].
  cbn [negb valid errors]. intros Hv.
  destruct (app_nil_length _ _ Hv) as [Hdoc Hrest].
  destruct (app_nil_length _ _ (eq_trans (f_equal (fun l => (length l =? 0)%nat)
                                            Hrest) eq_refl)) as [Hmode Huser].
  rewrite Hdoc, Hmode, Huser. split; [reflexivity|].
  unfold document_errors in Hdoc. unfold mode_errors in Hmode.
  unfold user_errors in Huser.
  split; [|split; [|split]].
  - intros Ht. rewrite Ht in Hdoc. cbn [negb andb] in Hdoc.
    destruct (get body "documentText") as [| | | |s| |]; cbn in Hdoc;
      try discriminate.
    exists s. split; [reflexivity|].
    destruct (Js.len s <? 100) eqn:E1; [discriminate|].
    destruct (200000 <? Js.len s) eqn:E2; [discriminate|].
    apply Z.ltb_ge in E1, E2. lia.
  - intros Ht. rewrite Ht in Hdoc. cbn [negb andb] in Hdoc.
    destruct (truthy (get body "documentStructure")); [|discriminate].
    cbn [negb] in Hdoc.
    destruct (is_object (get body "documentStructure")); [|discriminate].
    cbn [negb] in Hdoc.
    destruct (truthy (get (get body "documentStructure") "fullText"));
      [|discriminate].
    cbn [negb] in Hdoc.
    destruct (truthy (get (get body "documentStructure") "paragraphs"));
      [|discriminate].
    destruct (isArray (get (get body "documentStructure") "paragraphs"));
      [|discriminate].
    cbn [negb orb] in Hdoc. split; [reflexivity|]. split; [reflexivity|].
    intros s Hs. rewrite Hs in Hdoc. cbn [length_of lt_num gt_num] in Hdoc.
    destruct (Js.len s <? 100) eqn:E1; [discriminate|].
    destruct (200000 <? Js.len s) eqn:E2; [discriminate|].
    apply Z.ltb_ge in E1, E2. lia.
  - intros Ht. rewrite Ht in Hmode. cbn [andb] in Hmode.
    destruct (get body "analysisMode") as [| | | |s| |]; cbn in Hmode;
      try discriminate.
    destruct (String.eqb_spec s "llm") as [->|]; [tauto|].
    destruct (String.eqb_spec s "rules") as [->|]; [tauto|].
    destruct (String.eqb_spec s "hybrid") as [->|]; [tauto|].
    discriminate.
  - intros Ht. rewrite Ht in Huser. cbn [andb] in Huser.
    destruct (get body "userId") as [| | | |u| |]; cbn in Huser;
      try discriminate.
    exists u. split; [reflexivity|].
    destruct (100 <? Js.len u) eqn:E; [discriminate|].
    apply Z.ltb_ge in E. exact E.
Qed.

(** What a request that passed validation holds.  Its [documentText], when
    given, is a string of 100 to 200,000 characters; otherwise its
    [documentStructure] is an object whose [paragraphs] is an array and whose
    [fullText], when a string, has 100 to 200,000 characters.  Its
    [analysisMode], when given, is one of the three modes, and its [userId],
    when given, is a string of at most 100 characters. *)
Theorem valid_request_contents (body : JsValue) :
  valid (validateRequest body) = true ->
  errors (validateRequest body) = []
  /\ (truthy (get body "documentText") = true ->
      exists s, get body "documentText" = JStr s
                /\ 100 <= Js.len s <= 200000)
  /\ (truthy (get body "documentText") = false ->
      isArray (get (get body "documentStructure") "paragraphs") = true
      /\ truthy (get (get body "documentStructure") "fullText") = true
      /\ forall s, get (get body "documentStructure") "fullText" = JStr s ->
                   100 <= Js.len s <= 200000)
  /\ (truthy (get body "analysisMode") = true ->
      get body "analysisMode" = JStr "llm"
      \/ get body "analysisMode" = JStr "rules"
      \/ get body "analysisMode" = JStr "hybrid")
  /\ (truthy (get body "userId") = true ->
      exists u, get body "userId" = JStr u /\ Js.len u <= 100).
Proof. exact (valid_request_holds body). Qed.

Lemma valid_request_contents_witness :
  exists s, get plain_body "documentText" = JStr s /\ 100 <= Js.len s <= 200000.
Proof.
  destruct (valid_request_contents plain_body eq_refl) as (_ & Htext & _).
  apply Htext. reflexivity.
Defined.

(** A plain-text request end to end.  For a valid POST request that gives
    its document as [documentText] only, the document handed to the service
    is [{ fullText: documentText }]; the size check of the engine never
    fires on it, so the model is called exactly once; and when the analysis
    succeeds the request is answered with 200 and a result without issues,
    because that document has no paragraphs. *)
Theorem plain_text_request
    (env : Env) (svc : Service V2.Reply)
    (stringify : V2.DocumentStructure -> string) (body : JsValue) :
  valid (validateRequest body) = true ->
  truthy (get body "documentStructure") = false ->
  exists s,
    get body "documentText" = JStr s
    /\ chosen_document body = JObj [("fullText"%string, JStr s)]
    /\ snd (V2.analyzeDocument env svc stringify
              (decode_fullText (chosen_document body)))
       = [V2.request svc stringify (decode_fullText (chosen_document body))]
    /\ forall result,
         service_call env svc stringify decode_fullText (chosen_document body)
         = inr result ->
         handler (service_call env svc stringify decode_fullText) "POST" body
         = {| status := 200; analyzed := Some (chosen_document body) |}
         /\ V2.issues result = [].
Proof.
  intros Hv Hds.
  assert (truthy (get body "documentText") = true) as Ht.
  { revert Hv. unfold validateRequest. destruct (truthy body); [|discriminate].
    cbn [negb valid]. unfold document_errors. rewrite Hds.
    destruct (truthy (get body "documentText")); [reflexivity|]. discriminate. }
  destruct (valid_request_holds body Hv) as (_ & Htext & _).
  destruct (Htext Ht) as (s & Hs & Hlo & Hhi).
  exists s. split; [exact Hs|].
  assert (chosen_document body = JObj [("fullText"%string, JStr s)]) as Hdoc
    by (unfold chosen_document; now rewrite Hds, Hs).
  split; [exact Hdoc|]. rewrite Hdoc.
  assert (decode_fullText (JObj [("fullText"%string, JStr s)])
          = {| V2.fullText := Some s; V2.paragraphs := None |}) as Hdec
    by reflexivity.
  split.
  - apply V2_sized. rewrite Hdec. unfold V2.too_large. cbn [V2.fullText].
    apply Z.ltb_ge. lia.
  - intros result Hres. split.
    + unfold handler. cbn [String.eqb Ascii.eqb Bool.eqb negb].
      rewrite Hv. cbn [negb]. fold (chosen_document body).
      rewrite Hdoc, Hres, Hs. reflexivity.
    + unfold service_call in Hres.
      exact (proj1 (no_paragraphs_result env svc stringify
                      (decode_fullText (JObj [("fullText"%string, JStr s)]))
                      result eq_refl Hres)).
Qed.

Lemma plain_text_request_witness :
  handler (service_call sample_env reporting_service (fun _ => "{}"%string)
             decode_fullText) "POST" plain_body
  = {| status := 200; analyzed := Some (chosen_document plain_body) |}
  /\ exists result,
       service_call sample_env reporting_service (fun _ => "{}"%string)
         decode_fullText (chosen_document plain_body) = inr result
       /\ V2.issues result = [].
Proof.
  destruct (plain_text_request sample_env reporting_service
              (fun _ => "{}"%string) plain_body eq_refl eq_refl)
    as (s & _ & _ & _ & H).
  assert (exists result,
            service_call sample_env reporting_service (fun _ => "{}"%string)
              decode_fullText (chosen_document plain_body) = inr result)
    as [result Hres] by (eexists; reflexivity).
  destruct (H result Hres) as [Hok Hnone].
  split; [exact Hok|]. exists result. now split.
Defined.

End EndpointFacts.

(** ** The decisions of [rateLimit] and what a call leaves in the store *)

Section AdmissionFacts.

Import RateLimit.

Local Open Scope Z_scope.

Lemma rateLimit_decides (store : gmap string Data) (call : Call) :
  let d := fst (rateLimit store call) in
  let recorded := requests_of (snd (rateLimit store call)) (key call) in
  (success d = true
   <-> Z.of_nat (length (retained store call)) < max (options call))
  /\ limit d = max (options call)
  /\ 0 <= remaining d
  /\ (success d = true ->
      recorded = retained store call ++ [now call]
      /\ Z.of_nat (length recorded) = max (options call) - remaining d
      /\ Z.of_nat (length recorded) <= max (options call)
      /\ retryAfter d = Fin 0)
  /\ (success d = false ->
      recorded = retained store call /\ remaining d = 0).
Proof.
  intros d recorded. subst d recorded.
  destruct (Z.lt_ge_cases (Z.of_nat (length (retained store call)))
              (max (options call))) as [Hroom|Hfull].
  - destruct (rateLimit_admits store call Hroom) as [Hd Hr]. rewrite Hd, Hr.
    cbn [success limit remaining retryAfter]. rewrite length_app. cbn [length].
    split; [split; [intros _; exact Hroom | reflexivity]|].
    split; [reflexivity|]. split; [lia|].
    split; [intros _; repeat split; lia | discriminate].
  - destruct (rateLimit_refuses store call Hfull) as (Hs & Hrem & _ & Hr).
    rewrite Hs, Hrem, Hr.
    split; [split; [discriminate | lia]|].
    split; [unfold rateLimit; destruct (_ <=? _); reflexivity|].
    split; [lia|]. split; [discriminate | intros _; now split].
Qed.

(** What a call decides and records for its key.  The check is allowed
    exactly when fewer than [max] recorded instants lie within the window;
    [remaining] is never negative; an allowed check is recorded last and
    leaves at most [max] instants, [max - remaining] of them, for the key;
    a refused check records nothing and reports no remaining request. *)
Theorem rateLimit_decision (store : gmap string Data) (call : Call) :
  let d := fst (rateLimit store call) in
  let recorded := requests_of (snd (rateLimit store call)) (key call) in
  (success d = true
   <-> Z.of_nat (length (retained store call)) < max (options call))
  /\ limit d = max (options call)
  /\ 0 <= remaining d
  /\ (success d = true ->
      recorded = retained store call ++ [now call]
      /\ Z.of_nat (length recorded) = max (options call) - remaining d
      /\ Z.of_nat (length recorded) <= max (options call)
      /\ retryAfter d = Fin 0)
  /\ (success d = false ->
      recorded = retained store call /\ remaining d = 0).
Proof. exact (rateLimit_decides store call). Qed.

Lemma minimum_least (l : list Z) :
  l <> [] ->
  exists m, minimum l = Fin m /\ In m l /\ Forall (fun a => m <= a) l.
Proof.
  destruct l as [|t rest]; [congruence|]. intros _. cbn [minimum].
  exists (fold_left Z.min rest t). split; [reflexivity|].
  revert t. induction rest as [|a rest IH]; intros t; cbn [fold_left].
  - split; [now left | repeat constructor; lia].
  - destruct (IH (Z.min t a)) as [Hin Hall]. split.
    + destruct Hin as [Hin|Hin]; [|now right; right].
      destruct (Z.min_spec t a) as [[_ E]|[_ E]]; rewrite E in Hin |- *;
        [now left | now right; left].
    + inversion Hall as [|? ? H1 H2]; subst.
      constructor; [lia|]. constructor; [lia | exact H2].
Qed.

Lemma In_recent cutoff a l : In a (recent cutoff l) -> cutoff < a /\ In a l.
Proof.
  unfold recent. rewrite filter_In. intros [Hin Hlt].
  apply Z.ltb_lt in Hlt. now split.
Qed.

Lemma ceil_div_1000_mono x y : x <= y -> ceil_div_1000 x <= ceil_div_1000 y.
Proof.
  intros Hxy. unfold ceil_div_1000.
  assert (- y / 1000 <= - x / 1000) by (apply Z.div_le_mono; lia). lia.
Qed.

(** No recorded instant of the store is later than [t]. *)
Definition timely (t : Z) (store : gmap string Data) : Prop :=
  forall k, Forall (fun a => a <= t) (requests_of store k).

Lemma Forall_recent (P : Z -> Prop) cutoff l :
  Forall P l -> Forall P (recent cutoff l).
Proof.
  unfold recent. induction 1 as [|a l Ha _ IH]; cbn [List.filter];
    [constructor|].
  destruct (cutoff <? a); [constructor|]; assumption.
Qed.

Lemma requests_of_after_call (store : gmap string Data) (call : Call) k :
  key call <> k ->
  requests_of (snd (rateLimit store call)) k
  = requests_of (after_cleanup store call) k.
Proof.
  intros Hk. unfold rateLimit. fold (after_cleanup store call).
  destruct (_ <=? _); cbn [snd]; unfold requests_of;
    now rewrite lookup_insert_ne.
Qed.

Lemma requests_of_after_cleanup (store : gmap string Data) (call : Call) k :
  requests_of (after_cleanup store call) k
  = match cleanup call with
    | Some _ => recent (now call - windowMs (options call)) (requests_of store k)
    | None => requests_of store k
    end.
Proof.
  unfold after_cleanup. destruct (cleanup call); [|reflexivity].
  apply requests_of_cleanup.
Qed.

Lemma timely_step (store : gmap string Data) (call : Call) t :
  timely t store -> t <= now call ->
  timely (now call) (snd (rateLimit store call)).
Proof.
  intros Ht Hle k.
  assert (forall j, Forall (fun a => a <= now call) (requests_of store j)) as Ht'.
  { intros j. eapply List.Forall_impl; [|apply Ht]. cbv beta. intros. lia. }
  destruct (decide (key call = k)) as [<-|Hk].
  - destruct (rateLimit_decides store call) as (_ & _ & _ & Hok & Hno).
    destruct (success (fst (rateLimit store call))).
    + destruct (Hok eq_refl) as (-> & _). apply Forall_app. split.
      * apply Forall_recent, Ht'.
      * repeat constructor. lia.
    + destruct (Hno eq_refl) as (-> & _). apply Forall_recent, Ht'.
  - rewrite (requests_of_after_call _ _ _ Hk), requests_of_after_cleanup.
    destruct (cleanup call); [apply Forall_recent|]; apply Ht'.
Qed.

(** The refusal of a call with a limit of at least one, on a store without
    instants later than the call: [retryAfter] is a whole number of seconds,
    at least 1 and at most the window rounded up to seconds. *)
Lemma refusal_retry_after (store : gmap string Data) (call : Call) :
  timely (now call) store ->
  1 <= max (options call) ->
  success (fst (rateLimit store call)) = false ->
  exists r, retryAfter (fst (rateLimit store call)) = Fin r
            /\ 1 <= r <= ceil_div_1000 (windowMs (options call)).
Proof.
  intros Ht Hmax Hno.
  destruct (rateLimit_decides store call) as (Hiff & _).
  assert (max (options call) <= Z.of_nat (length (retained store call))) as Hfull.
  { destruct (Z.lt_ge_cases (Z.of_nat (length (retained store call)))
                (max (options call))) as [Hroom|]; [|assumption].
    apply Hiff in Hroom. congruence. }
  destruct (rateLimit_refuses store call Hfull) as (_ & _ & Hr & _).
  destruct (minimum_least (retained store call)) as (m & Hm & Hin & _).
  { destruct (retained store call); [cbn in Hfull; lia | discriminate]. }
  rewrite Hr, Hm. cbn [retry_after]. eexists. split; [reflexivity|].
  apply In_recent in Hin as [Hlt Hin].
  assert (m <= now call) as Hle.
  { specialize (Ht (key call)). rewrite List.Forall_forall in Ht. now apply Ht. }
  split.
  - assert (0 < ceil_div_1000 (m + windowMs (options call) - now call))
      by (apply ceil_div_1000_positive; lia). lia.
  - apply ceil_div_1000_mono. lia.
Qed.

(** In a run from the empty store whose calls are in chronological order,
    every decision carries a usable [retryAfter]: 0 when the check is
    allowed, and for a refusal under a limit of at least one a number of
    seconds between 1 and the window of the call rounded up. *)
Theorem retry_after_within_window (calls : list Call) (t0 : Z) :
  chronological t0 calls ->
  Forall (fun cd : Call * Outcome =>
            (success (snd cd) = true -> retryAfter (snd cd) = Fin 0)
            /\ (success (snd cd) = false -> 1 <= max (options (fst cd)) ->
                exists r, retryAfter (snd cd) = Fin r
                          /\ 1 <= r
                             <= ceil_div_1000 (windowMs (options (fst cd)))))
         (combine calls (fst (run ∅ calls))).
Proof.
  assert (timely t0 (∅ : gmap string Data)) as Hinit
    by (intros k; unfold requests_of; rewrite lookup_empty; constructor).
  revert Hinit. generalize (∅ : gmap string Data) as store. revert t0.
  induction calls as [|call calls IH]; intros t0 store Ht Hchron;
    [constructor|].
  destruct Hchron as [Hle Hchron]. rewrite run_cons. cbn [fst combine].
  constructor.
  - cbn [fst snd]. split.
    + intros Hok. now apply (rateLimit_decides store call).
    + intros Hno Hmax. apply refusal_retry_after; try assumption.
      intros k. eapply List.Forall_impl; [|apply Ht]. cbv beta. intros. lia.
  - apply (IH (now call)); [|assumption].
    now apply timely_step with (t := t0).
Qed.

Lemma retry_after_within_window_witness :
  Forall (fun cd : Call * Outcome =>
            (success (snd cd) = true -> retryAfter (snd cd) = Fin 0)
            /\ (success (snd cd) = false -> 1 <= max (options (fst cd)) ->
                exists r, retryAfter (snd cd) = Fin r
                          /\ 1 <= r
                             <= ceil_div_1000 (windowMs (options (fst cd)))))
         (combine six_checks (fst (run ∅ six_checks))).
Proof.
  apply (retry_after_within_window six_checks 0).
  cbn. repeat split; lia.
Defined.

(** A limit of zero refuses a key without a record, and the retry time is
    then [Math.min()] of nothing, carried through the arithmetic:
    [Infinity]. *)
Lemma zero_limit_retry_infinity (store : gmap string Data) (call : Call) :
  max (options call) <= 0 ->
  retained store call = [] ->
  success (fst (rateLimit store call)) = false
  /\ retryAfter (fst (rateLimit store call)) = Infinity.
Proof.
  intros Hmax Hnone.
  destruct (rateLimit_refuses store call) as (Hs & _ & Hr & _).
  - rewrite Hnone. cbn. lia.
  - rewrite Hr, Hnone. now split.
Qed.

Lemma rateLimit_leaves (store : gmap string Data) (call : Call) :
  let store' := snd (rateLimit store call) in
  is_Some (store' !! key call)
  /\ (forall k, k <> key call -> is_Some (store' !! k) -> is_Some (store !! k))
  /\ (cleanup call = None ->
      forall k, k <> key call -> store' !! k = store !! k)
  /\ (forall k, k <> key call ->
      requests_of store' k
      = match cleanup call with
        | Some _ =>
            recent (now call - windowMs (options call)) (requests_of store k)
        | None => requests_of store k
        end).
Proof.
  intros store'. subst store'.
  assert (forall k, k <> key call ->
            snd (rateLimit store call) !! k = after_cleanup store call !! k)
    as Hother.
  { intros k Hk. unfold rateLimit. fold (after_cleanup store call).
    destruct (_ <=? _); cbn [snd]; now rewrite lookup_insert_ne. }
  split; [|split; [|split]].
  - unfold rateLimit. destruct (_ <=? _); cbn [snd];
      rewrite lookup_insert_eq; eauto.
  - intros k Hk. rewrite (Hother k Hk). unfold after_cleanup.
    destruct (cleanup call) as [dateNow|]; [|exact (fun H => H)].
    unfold cleanupOldEntries. rewrite lookup_omap.
    destruct (store !! k); [eauto | intros [x Hx]; discriminate].
  - intros Hc k Hk. rewrite (Hother k Hk). unfold after_cleanup.
    now rewrite Hc.
  - intros k Hk.
    rewrite (requests_of_after_call store call k) by congruence.
    apply requests_of_after_cleanup.
Qed.

(** What a call does to the rest of the store.  The key of the call has a
    record afterwards; no other key gains a record; without a cleanup every
    other record is untouched; with a cleanup every other key keeps, of its
    instants, those later than the cutoff of this call, in their order. *)
Theorem rateLimit_frame (store : gmap string Data) (call : Call) :
  let store' := snd (rateLimit store call) in
  is_Some (store' !! key call)
  /\ (forall k, k <> key call -> is_Some (store' !! k) -> is_Some (store !! k))
  /\ (cleanup call = None ->
      forall k, k <> key call -> store' !! k = store !! k)
  /\ (forall k, k <> key call ->
      requests_of store' k
      = match cleanup call with
        | Some _ =>
            recent (now call - windowMs (options call)) (requests_of store k)
        | None => requests_of store k
        end).
Proof. exact (rateLimit_leaves store call). Qed.

(** [cleanupOldEntries] removes exactly the records that hold no instant
    later than the cutoff and whose reset time is past; it keeps every other
    record with its instants filtered and its reset time as it was; and a
    second cleanup with the same cutoff and clock changes nothing more. *)
Theorem cleanupOldEntries_effect
    (cutoffTime dateNow : Z) (store : gmap string Data) :
  (forall k,
      cleanupOldEntries cutoffTime dateNow store !! k
      = match store !! k with
        | Some data =>
            if decide (recent cutoffTime (requests data) = []
                       /\ resetTime data < dateNow)
            then None
            else Some {| requests := recent cutoffTime (requests data);
                         resetTime := resetTime data |}
        | None => None
        end)
  /\ cleanupOldEntries cutoffTime dateNow
       (cleanupOldEntries cutoffTime dateNow store)
     = cleanupOldEntries cutoffTime dateNow store.
Proof.
  assert (forall data,
            cleanup_entry cutoffTime dateNow data
            = if decide (recent cutoffTime (requests data) = []
                         /\ resetTime data < dateNow)
              then None
              else Some {| requests := recent cutoffTime (requests data);
                           resetTime := resetTime data |}) as Hentry.
  { intros data. unfold cleanup_entry.
    destruct (decide _) as [[E Hr]|Hn].
    - rewrite E. apply Z.ltb_lt in Hr. now rewrite Hr.
    - destruct (recent cutoffTime (requests data)) as [|a l] eqn:E; cbn.
      + destruct (Z.ltb_spec (resetTime data) dateNow); [|reflexivity].
        exfalso. apply Hn. now split.
      + reflexivity. }
  split.
  - intros k. unfold cleanupOldEntries. rewrite lookup_omap.
    destruct (store !! k); [apply Hentry | reflexivity].
  - apply map_eq. intros k. unfold cleanupOldEntries. rewrite !lookup_omap.
    destruct (store !! k) as [data|]; [|reflexivity]. cbn.
    rewrite (Hentry data). destruct (decide _) as [|Hn]; [reflexivity|].
    cbn. rewrite Hentry. cbn [requests resetTime].
    rewrite recent_idempotent. destruct (decide _); [contradiction|reflexivity].
Qed.

(** The bound of the sliding window at a concrete run: the six checks of
    one address, with the cleanups its own calls draw. *)
Lemma window_bound_without_shorter_cleanup_witness :
  Z.of_nat (allowed_within "203.0.113.7" 900000 6000 six_checks
              (fst (run ∅ six_checks))) <= 5.
Proof.
  apply (window_bound_without_shorter_cleanup "203.0.113.7" 900000 5
           ltac:(lia) ∅ six_checks 0 6000).
  - reflexivity.
  - cbn. repeat split; lia.
  - repeat constructor; cbn; (reflexivity || lia).
Defined.

End AdmissionFacts.

(** ** API keys, user ids, CORS headers and the health endpoint *)

Section UtilsFacts.

Import Utils.

Local Open Scope Z_scope.

(** [keys.join(',')]. *)
Fixpoint join_commas (keys : list string) : string :=
  match keys with
  | [] => EmptyString
  | [k] => k
  | k :: rest => (k ++ String ","%char (join_commas rest))%string
  end.

Lemma split_commas_not_nil (s : string) : split_commas s <> [].
Proof.
  induction s as [|c s IH]; cbn [split_commas]; [discriminate|].
  destruct (Ascii.eqb c ","); [discriminate|].
  destruct (split_commas s); [congruence | discriminate].
Qed.

Lemma split_commas_segments (s : string) :
  Forall (fun seg => occurs ","%char seg = false) (split_commas s).
Proof.
  induction s as [|c s IH]; cbn [split_commas].
  - repeat constructor.
  - destruct (Ascii.eqb c ",") eqn:E; [constructor; [reflexivity | exact IH]|].
    destruct (split_commas s) as [|seg rest]; [repeat constructor; cbn; now rewrite E|].
    inversion IH as [|? ? Hseg Hrest]; subst.
    constructor; [cbn; now rewrite E, Hseg | exact Hrest].
Qed.

Lemma split_commas_free (k : string) :
  occurs ","%char k = false -> split_commas k = [k].
Proof.
  induction k as [|c k IH]; [reflexivity|]. cbn [occurs split_commas].
  intros H. apply orb_false_elim in H as [Hc Hk]. rewrite Hc, (IH Hk).
  reflexivity.
Qed.

Lemma split_commas_cons (k rest : string) :
  occurs ","%char k = false ->
  split_commas (k ++ String ","%char rest) = k :: split_commas rest.
Proof.
  induction k as [|c k IH]; intros H.
  - reflexivity.
  - cbn [occurs] in H. apply orb_false_elim in H as [Hc Hk].
    change (String c k ++ String ","%char rest)%string
      with (String c (k ++ String ","%char rest)).
    cbn [split_commas]. rewrite Hc, (IH Hk). reflexivity.
Qed.

(** Splitting a list of keys joined by commas gives the keys back, when no
    key holds a comma. *)
Lemma split_join_commas (keys : list string) :
  keys <> [] ->
  Forall (fun k => occurs ","%char k = false) keys ->
  split_commas (join_commas keys) = keys.
Proof.
  intros Hne Hfree. induction Hfree as [|k rest Hk Hrest IH]; [congruence|].
  destruct rest as [|k' rest].
  - cbn [join_commas]. now apply split_commas_free.
  - change (join_commas (k :: k' :: rest))
      with (k ++ String ","%char (join_commas (k' :: rest)))%string.
    rewrite (split_commas_cons _ _ Hk), IH by discriminate. reflexivity.
Qed.

Lemma existsb_eqb_In (k : string) (l : list string) :
  existsb (String.eqb k) l = true <-> In k l.
Proof.
  rewrite existsb_exists. split.
  - intros (x & Hin & E). apply String.eqb_eq in E. now subst.
  - intros Hin. exists k. split; [exact Hin | apply String.eqb_refl].
Qed.

(** [isValidApiKey].  In development every key is valid, an absent one
    included.  Otherwise an absent key is never valid, a key that holds a
    comma is never valid, with [VALID_API_KEYS] unset or empty the empty key
    is valid and no other, and with [VALID_API_KEYS] a comma-joined list of
    keys the valid keys are those of the list. *)
Theorem isValidApiKey_accepts (env : Environment) :
  (development env = true -> forall apiKey, isValidApiKey env apiKey = true)
  /\ (development env = false ->
      isValidApiKey env None = false
      /\ (forall k, occurs ","%char k = true ->
                    isValidApiKey env (Some k) = false)
      /\ (set_var (VALID_API_KEYS env) = false ->
          forall k, isValidApiKey env (Some k) = true <-> k = EmptyString)
      /\ (forall keys,
            keys <> [] ->
            Forall (fun k => occurs ","%char k = false) keys ->
            VALID_API_KEYS env = Some (join_commas keys) ->
            forall k, isValidApiKey env (Some k) = true <-> In k keys)).
Proof.
  unfold isValidApiKey. split; [intros -> apiKey; reflexivity|].
  intros ->. split; [reflexivity|]. split; [|split].
  - intros k Hk. apply not_true_is_false. rewrite existsb_eqb_In. intros Hin.
    pose proof (split_commas_segments (var_or_empty (VALID_API_KEYS env)))
      as Hseg.
    rewrite List.Forall_forall in Hseg. specialize (Hseg k Hin). congruence.
  - intros Hunset k.
    assert (var_or_empty (VALID_API_KEYS env) = EmptyString) as ->
      by (destruct (VALID_API_KEYS env) as [[|]|]; (reflexivity || discriminate)).
    cbn [split_commas existsb]. rewrite orb_false_r.
    rewrite String.eqb_eq. reflexivity.
  - intros keys Hne Hfree Hvar k. rewrite existsb_eqb_In, Hvar.
    cbn [var_or_empty]. now rewrite (split_join_commas keys Hne Hfree).
Qed.

Definition production : Environment :=
  {| NODE_ENV := Some "production"%string; FRONTEND_URL := None;
     VERCEL_URL := Some "sahayak.vercel.app"%string;
     VALID_API_KEYS := Some "alpha,beta"%string;
     ANTHROPIC_API_KEY := Some "sk-ant-key"%string |}.

Definition unconfigured : Environment :=
  {| NODE_ENV := None; FRONTEND_URL := None; VERCEL_URL := None;
     VALID_API_KEYS := None; ANTHROPIC_API_KEY := None |}.

Lemma isValidApiKey_accepts_witness :
  isValidApiKey production (Some "beta"%string) = true
  /\ isValidApiKey production (Some "alpha,beta"%string) = false
  /\ isValidApiKey unconfigured (Some EmptyString) = true
  /\ isValidApiKey unconfigured (Some "alpha"%string) = false.
Proof.
  destruct (isValidApiKey_accepts production) as [_ Hp].
  destruct (Hp eq_refl) as (_ & Hcomma & _ & Hlist).
  destruct (isValidApiKey_accepts unconfigured) as [_ Hu].
  destruct (Hu eq_refl) as (_ & _ & Hunset & _).
  split; [|split; [|split]].
  - apply (Hlist ["alpha"%string; "beta"%string]).
    + discriminate.
    + repeat constructor.
    + reflexivity.
    + right. now left.
  - apply Hcomma. reflexivity.
  - apply (Hunset eq_refl). reflexivity.
  - apply not_true_is_false. intros H. apply (Hunset eq_refl) in H.
    discriminate H.
Defined.

(** *** [getUserIdFromApiKey] *)

(** The polynomial [c1 * 31^(n-1) + ... + cn] of the character codes. *)
Definition polynomial (codes : list Z) : Z :=
  fold_left (fun h c => 31 * h + c) codes 0.

Lemma toInt32_range z : - 2 ^ 31 <= toInt32 z < 2 ^ 31.
Proof.
  unfold toInt32. pose proof (Z.mod_pos_bound (z + 2 ^ 31) (2 ^ 32)). lia.
Qed.

Lemma toInt32_shift z k : toInt32 (z + 2 ^ 32 * k) = toInt32 z.
Proof.
  unfold toInt32. replace (z + 2 ^ 32 * k + 2 ^ 31)
    with (z + 2 ^ 31 + k * 2 ^ 32) by lia.
  now rewrite Z_mod_plus_full.
Qed.

Lemma toInt32_wraps z : exists q, toInt32 z = z - 2 ^ 32 * q.
Proof.
  exists ((z + 2 ^ 31) / 2 ^ 32). unfold toInt32.
  pose proof (Z.div_mod (z + 2 ^ 31) (2 ^ 32)). lia.
Qed.

Lemma toInt32_small z : - 2 ^ 31 <= z < 2 ^ 31 -> toInt32 z = z.
Proof. intros H. unfold toInt32. rewrite Z.mod_small; lia. Qed.

Lemma hash_step_polynomial p c :
  hash_step (toInt32 p) c = toInt32 (31 * p + charCode c).
Proof.
  unfold hash_step.
  destruct (toInt32_wraps p) as [q1 E1].
  destruct (toInt32_wraps (toInt32 p * 32)) as [q2 E2].
  rewrite E2, E1.
  replace ((p - 2 ^ 32 * q1) * 32 - 2 ^ 32 * q2 - (p - 2 ^ 32 * q1) + charCode c)
    with (31 * p + charCode c + 2 ^ 32 * (- 31 * q1 - q2)) by lia.
  apply toInt32_shift.
Qed.

Lemma hash_fold l p :
  fold_left hash_step l (toInt32 p)
  = toInt32 (fold_left (fun h c => 31 * h + c) (map charCode l) p).
Proof.
  revert p. induction l as [|c l IH]; intros p; cbn [fold_left map];
    [reflexivity|].
  rewrite hash_step_polynomial. apply IH.
Qed.

(** The hash of a key is the polynomial of its character codes in base 31,
    wrapped to a signed 32-bit integer; the number of the user id is its
    absolute value, between 0 and 2^31.  The id does not identify the key:
    ["Aa"] and ["BB"] get the same one.  In development every key gets
    ['dev_user']. *)
Theorem getUserIdFromApiKey_hash (env : Environment) (apiKey : string) :
  hash_of apiKey
  = toInt32 (polynomial (map charCode (list_ascii_of_string apiKey)))
  /\ (development env = false ->
      exists n, getUserIdFromApiKey env apiKey = user_ n
                /\ 0 <= n <= 2 ^ 31
                /\ n = Z.abs (hash_of apiKey))
  /\ (development env = true -> getUserIdFromApiKey env apiKey = dev_user)
  /\ getUserIdFromApiKey env "Aa" = getUserIdFromApiKey env "BB".
Proof.
  assert (hash_of apiKey
          = toInt32 (polynomial (map charCode (list_ascii_of_string apiKey))))
    as Hpoly.
  { unfold hash_of, polynomial. rewrite <- hash_fold. reflexivity. }
  split; [exact Hpoly|]. unfold getUserIdFromApiKey. split; [|split].
  - intros ->. eexists. split; [reflexivity|]. split; [|reflexivity].
    rewrite Hpoly.
    pose proof (toInt32_range
                  (polynomial (map charCode (list_ascii_of_string apiKey)))).
    lia.
  - intros ->. reflexivity.
  - destruct (development env); reflexivity.
Qed.

Lemma getUserIdFromApiKey_hash_witness :
  getUserIdFromApiKey production "Aa" = user_ 2112
  /\ exists n, getUserIdFromApiKey production "sk-ant-key" = user_ n
               /\ 0 <= n <= 2 ^ 31.
Proof.
  split; [reflexivity|].
  destruct (getUserIdFromApiKey_hash production "sk-ant-key") as (_ & H & _).
  destruct (H eq_refl) as (n & Hn & Hr & _). exists n. now split.
Defined.

(** *** [handleCORS] *)

Definition allow_origin : string := "Access-Control-Allow-Origin".

(** The three fixed headers are set on every response.  Outside development
    the header [Access-Control-Allow-Origin] is set exactly when the origin
    of the request is one of the allowed origins, and its value is then that
    origin; in development it is always set, to the origin of the request or
    to ['*'] when the request has none. *)
Theorem handleCORS_headers (env : Environment) (origin : option string) :
  let headers := handleCORS env origin in
  In ("Access-Control-Allow-Methods"%string,
      "GET, POST, PUT, DELETE, OPTIONS"%string) headers
  /\ In ("Access-Control-Allow-Headers"%string,
         "Content-Type, Authorization, X-API-Key, X-User-ID"%string) headers
  /\ In ("Access-Control-Max-Age"%string, "86400"%string) headers
  /\ (development env = false ->
      forall v, In (allow_origin, v) headers
                <-> origin = Some v /\ In v (allowedOrigins env))
  /\ (development env = true ->
      forall v, In (allow_origin, v) headers <-> v = origin_or_star origin).
Proof.
  intros headers. subst headers. unfold handleCORS.
  split; [apply in_or_app; right; cbn; tauto|].
  split; [apply in_or_app; right; cbn; tauto|].
  split; [apply in_or_app; right; cbn; tauto|].
  assert (forall v front,
            In (allow_origin, v)
               (front ++ [("Access-Control-Allow-Methods"%string,
                           "GET, POST, PUT, DELETE, OPTIONS"%string);
                          ("Access-Control-Allow-Headers"%string,
                           "Content-Type, Authorization, X-API-Key, X-User-ID"%string);
                          ("Access-Control-Max-Age"%string, "86400"%string)])
            <-> In (allow_origin, v) front) as Hfront.
  { intros v front. rewrite in_app_iff. split; [|tauto].
    intros [H|H]; [exact H|]. cbn in H.
    destruct H as [H|[H|[H|[]]]]; discriminate H. }
  split.
  - intros -> v. rewrite Hfront, orb_false_r.
    destruct origin as [o|]; cbn [origin_allowed].
    + destruct (existsb (String.eqb o) (allowedOrigins env)) eqn:E.
      * apply existsb_eqb_In in E. cbn [In].
        assert (origin_or_star (Some o) = o) as ->.
        { destruct o; [|reflexivity]. exfalso. revert E. unfold allowedOrigins.
          rewrite !in_app_iff. cbn [In].
          destruct (FRONTEND_URL env) as [[|]|], (VERCEL_URL env) as [[|]|];
            cbn; intuition discriminate. }
        split.
        -- intros [[= <-]|[]]. now split.
        -- intros [[= <-] _]. now left.
      * cbn [In]. split; [tauto|]. intros [[= <-] Hin].
        apply existsb_eqb_In in Hin. congruence.
    + cbn [In]. split; [tauto | intros [[=] _]].
  - intros -> v. rewrite Hfront, orb_true_r. cbn [In]. split.
    + intros [[= <-]|[]]. reflexivity.
    + intros ->. now left.
Qed.

(** *** The health endpoint *)

(** For every method but OPTIONS, the health endpoint answers 200 and
    ['healthy'] exactly when [ANTHROPIC_API_KEY] is set, and then reports the
    service as configured; otherwise it answers 503 and ['unhealthy'], names
    the missing variable in its error and reports the service as missing.
    An OPTIONS request is answered 200 whatever the environment. *)
Theorem health_reports (env : Environment) (method : string) :
  health env "OPTIONS" = {| health_status := 200; health_state := None;
                            health_error := None; health_anthropic := None |}
  /\ (method <> "OPTIONS"%string ->
      (set_var (ANTHROPIC_API_KEY env) = true ->
       health env method
       = {| health_status := 200; health_state := Some "healthy"%string;
            health_error := None;
            health_anthropic := Some "configured"%string |})
      /\ (set_var (ANTHROPIC_API_KEY env) = false ->
          health env method
          = {| health_status := 503; health_state := Some "unhealthy"%string;
               health_error :=
                 Some "Missing required environment variables: ANTHROPIC_API_KEY"%string;
               health_anthropic := Some "missing"%string |})).
Proof.
  split; [reflexivity|]. intros Hm. apply String.eqb_neq in Hm.
  unfold health. rewrite Hm. unfold validateEnvironment, anthropic_service.
  cbn [requiredVars List.filter lookup_var String.eqb Ascii.eqb Bool.eqb].
  split; intros ->; reflexivity.
Qed.

End UtilsFacts.

(** ** [sanitizeInput] and [getClientIP] *)

Section SanitizeFacts.

Import Utils.

(** Every whitespace character of [s] is a space, and no two are adjacent;
    [after_space] tells that [s] follows a space. *)
Fixpoint single_spaced (after_space : bool) (s : string) : bool :=
  match s with
  | EmptyString => true
  | String c s' =>
      if is_space c
      then negb after_space && Ascii.eqb c " "%char && single_spaced true s'
      else single_spaced false s'
  end.

Fixpoint no_controls (s : string) : bool :=
  match s with
  | EmptyString => true
  | String c s' => negb (is_control c) && no_controls s'
  end.

(** [s] is empty or starts with a character that is not whitespace. *)
Definition tight_start (s : string) : bool :=
  match s with
  | EmptyString => true
  | String c _ => negb (is_space c)
  end.

(** [s] is empty or ends with a character that is not whitespace. *)
Fixpoint tight_end (s : string) : bool :=
  match s with
  | EmptyString => true
  | String c EmptyString => negb (is_space c)
  | String _ s' => tight_end s'
  end.

Lemma no_controls_remove s : no_controls (remove_controls s) = true.
Proof.
  induction s as [|c s IH]; [reflexivity|]. cbn [remove_controls].
  destruct (is_control c) eqn:E; [exact IH|]. cbn [no_controls].
  now rewrite E, IH.
Qed.

Lemma space_not_control : is_control " "%char = false.
Proof. reflexivity. Qed.

Lemma no_controls_collapse b s :
  no_controls s = true -> no_controls (collapse_spaces b s) = true.
Proof.
  revert b. induction s as [|c s IH]; intros b H; [reflexivity|].
  cbn [no_controls] in H. apply andb_prop in H as [Hc Hs].
  cbn [collapse_spaces]. destruct (is_space c).
  - destruct b; [now apply IH|]. cbn [no_controls].
    rewrite space_not_control. now apply IH.
  - cbn [no_controls]. now rewrite Hc, IH.
Qed.

Lemma single_spaced_collapse b s :
  single_spaced b (collapse_spaces b s) = true.
Proof.
  revert b. induction s as [|c s IH]; intros b; [reflexivity|].
  cbn [collapse_spaces]. destruct (is_space c) eqn:E.
  - destruct b; [apply IH|]. cbn [single_spaced].
    change (is_space " "%char) with true. cbn. apply IH.
  - cbn [single_spaced]. rewrite E. apply IH.
Qed.

Lemma single_spaced_weaken b s :
  single_spaced b s = true -> single_spaced false s = true.
Proof.
  destruct s as [|c s]; [reflexivity|]. cbn [single_spaced].
  destruct (is_space c); [|exact (fun H => H)].
  destruct b; [discriminate | exact (fun H => H)].
Qed.

Lemma single_spaced_trim_start s :
  single_spaced false s = true -> single_spaced false (trim_start s) = true.
Proof.
  induction s as [|c s IH]; [reflexivity|]. cbn [trim_start].
  destruct (is_space c) eqn:E; [|exact (fun H => H)].
  cbn [single_spaced]. rewrite E. intros H.
  apply andb_prop in H as [_ H]. apply IH. exact (single_spaced_weaken _ _ H).
Qed.

Lemma no_controls_trim_start s :
  no_controls s = true -> no_controls (trim_start s) = true.
Proof.
  induction s as [|c s IH]; [reflexivity|]. cbn [trim_start].
  destruct (is_space c); [|exact (fun H => H)].
  cbn [no_controls]. intros H. apply andb_prop in H as [_ H]. now apply IH.
Qed.

Lemma tight_start_trim_start s : tight_start (trim_start s) = true.
Proof.
  induction s as [|c s IH]; [reflexivity|]. cbn [trim_start].
  destruct (is_space c) eqn:E; [exact IH|]. cbn. now rewrite E.
Qed.

Lemma trim_end_cons c s :
  trim_end (String c s)
  = match trim_end s with
    | EmptyString => if is_space c then EmptyString else String c EmptyString
    | t => String c t
    end.
Proof. reflexivity. Qed.

Lemma no_controls_trim_end s :
  no_controls s = true -> no_controls (trim_end s) = true.
Proof.
  induction s as [|c s IH]; [reflexivity|]. cbn [no_controls]. intros H.
  apply andb_prop in H as [Hc Hs]. rewrite trim_end_cons.
  specialize (IH Hs). destruct (trim_end s) as [|c' t].
  - destruct (is_space c); [reflexivity|]. cbn. now rewrite Hc.
  - cbn [no_controls] in *. now rewrite Hc, IH.
Qed.

Lemma single_spaced_trim_end b s :
  single_spaced b s = true -> single_spaced b (trim_end s) = true.
Proof.
  revert b. induction s as [|c s IH]; intros b H; [reflexivity|].
  rewrite trim_end_cons. cbn [single_spaced] in H.
  destruct (is_space c) eqn:E.
  - apply andb_prop in H as [H1 H2]. specialize (IH _ H2).
    destruct (trim_end s) as [|c' t]; [reflexivity|].
    cbn [single_spaced] in *. now rewrite E, H1, IH.
  - specialize (IH _ H). destruct (trim_end s) as [|c' t].
    + cbn. now rewrite E.
    + cbn [single_spaced] in *. now rewrite E, IH.
Qed.

Lemma tight_start_trim_end s :
  tight_start s = true -> tight_start (trim_end s) = true.
Proof.
  destruct s as [|c s]; [reflexivity|]. cbn [tight_start]. intros H.
  rewrite trim_end_cons. apply negb_true_iff in H.
  destruct (trim_end s); rewrite ?H; cbn; now rewrite H.
Qed.

Lemma tight_end_trim_end s : tight_end (trim_end s) = true.
Proof.
  induction s as [|c s IH]; [reflexivity|]. rewrite trim_end_cons.
  destruct (trim_end s) as [|c' t].
  - destruct (is_space c) eqn:E; [reflexivity|]. cbn. now rewrite E.
  - exact IH.
Qed.

Lemma remove_controls_fixed s : no_controls s = true -> remove_controls s = s.
Proof.
  induction s as [|c s IH]; [reflexivity|]. cbn [no_controls remove_controls].
  intros H. apply andb_prop in H as [Hc Hs]. apply negb_true_iff in Hc.
  now rewrite Hc, IH.
Qed.

Lemma collapse_spaces_fixed b s :
  single_spaced b s = true -> collapse_spaces b s = s.
Proof.
  revert b. induction s as [|c s IH]; intros b H; [reflexivity|].
  cbn [single_spaced collapse_spaces] in *. destruct (is_space c).
  - apply andb_prop in H as [H1 H2]. apply andb_prop in H1 as [Hb Hc].
    apply negb_true_iff in Hb. apply Ascii.eqb_eq in Hc. subst.
    now rewrite (IH _ H2).
  - now rewrite (IH _ H).
Qed.

Lemma trim_start_fixed s : tight_start s = true -> trim_start s = s.
Proof.
  destruct s as [|c s]; [reflexivity|]. cbn. intros H.
  apply negb_true_iff in H. now rewrite H.
Qed.

Lemma trim_end_fixed s : tight_end s = true -> trim_end s = s.
Proof.
  induction s as [|c s IH]; [reflexivity|]. rewrite trim_end_cons.
  destruct s as [|c' s].
  - cbn. intros H. apply negb_true_iff in H. now rewrite H.
  - intros H. change (tight_end (String c' s) = true) in H.
    now rewrite (IH H).
Qed.

(** The text [sanitizeInput] returns for a string. *)
Definition tidy (s : string) : Prop :=
  no_controls s = true /\ single_spaced false s = true
  /\ tight_start s = true /\ tight_end s = true.

Lemma sanitize_tidy s :
  tidy (trim (collapse_spaces false (remove_controls s))).
Proof.
  unfold tidy, trim. repeat split.
  - apply no_controls_trim_end, no_controls_trim_start, no_controls_collapse,
      no_controls_remove.
  - apply single_spaced_trim_end, single_spaced_trim_start,
      single_spaced_collapse.
  - apply tight_start_trim_end, tight_start_trim_start.
  - apply tight_end_trim_end.
Qed.

(** What [sanitizeInput] returns holds no control character, its only
    whitespace is single spaces between other characters (none at either
    end, no two in a row), and sanitizing it again returns it unchanged; a
    text that is already of that form is returned as it is, and a value that
    is not a string gives the empty string. *)
Theorem sanitizeInput_tidy (text : JsValue) :
  tidy (sanitizeInput text)
  /\ sanitizeInput (JStr (sanitizeInput text)) = sanitizeInput text
  /\ (forall s, text = JStr s -> tidy s -> sanitizeInput text = s)
  /\ ((forall s, text <> JStr s) -> sanitizeInput text = EmptyString).
Proof.
  assert (forall s, tidy s -> sanitizeInput (JStr s) = s) as Hfixed.
  { intros s (Hc & Hs & Hb & He). cbn [sanitizeInput]. unfold trim.
    now rewrite (remove_controls_fixed _ Hc), (collapse_spaces_fixed _ _ Hs),
      (trim_start_fixed _ Hb), (trim_end_fixed _ He). }
  assert (tidy (sanitizeInput text)) as Htidy.
  { destruct text; cbn [sanitizeInput]; try (repeat split; reflexivity).
    apply sanitize_tidy. }
  split; [exact Htidy|]. split; [now apply Hfixed|]. split.
  - intros s -> Hs. now apply Hfixed.
  - intros Hno. destruct text; try reflexivity. now destruct (Hno s).
Qed.

Example sanitizeInput_sample :
  sanitizeInput
    (JStr (String "009" (" Audit" ++ String "000" (String "010" (String "013"
            ("  report " ++ String "160" (String "007" EmptyString)))))))
  = "Audit report"%string.
Proof. reflexivity. Qed.

End SanitizeFacts.

Section KeyFacts.

Import Utils Keys RateLimit.

Local Open Scope Z_scope.

Lemma or_else_not_empty a b : b <> EmptyString -> or_else a b <> EmptyString.
Proof. destruct a as [[|c s]|]; cbn; congruence. Qed.

Lemma occurs_trim_start c s :
  occurs c s = false -> occurs c (trim_start s) = false.
Proof.
  induction s as [|c' s IH]; [reflexivity|]. cbn [trim_start].
  destruct (is_space c'); [|exact (fun H => H)].
  cbn [occurs]. intros H. apply orb_false_elim in H as [_ H]. now apply IH.
Qed.

Lemma occurs_trim_end c s :
  occurs c s = false -> occurs c (trim_end s) = false.
Proof.
  induction s as [|c' s IH]; [reflexivity|]. cbn [occurs]. intros H.
  apply orb_false_elim in H as [Hc Hs]. rewrite trim_end_cons.
  specialize (IH Hs). destruct (trim_end s) as [|c'' t].
  - destruct (is_space c'); [reflexivity|]. cbn. now rewrite Hc.
  - cbn [occurs] in *. now rewrite Hc, IH.
Qed.

Lemma hd_split_commas_free first rest :
  occurs ","%char first = false ->
  hd EmptyString (split_commas (first ++ String ","%char rest)) = first.
Proof. intros H. now rewrite (split_commas_cons _ _ H). Qed.

(** The key of a request is never empty; it is ['unknown'] when the request
    carries no address at all.  The first entry of [x-forwarded-for] is the
    text before the first comma of the header, all of it when the header
    holds no comma.  When that entry is not blank the key is the entry,
    trimmed: it holds no comma and no whitespace at either end, and it does
    not depend on the rest of the header.  When the entry is blank the key
    comes from the next source.  [getClientIP] of [lib/utils.js] returns a
    header that is not empty whole. *)
Theorem getClientIP_key (req : Req) :
  getClientIP req <> EmptyString
  /\ getClientIP_utils req <> EmptyString
  /\ (x_forwarded_for req = None -> x_real_ip req = None ->
      connection_remoteAddress req = None -> socket_remoteAddress req = None ->
      getClientIP req = "unknown"%string)
  /\ (forall header first,
        x_forwarded_for req = Some header ->
        occurs ","%char first = false ->
        header = first
        \/ (exists rest, header = (first ++ String ","%char rest)%string) ->
        (trim first <> EmptyString ->
         getClientIP req = trim first
         /\ occurs ","%char (getClientIP req) = false
         /\ tight_start (getClientIP req) = true
         /\ tight_end (getClientIP req) = true)
        /\ (trim first = EmptyString ->
            getClientIP req
            = or_else (x_real_ip req)
                (or_else (connection_remoteAddress req)
                   (or_else (socket_remoteAddress req) "unknown"%string)))
        /\ (header <> EmptyString -> getClientIP_utils req = header)).
Proof.
  split; [|split; [|split]].
  - unfold getClientIP. repeat apply or_else_not_empty. discriminate.
  - unfold getClientIP_utils. repeat apply or_else_not_empty. discriminate.
  - intros H1 H2 H3 H4. unfold getClientIP, first_forwarded.
    now rewrite H1, H2, H3, H4.
  - intros header first Hx Hfree Hshape.
    assert (hd EmptyString (split_commas header) = first) as Hhd.
    { destruct Hshape as [->|[rest ->]].
      - now rewrite (split_commas_free _ Hfree).
      - now apply hd_split_commas_free. }
    split; [|split].
    + intros Hne.
      assert (getClientIP req = trim first) as Hkey.
      { unfold getClientIP, first_forwarded. rewrite Hx, Hhd.
        destruct (trim first); [now destruct Hne | reflexivity]. }
      rewrite Hkey. split; [reflexivity|]. split; [|split].
      * unfold trim. now apply occurs_trim_end, occurs_trim_start.
      * unfold trim. apply tight_start_trim_end, tight_start_trim_start.
      * unfold trim. apply tight_end_trim_end.
    + intros Hblank. unfold getClientIP, first_forwarded.
      rewrite Hx, Hhd, Hblank. reflexivity.
    + intros Hne. unfold getClientIP_utils. rewrite Hx.
      destruct header; [now destruct Hne | reflexivity].
Qed.

Lemma getClientIP_key_witness :
  getClientIP {| x_forwarded_for := Some " 203.0.113.7 , 10.0.0.1"%string;
                 x_real_ip := Some "10.0.0.1"%string;
                 connection_remoteAddress := None;
                 socket_remoteAddress := None |}
  = "203.0.113.7"%string
  /\ getClientIP {| x_forwarded_for := Some "203.0.113.7"%string;
                    x_real_ip := Some "10.0.0.1"%string;
                    connection_remoteAddress := None;
                    socket_remoteAddress := None |}
     = "203.0.113.7"%string
  /\ getClientIP {| x_forwarded_for := Some " , 10.0.0.1"%string;
                    x_real_ip := Some "10.0.0.2"%string;
                    connection_remoteAddress := None;
                    socket_remoteAddress := None |}
     = "10.0.0.2"%string
  /\ getClientIP {| x_forwarded_for := None; x_real_ip := None;
                    connection_remoteAddress := None;
                    socket_remoteAddress := None |}
     = "unknown"%string.
Proof.
  split; [|split; [|split]].
  - destruct (getClientIP_key
                {| x_forwarded_for := Some " 203.0.113.7 , 10.0.0.1"%string;
                   x_real_ip := Some "10.0.0.1"%string;
                   connection_remoteAddress := None;
                   socket_remoteAddress := None |}) as (_ & _ & _ & H).
    destruct (H " 203.0.113.7 , 10.0.0.1"%string " 203.0.113.7 "%string)
      as ([E _] & _);
      [reflexivity | reflexivity
       | right; exists " 10.0.0.1"%string; reflexivity
       | discriminate | exact E].
  - destruct (getClientIP_key
                {| x_forwarded_for := Some "203.0.113.7"%string;
                   x_real_ip := Some "10.0.0.1"%string;
                   connection_remoteAddress := None;
                   socket_remoteAddress := None |}) as (_ & _ & _ & H).
    destruct (H "203.0.113.7"%string "203.0.113.7"%string) as ([E _] & _);
      [reflexivity | reflexivity | left; reflexivity | discriminate | exact E].
  - destruct (getClientIP_key
                {| x_forwarded_for := Some " , 10.0.0.1"%string;
                   x_real_ip := Some "10.0.0.2"%string;
                   connection_remoteAddress := None;
                   socket_remoteAddress := None |}) as (_ & _ & _ & H).
    destruct (H " , 10.0.0.1"%string " "%string) as (_ & E & _);
      [reflexivity | reflexivity
       | right; exists " 10.0.0.1"%string; reflexivity |].
    apply E. reflexivity.
  - apply getClientIP_key; reflexivity.
Defined.

(** The decision of a call depends on the store only through the record of
    its key. *)
Lemma rateLimit_decision_local (store1 store2 : gmap string Data) (call : Call) :
  store1 !! key call = store2 !! key call ->
  fst (rateLimit store1 call) = fst (rateLimit store2 call).
Proof.
  intros Hsame.
  assert (after_cleanup store1 call !! key call
          = after_cleanup store2 call !! key call) as Hc.
  { unfold after_cleanup. destruct (cleanup call); [|exact Hsame].
    unfold cleanupOldEntries. now rewrite !lookup_omap, Hsame. }
  unfold rateLimit. fold (after_cleanup store1 call) (after_cleanup store2 call).
  rewrite Hc. destruct (_ <=? _); reflexivity.
Qed.

(** The records of users, of API keys and of different users are apart: a
    check of a user that draws no cleanup leaves the record of every API key
    and of every other user as it was, so the decision of their next check
    is the one they would have got without it. *)
Theorem user_and_api_keys_apart
    (store : gmap string Data) (userId : string) (o : GivenOptions)
    (t : Z) :
  let store' := snd (rateLimitByUser store userId o t None) in
  (forall apiKey, store' !! ("api:" ++ apiKey)%string
                  = store !! ("api:" ++ apiKey)%string)
  /\ (forall other, other <> userId ->
                    store' !! ("user:" ++ other)%string
                    = store !! ("user:" ++ other)%string)
  /\ (forall apiKey o' t' c',
        fst (rateLimitByApiKey store' apiKey o' t' c')
        = fst (rateLimitByApiKey store apiKey o' t' c'))
  /\ (forall other o' t' c', other <> userId ->
        fst (rateLimitByUser store' other o' t' c')
        = fst (rateLimitByUser store other o' t' c')).
Proof.
  intros store'. subst store'. unfold rateLimitByUser, rateLimitByApiKey.
  set (call := {| key := ("user:" ++ userId)%string; now := t;
                  options := with_defaults o; cleanup := None |}).
  destruct (rateLimit_leaves store call) as (_ & _ & Hframe & _).
  specialize (Hframe eq_refl).
  assert (forall apiKey, ("api:" ++ apiKey)%string <> key call) as Hapi
    by (intros apiKey; discriminate).
  assert (forall other, other <> userId ->
                        ("user:" ++ other)%string <> key call) as Huser
    by (intros other Hne E; apply Hne; unfold call in E; cbn [key] in E;
        cbv in E; injection E as E; exact E).
  split; [intros apiKey; apply Hframe, Hapi|].
  split; [intros other Hne; apply Hframe, Huser, Hne|].
  split.
  - intros apiKey o' t' c'. apply rateLimit_decision_local.
    cbn [key]. apply Hframe, Hapi.
  - intros other o' t' c' Hne. apply rateLimit_decision_local.
    cbn [key]. apply Hframe, Huser, Hne.
Qed.

(** The tiers of [rateLimitAdvanced] share the record of a client.  A
    health check keeps, of the instants recorded for the client, only those
    of the last minute.  When there is none, the record afterwards holds the
    health check alone, and the next analyze check of the client within 15
    minutes is allowed with 3 requests remaining, however many analyze
    requests the client made in the 15 minutes before. *)
Theorem health_check_resets_analyze_quota
    (store : gmap string Data) (k : string) (t t' : Z) (c c' : option Z) :
  retained store (health_call k t c) = [] ->
  t <= t' < t + 900000 ->
  let store' := snd (rateLimitAdvanced store k "/api/v1/health" t c) in
  requests_of store' k = [t]
  /\ success (fst (rateLimitAdvanced store' k "/api/v1/analyze" t' c')) = true
  /\ remaining (fst (rateLimitAdvanced store' k "/api/v1/analyze" t' c')) = 3.
Proof.
  intros Hnone Ht store'. subst store'.
  change (rateLimitAdvanced store k "/api/v1/health" t c)
    with (rateLimit store (health_call k t c)).
  destruct (rateLimit_admits store (health_call k t c)) as [_ Hrec];
    [rewrite Hnone; reflexivity|].
  rewrite Hnone in Hrec. cbn [app key health_call now] in Hrec.
  split; [exact Hrec|].
  rewrite rateLimitAdvanced_analyze.
  assert (retained (snd (rateLimit store (health_call k t c)))
                   (analyze_call k t' c') = [t]) as Hkept
    by (apply retained_analyze; [exact Hrec | repeat constructor; lia]).
  destruct (rateLimit_admits (snd (rateLimit store (health_call k t c)))
              (analyze_call k t' c')) as [Hd _];
    [rewrite Hkept; reflexivity|].
  rewrite Hd, Hkept. split; reflexivity.
Qed.

(** Five analyze requests in five seconds, a health check 70 seconds later,
    and a sixth analyze request, all of one client and without any cleanup:
    the sixth is allowed. *)
Lemma health_check_resets_analyze_quota_witness :
  let used := snd (run ∅ (firstn 5 readmitting_run)) in
  requests_of used "203.0.113.7" = [1000; 2000; 3000; 4000; 5000]
  /\ success (fst (rateLimitAdvanced used "203.0.113.7" "/api/v1/analyze"
                     71000 None)) = false
  /\ success (fst (rateLimitAdvanced
                     (snd (rateLimitAdvanced used "203.0.113.7" "/api/v1/health"
                             70000 None))
                     "203.0.113.7" "/api/v1/analyze" 71000 None)) = true.
Proof.
  intros used. split; [reflexivity|]. split; [reflexivity|].
  apply (health_check_resets_analyze_quota used "203.0.113.7" 70000 71000
           None None).
  - reflexivity.
  - lia.
Defined.

Lemma zero_limit_retry_infinity_witness :
  retryAfter
    (fst (rateLimit ∅ {| key := "203.0.113.7"; now := 1000;
                         options := {| windowMs := 60000; max := 0 |};
                         cleanup := None |})) = Infinity.
Proof.
  apply (zero_limit_retry_infinity ∅
           {| key := "203.0.113.7"; now := 1000;
              options := {| windowMs := 60000; max := 0 |};
              cleanup := None |}).
  - cbn. lia.
  - reflexivity.
Defined.

End KeyFacts.
